(** * Post-processing hooks of pooch ([pooch/processors.py])

    A shallow embedding of [ExtractorProcessor], [Unzip], [Untar] and
    [Decompress], and the properties of their refresh policy, of the
    extraction of named members and of the format resolution.

    The processors are Python statements over a world: a directory tree,
    a log of the warnings and of the handles opened and closed, and the
    announced failures of writes.  The services of the operating system
    ([os.path], [os.makedirs], [os.walk], [open]) work on the tree; the
    file formats ([zipfile], [tarfile], [lzma], [gzip], [bz2]) are
    parameters.  First the definitions, then the lemmas and the
    theorems. *)

From Stdlib Require Import String Ascii List Bool Arith ZArith Lia.
From Stdlib Require Import Strings.Byte.
Import ListNotations.

Local Open Scope string_scope.
Local Open Scope list_scope.

(** Python's [+] on [str]. *)
Notation "s +++ t" := (String.append s t) (at level 60, right associativity).

(* ================================================================== *)
(** * Strings and paths ([posixpath]) *)
(* ================================================================== *)

Module Path.

Definition sep : ascii := "/"%char.
Definition extsep : ascii := "."%char.

(** [s.startswith(sep)] and [s.endswith(sep)]. *)
Definition startswith_sep (s : string) : bool :=
  match s with
  | String c _ => Ascii.eqb c sep
  | EmptyString => false
  end.

Fixpoint endswith_sep (s : string) : bool :=
  match s with
  | EmptyString => false
  | String c EmptyString => Ascii.eqb c sep
  | String _ s' => endswith_sep s'
  end.

(** [posixpath.join(a, b)]: an absolute [b] discards [a]; an empty [a] or
    one that ends with the separator takes [b] as it is. *)
Definition join (a b : string) : string :=
  if startswith_sep b then b
  else if (a =? "")%string || endswith_sep a then a +++ b
  else a +++ String sep b.

(** [s.rfind(c)], with the index of the first character given by [i];
    [-1] when [c] does not occur. *)
Fixpoint rfind_from (c : ascii) (s : string) (i : Z) : Z :=
  match s with
  | EmptyString => (-1)%Z
  | String a s' =>
      let r := rfind_from c s' (i + 1)%Z in
      if (0 <=? r)%Z then r
      else if Ascii.eqb a c then i else (-1)%Z
  end.

Definition rfind (c : ascii) (s : string) : Z := rfind_from c s 0.

(** The slices [p[:i]] and [p[i:]] for [0 <= i]. *)
Definition slice_to (p : string) (i : Z) : string :=
  String.substring 0 (Z.to_nat i) p.
Definition slice_from (p : string) (i : Z) : string :=
  String.substring (Z.to_nat i) (String.length p - Z.to_nat i) p.

(** The [while] loop of [genericpath._splitext]: is there a character
    other than the dot in [p[filenameIndex:dotIndex]]? *)
Fixpoint has_non_dot (s : string) : bool :=
  match s with
  | EmptyString => false
  | String c s' => negb (Ascii.eqb c extsep) || has_non_dot s'
  end.

(** [posixpath.splitext(p)]: the extension starts at the last dot of the
    last path segment, and the leading dots of that segment do not start
    an extension. *)
Definition splitext (p : string) : string * string :=
  let sepIndex := rfind sep p in
  let dotIndex := rfind extsep p in
  if (sepIndex <? dotIndex)%Z then
    let filenameIndex := (sepIndex + 1)%Z in
    if has_non_dot
         (String.substring (Z.to_nat filenameIndex)
                           (Z.to_nat (dotIndex - filenameIndex)) p)
    then (slice_to p dotIndex, slice_from p dotIndex)
    else (p, "")
  else (p, "").

(** The segments of a path between separators: the first one and the
    list of those that follow. *)
Fixpoint split_sep (s : string) : string * list string :=
  match s with
  | EmptyString => ("", [])
  | String c s' =>
      let (h, t) := split_sep s' in
      if Ascii.eqb c sep then ("", h :: t) else (String c h, t)
  end.

Definition segments (s : string) : list string :=
  let (h, t) := split_sep s in h :: t.

(** A segment that names a directory entry: empty segments (doubled or
    trailing separators) and [.] name nothing. *)
Definition is_name (c : string) : bool :=
  negb (c =? "")%string && negb (c =? ".")%string.

(** The names a path goes through, from the root. *)
Definition components (s : string) : list string :=
  filter is_name (segments s).

(** A path whose last segment is not a name ([d/], [d/.]) can only
    denote a directory. *)
Definition wants_dir (s : string) : bool :=
  negb (is_name (last (segments s) "")).

End Path.

(* ================================================================== *)
(** * The file system *)
(* ================================================================== *)

(** A directory tree.  The entries of a directory are kept in the order in
    which the directory lists them ([os.scandir]); a new entry goes to the
    end.  Symbolic links, permissions and [..] are not modelled: a path is
    resolved name by name from the root, which is also the working
    directory. *)

Definition bytes := list byte.

#[warnings="-register-all"]
Inductive node : Type :=
| File (data : bytes)
| Dir (entries : list (string * node)).

Module Tree.

Fixpoint get (name : string) (es : list (string * node)) : option node :=
  match es with
  | [] => None
  | (k, n) :: es' => if (k =? name)%string then Some n else get name es'
  end.

Fixpoint put (name : string) (n : node) (es : list (string * node))
  : list (string * node) :=
  match es with
  | [] => [(name, n)]
  | (k, m) :: es' =>
      if (k =? name)%string then (k, n) :: es' else (k, m) :: put name n es'
  end.

(** The node a list of names leads to. *)
Fixpoint lookup (n : node) (p : list string) : option node :=
  match p with
  | [] => Some n
  | c :: p' =>
      match n with
      | File _ => None
      | Dir es =>
          match get c es with
          | Some ch => lookup ch p'
          | None => None
          end
      end
  end.

(** Is a regular file met on the way, before the last name?  (What
    [ENOTDIR] reports, where [ENOENT] reports a missing name.) *)
Fixpoint blocked (n : node) (p : list string) : bool :=
  match p with
  | [] => false
  | c :: p' =>
      match n with
      | File _ => true
      | Dir es =>
          match get c es with
          | Some ch => blocked ch p'
          | None => false
          end
      end
  end.

(** Put [new] at [p]; every directory on the way must be there. *)
Fixpoint store (n : node) (p : list string) (new : node) : option node :=
  match p with
  | [] => Some new
  | c :: p' =>
      match n with
      | File _ => None
      | Dir es =>
          match p' with
          | [] => Some (Dir (put c new es))
          | _ :: _ =>
              match get c es with
              | Some ch =>
                  match store ch p' new with
                  | Some ch' => Some (Dir (put c ch' es))
                  | None => None
                  end
              | None => None
              end
          end
      end
  end.

(** Make the directory [p] and the missing directories on the way
    ([mkdir -p]); fails on a regular file. *)
Fixpoint mkdirs (n : node) (p : list string) : option node :=
  match n with
  | File _ => None
  | Dir es =>
      match p with
      | [] => Some n
      | c :: p' =>
          match mkdirs (match get c es with Some ch => ch | None => Dir [] end) p' with
          | Some ch' => Some (Dir (put c ch' es))
          | None => None
          end
      end
  end.

Definition is_dir (n : node) : bool :=
  match n with Dir _ => true | File _ => false end.

Definition dirnames (es : list (string * node)) : list string :=
  map fst (filter (fun e => is_dir (snd e)) es).

Definition filenames (es : list (string * node)) : list string :=
  map fst (filter (fun e => negb (is_dir (snd e))) es).

(** [os.walk(top)], top-down: the triple of a directory, then the walks
    of its subdirectories in listing order. *)
Fixpoint walk (top : string) (n : node)
  : list (string * list string * list string) :=
  match n with
  | File _ => []
  | Dir es =>
      (top, dirnames es, filenames es) ::
      (fix subdirs (l : list (string * node)) :=
         match l with
         | [] => []
         | (name, ch) :: l' =>
             match ch with
             | Dir _ => walk (Path.join top name) ch ++ subdirs l'
             | File _ => subdirs l'
             end
         end) es
  end.

End Tree.

(* ================================================================== *)
(** * Exceptions, events and the state of the world *)
(* ================================================================== *)

Inductive errno : Type := ENOENT | EEXIST | ENOTDIR | EISDIR | ENOSPC.

(** The exceptions that reach the caller.  [OSError ENOENT] is
    [FileNotFoundError], [OSError EEXIST] is [FileExistsError], and so on;
    [BadArchive] is what [zipfile] or [tarfile] raise on a file they cannot
    read, [CorruptStream] what a compression module raises in the middle of
    a stream. *)
Inductive exn : Type :=
| NotImplementedError (msg : string)
| ValueError (msg : string)
| KeyError (name : string)
| AttributeError (msg : string)
| OSError (e : errno)
| BadArchive
| CorruptStream.

Inductive handle : Type :=
| HArchive (fname : string)
| HMember (name : string)
| HOutput (path : string)
| HCompressed (fname : string).

(** What a call leaves in the log, oldest first: the warnings it emits, the
    handles it opens and closes, and [Unpack] where [__call__] calls
    [self._extract_file]. *)
Inductive event : Type :=
| Warn (msg : string)
| Opened (h : handle)
| Closed (h : handle)
| Unpack (fname extract_dir : string).

(** [faults] announces the fate of the coming writes to open files: [true]
    for a write that fails (a full disk); once the list is used up every
    write succeeds. *)
Record world : Type := World {
  fs : node;
  log : list event;
  faults : list bool
}.

Inductive outcome (A : Type) : Type :=
| Returned (v : A)
| Raised (e : exn).
Arguments Returned {A} v.
Arguments Raised {A} e.

(** A Python statement: it changes the world and returns or raises; what
    it did before raising stays done. *)
Definition M (A : Type) : Type := world -> world * outcome A.

Definition ret {A} (v : A) : M A := fun w => (w, Returned v).
Definition raise {A} (e : exn) : M A := fun w => (w, Raised e).

Definition bind {A B} (m : M A) (f : A -> M B) : M B :=
  fun w =>
    match m w with
    | (w1, Returned v) => f v w1
    | (w1, Raised e) => (w1, Raised e)
    end.

Notation "x <- m ;; k" := (bind m (fun x => k))
  (at level 61, m at next level, right associativity).
Notation "m ;;; k" := (bind m (fun _ => k))
  (at level 61, right associativity).

(** [try: body finally: cleanup]: the cleanup runs on every exit of the
    body; an exception of the cleanup replaces the outcome of the body. *)
Definition try_finally {A} (body : M A) (cleanup : M unit) : M A :=
  fun w =>
    match body w with
    | (w1, r) =>
        match cleanup w1 with
        | (w2, Returned _) => (w2, r)
        | (w2, Raised e) => (w2, Raised e)
        end
    end.

(** [for x in xs: body]. *)
Fixpoint for_each {A} (xs : list A) (body : A -> M unit) : M unit :=
  match xs with
  | [] => ret tt
  | x :: xs' => body x ;;; for_each xs' body
  end.

Definition emit (e : event) : M unit :=
  fun w => (World (fs w) (log w ++ [e]) (faults w), Returned tt).

Definition warn (msg : string) : M unit := emit (Warn msg).

Definition set_fs (w : world) (root : node) : world :=
  World root (log w) (faults w).

(* ================================================================== *)
(** * Operating-system services *)
(* ================================================================== *)

Module OS.

(** [os.path.exists(path)] as a function of the tree. *)
Definition exists_in (root : node) (path : string) : bool :=
  if (path =? "")%string then false
  else
    match Tree.lookup root (Path.components path) with
    | Some (Dir _) => true
    | Some (File _) => negb (Path.wants_dir path)
    | None => false
    end.

Definition path_exists (path : string) : M bool :=
  fun w => (w, Returned (exists_in (fs w) path)).

(** [os.makedirs(path)], with [exist_ok=False]. *)
Definition makedirs (path : string) : M unit :=
  fun w =>
    if (path =? "")%string then (w, Raised (OSError ENOENT))
    else
      match Tree.lookup (fs w) (Path.components path) with
      | Some _ => (w, Raised (OSError EEXIST))
      | None =>
          match Tree.mkdirs (fs w) (Path.components path) with
          | Some root => (set_fs w root, Returned tt)
          | None => (w, Raised (OSError ENOTDIR))
          end
      end.

(** [open(path, "wb")] and [open(path, "w+b")]: the file is created, or
    truncated when it is there; its directory must exist. *)
Definition open_write (path : string) : M handle :=
  fun w =>
    if (path =? "")%string then (w, Raised (OSError ENOENT))
    else if Path.wants_dir path then (w, Raised (OSError EISDIR))
    else
      match Tree.lookup (fs w) (Path.components path) with
      | Some (Dir _) => (w, Raised (OSError EISDIR))
      | _ =>
          match Tree.store (fs w) (Path.components path) (File []) with
          | Some root =>
              (World root (log w ++ [Opened (HOutput path)]) (faults w),
               Returned (HOutput path))
          | None =>
              if Tree.blocked (fs w) (Path.components path)
              then (w, Raised (OSError ENOTDIR))
              else (w, Raised (OSError ENOENT))
          end
      end.

(** [output.write(data)] on a file open for writing: the data go to the
    end of the file, unless the write fails. *)
Definition write (path : string) (data : bytes) : M unit :=
  fun w =>
    match faults w with
    | true :: rest => (World (fs w) (log w) rest, Raised (OSError ENOSPC))
    | _ =>
        let rest := tl (faults w) in
        match Tree.lookup (fs w) (Path.components path) with
        | Some (File old) =>
            match Tree.store (fs w) (Path.components path) (File (old ++ data)) with
            | Some root => (World root (log w) rest, Returned tt)
            | None => (World (fs w) (log w) rest, Raised (OSError ENOENT))
            end
        | _ => (World (fs w) (log w) rest, Raised (OSError ENOENT))
        end
    end.

Definition close (h : handle) : M unit := emit (Closed h).

(** The whole content of a regular file, as the archive and compression
    modules read it. *)
Definition read_file (path : string) : M bytes :=
  fun w =>
    if (path =? "")%string then (w, Raised (OSError ENOENT))
    else
      match Tree.lookup (fs w) (Path.components path) with
      | Some (File data) =>
          if Path.wants_dir path then (w, Raised (OSError ENOTDIR))
          else (w, Returned data)
      | Some (Dir _) => (w, Raised (OSError EISDIR))
      | None =>
          if Tree.blocked (fs w) (Path.components path)
          then (w, Raised (OSError ENOTDIR))
          else (w, Raised (OSError ENOENT))
      end.

(** [os.walk(top)]: nothing when [top] is not a directory (the error of
    the listing is dropped). *)
Definition walked (root : node) (top : string)
  : list (string * list string * list string) :=
  if (top =? "")%string then []
  else
    match Tree.lookup root (Path.components top) with
    | Some n => Tree.walk top n
    | None => []
    end.

Definition walk (top : string) : M (list (string * list string * list string)) :=
  fun w => (w, Returned (walked (fs w) top)).

End OS.

(* ================================================================== *)
(** * The archive and compression modules *)
(* ================================================================== *)

(** What an archive holds under a name: the bytes of a regular file, or a
    directory.  A name may occur more than once; the last one counts.
    The links, devices and other special members that a tar archive may
    hold are not modelled, so nothing is said here of what [extractall]
    does with them (in the place of a link it removes what is there). *)
Inductive entry : Type :=
| Regular (data : bytes)
| Directory.

Definition archive : Type := list (string * entry).

(** The compression modules of the standard library that [Decompress]
    knows. *)
Inductive pymodule : Type := lzma | gzip | bz2.

(** The formats themselves are those of [zipfile], [tarfile], [lzma],
    [gzip] and [bz2]: how they read a file is a parameter of the
    processors.  [zip_read] and [tar_read] give the entries of an archive
    file, or nothing for a file that is no archive; [decode] gives the
    bytes that can be read from a compressed file and tells whether the
    stream ends as it should. *)
Record codecs : Type := Codecs {
  zip_read : bytes -> option archive;
  tar_read : bytes -> option archive;
  decode : pymodule -> bytes -> bytes * bool
}.

Module Archive.

(** [getinfo] / [getmember]: the last entry of that name. *)
Fixpoint getmember (name : string) (ar : archive) : option entry :=
  match ar with
  | [] => None
  | (k, e) :: ar' =>
      match getmember name ar' with
      | Some e' => Some e'
      | None => if (k =? name)%string then Some e else None
      end
  end.

(** [with ZipFile(fname, "r") as zip_file: body] and
    [with TarFile.open(fname, "r") as tar_file: body]. *)
Definition with_archive (read : bytes -> option archive) (fname : string)
           (body : archive -> M unit) : M unit :=
  data <- OS.read_file fname ;;
  match read data with
  | None => raise BadArchive
  | Some ar =>
      emit (Opened (HArchive fname)) ;;;
      try_finally (body ar) (OS.close (HArchive fname))
  end.

(** [zip_file.open(member)]: a stream on the bytes of the entry (none
    for a directory entry); [KeyError] for a name that is not there. *)
Definition zip_open (ar : archive) (member : string) : M bytes :=
  match getmember member ar with
  | None => raise (KeyError member)
  | Some e =>
      emit (Opened (HMember member)) ;;;
      ret (match e with Regular data => data | Directory => [] end)
  end.

(** [tar_file.extractfile(member)]: a stream on the bytes of a regular
    file, [None] for a member that is no file; [KeyError] for a name that
    is not there. *)
Definition extractfile (ar : archive) (member : string) : M (option bytes) :=
  match getmember member ar with
  | None => raise (KeyError member)
  | Some (Regular data) => emit (Opened (HMember member)) ;;; ret (Some data)
  | Some Directory => ret None
  end.

(** [os.makedirs(path, exist_ok=True)] on the names of a path. *)
Definition ensure_dir (p : list string) : M unit :=
  fun w =>
    match Tree.mkdirs (fs w) p with
    | Some root => (set_fs w root, Returned tt)
    | None => (w, Raised (OSError EEXIST))
    end.

(** One step of [extractall]: the entry goes under [path] by its name,
    the directories above it are made when they are missing. *)
Definition extract_entry (path : string) (e : string * entry) : M unit :=
  let target := Path.join path (String.concat "/" (Path.components (fst e))) in
  match snd e with
  | Directory => ensure_dir (Path.components target)
  | Regular data =>
      ensure_dir (removelast (Path.components target)) ;;;
      out <- OS.open_write target ;;
      try_finally (OS.write target data) (OS.close out)
  end.

(** [zip_file.extractall(path=...)] and [tar_file.extractall(path=...)]. *)
Definition extractall (ar : archive) (path : string) : M unit :=
  for_each ar (extract_entry path).

End Archive.

(** [shutil.copyfileobj(fsrc, fdst)]: read a buffer, write it, until a read
    returns nothing.  The source is given by the bytes still to be read and
    by whether the stream ends well; a stream that does not raises when
    its last byte has been read. *)
Definition COPY_BUFSIZE : nat := 64 * 1024.

Fixpoint copy_loop (fuel : nat) (rest : bytes) (ok : bool) (dst : string)
  : M unit :=
  match fuel with
  | 0 => ret tt
  | S fuel' =>
      match firstn COPY_BUFSIZE rest with
      | [] => if ok then ret tt else raise CorruptStream
      | buf => OS.write dst buf ;;; copy_loop fuel' (skipn COPY_BUFSIZE rest) ok dst
      end
  end.

Definition copyfileobj (fsrc : bytes * bool) (fdst : string) : M unit :=
  copy_loop (S (length (fst fsrc))) (fst fsrc) (snd fsrc) fdst.

(** [action in ("update", "download")]. *)
Definition in_tuple (x : string) (t : list string) : bool :=
  existsb (String.eqb x) t.

(** The condition of both processors:
    [action in ("update", "download") or not os.path.exists(target)];
    the file system is asked only when the action does not decide. *)
Definition must_refresh (action target : string) : M bool :=
  if in_tuple action ["update"; "download"] then ret true
  else ex <- OS.path_exists target ;; ret (negb ex).

(* ================================================================== *)
(** * The processors *)
(* ================================================================== *)

(** ** [Unzip] *)

Module Unzip.

Definition suffix : string := ".unzip".

Definition _extract_file (lib : codecs) (members : option (list string))
           (fname extract_dir : string) : M unit :=
  Archive.with_archive (zip_read lib) fname (fun zip_file =>
    match members with
    | None =>
        warn ("Unzipping contents of '" +++ fname +++ "' to '"
              +++ extract_dir +++ "'") ;;;
        Archive.extractall zip_file extract_dir
    | Some members =>
        for_each members (fun member =>
          warn ("Extracting '" +++ member +++ "' from '" +++ fname
                +++ "' to '" +++ extract_dir +++ "'") ;;;
          data_file <- Archive.zip_open zip_file member ;;
          try_finally
            (output <- OS.open_write (Path.join extract_dir member) ;;
             try_finally
               (OS.write (Path.join extract_dir member) data_file)
               (OS.close output))
            (OS.close (HMember member)))
    end).

End Unzip.

(** ** [Untar] *)

Module Untar.

Definition suffix : string := ".untar".

Definition _extract_file (lib : codecs) (members : option (list string))
           (fname extract_dir : string) : M unit :=
  Archive.with_archive (tar_read lib) fname (fun tar_file =>
    match members with
    | None =>
        warn ("Untarring contents of '" +++ fname +++ "' to '"
              +++ extract_dir +++ "'") ;;;
        Archive.extractall tar_file extract_dir
    | Some members =>
        for_each members (fun member =>
          warn ("Extracting '" +++ member +++ "' from '" +++ fname
                +++ "' to '" +++ extract_dir +++ "'") ;;;
          data_file <- Archive.extractfile tar_file member ;;
          try_finally
            (output <- OS.open_write (Path.join extract_dir member) ;;
             try_finally
               (match data_file with
                | Some data => OS.write (Path.join extract_dir member) data
                | None =>
                    raise (AttributeError
                             "'NoneType' object has no attribute 'read'")
                end)
               (OS.close output))
            (match data_file with
             | Some _ => OS.close (HMember member)
             | None =>
                 raise (AttributeError
                          "'NoneType' object has no attribute 'close'")
             end))
    end).

End Untar.

(** ** [ExtractorProcessor], the base class *)

Module ExtractorProcessor.

(** The class an object is an instance of. *)
Inductive class : Type := BaseClass | UnzipClass | UntarClass.

Record t : Type := Make { cls : class; members : option (list string) }.

Definition __init__ (c : class) (members : option (list string)) : t :=
  Make c members.

(** The class attribute [suffix]: [None] in the base class. *)
Definition suffix (self : t) : option string :=
  match cls self with
  | BaseClass => None
  | UnzipClass => Some Unzip.suffix
  | UntarClass => Some Untar.suffix
  end.

(** [_extract_file] of the base class. *)
Definition _extract_file (fname extract_dir : string) : M unit :=
  raise (NotImplementedError "").

(** [self._extract_file]: the method of the class of the object. *)
Definition self_extract_file (lib : codecs) (self : t)
           (fname extract_dir : string) : M unit :=
  match cls self with
  | BaseClass => _extract_file fname extract_dir
  | UnzipClass => Unzip._extract_file lib (members self) fname extract_dir
  | UntarClass => Untar._extract_file lib (members self) fname extract_dir
  end.

(** The list comprehension over [os.walk(extract_dir)]. *)
Definition fnames_of (walked : list (string * list string * list string))
  : list string :=
  flat_map (fun t => let '(path, _, files) := t in
                     map (fun fname => Path.join path fname) files)
           walked.

Definition __call__ (lib : codecs) (self : t) (fname action : string)
  : M (list string) :=
  match suffix self with
  | None =>
      raise (NotImplementedError
               "Derived classes must define the 'suffix' attribute.")
  | Some sfx =>
      let extract_dir := fname +++ sfx in
      refresh <- must_refresh action extract_dir ;;
      (if refresh then
         there <- OS.path_exists extract_dir ;;
         (if negb there then OS.makedirs extract_dir else ret tt) ;;;
         emit (Unpack fname extract_dir) ;;;
         self_extract_file lib self fname extract_dir
       else ret tt) ;;;
      walked <- OS.walk extract_dir ;;
      ret (fnames_of walked)
  end.

End ExtractorProcessor.

(** ** [Decompress] *)

Module Decompress.

Record t : Type := Make { method : string }.

Definition __init__ (method : string) : t := Make method.

(** Python dictionaries with string keys, in insertion order. *)
Fixpoint dict_get {V} (k : string) (d : list (string * V)) : option V :=
  match d with
  | [] => None
  | (k', v) :: d' => if (k' =? k)%string then Some v else dict_get k d'
  end.

Definition dict_in {V} (k : string) (d : list (string * V)) : bool :=
  match dict_get k d with Some _ => true | None => false end.

Definition dict_keys {V} (d : list (string * V)) : list string := map fst d.

(** [str(list_of_str)] for strings without quotes or escapes. *)
Definition str_of_list (l : list string) : string :=
  "[" +++ String.concat ", " (map (fun k => "'" +++ k +++ "'") l) +++ "]".

Definition modules : list (string * pymodule) :=
  [("lzma", lzma); ("xz", lzma); ("gzip", gzip); ("bzip2", bz2)].

Definition valid_methods : list (string * string) :=
  [(".xz", "lzma"); (".gz", "gzip"); (".bz2", "bzip2")].

Definition _compression_module (self : t) (fname : string) : outcome pymodule :=
  let method0 := method self in
  let resolved :=
    if (method0 =? "auto")%string then
      let ext := snd (Path.splitext fname) in
      if negb (dict_in ext valid_methods) then
        Raised (ValueError
                  ("Unrecognized extension '" +++ ext
                   +++ "'. Must be one of '"
                   +++ str_of_list (dict_keys valid_methods) +++ "'."))
      else
        match dict_get ext valid_methods with
        | Some m => Returned m
        | None => Raised (KeyError ext)
        end
    else Returned method0 in
  match resolved with
  | Raised e => Raised e
  | Returned method1 =>
      if negb (dict_in method1 modules) then
        Raised (ValueError
                  ("Invalid compression method '" +++ method1
                   +++ "'. Must be one of '"
                   +++ str_of_list (dict_keys modules) +++ "'."))
      else
        match dict_get method1 modules with
        | Some m => Returned m
        | None => Raised (KeyError method1)
        end
  end.

(** [module.open(fname)]: a stream on the decompressed bytes of the
    file. *)
Definition module_open (lib : codecs) (module : pymodule) (fname : string)
  : M (bytes * bool) :=
  data <- OS.read_file fname ;;
  emit (Opened (HCompressed fname)) ;;;
  ret (decode lib module data).

Definition __call__ (lib : codecs) (self : t) (fname action : string)
  : M string :=
  let decompressed := fname +++ ".decomp" in
  refresh <- must_refresh action decompressed ;;
  (if refresh then
     warn ("Decompressing '" +++ fname +++ "' to '" +++ decompressed
           +++ "' using method '" +++ method self +++ "'.") ;;;
     module <- (fun w => (w, _compression_module self fname)) ;;
     output <- OS.open_write decompressed ;;
     try_finally
       (compressed <- module_open lib module fname ;;
        try_finally
          (copyfileobj compressed decompressed)
          (OS.close (HCompressed fname)))
       (OS.close output)
   else ret tt) ;;;
  ret decompressed.

End Decompress.

(* ================================================================== *)
(** * Observations used in the statements *)
(* ================================================================== *)

(** Does the separator occur in a string? *)
Fixpoint has_sep (s : string) : bool :=
  match s with
  | EmptyString => false
  | String c s' => Ascii.eqb c Path.sep || has_sep s'
  end.

(** A name of a directory entry: not empty, not [.], without separator. *)
Definition plain (name : string) : bool :=
  Path.is_name name && negb (has_sep name).

(** The content of the regular file at [p], and whether [p] is a
    directory. *)
Definition file_at (root : node) (p : list string) : option bytes :=
  match Tree.lookup root p with
  | Some (File data) => Some data
  | _ => None
  end.

Definition dir_at (root : node) (p : list string) : bool :=
  match Tree.lookup root p with
  | Some (Dir _) => true
  | _ => false
  end.

(** [root'] has every directory and every regular file of [root]
    (contents may differ). *)
Definition grows (root root' : node) : Prop :=
  forall q,
    (dir_at root q = true -> dir_at root' q = true) /\
    (file_at root q <> None -> file_at root' q <> None).

(** [root'] differs from [root] at most in the regular files at the places
    [T]: the same directories, and the same content everywhere else. *)
Definition same_except (T : list (list string)) (root root' : node) : Prop :=
  (forall q, dir_at root' q = dir_at root q) /\
  (forall q, ~ In q T -> file_at root' q = file_at root q).

(** The events a step added to the log. *)
Definition news (w w' : world) : list event :=
  skipn (length (log w)) (log w').

(** The regular file a path string denotes. *)
Definition is_file (root : node) (path : string) : bool :=
  negb (path =? "")%string && negb (Path.wants_dir path) &&
  match file_at root (Path.components path) with Some _ => true | None => false end.

(** The names above the last segment of a path. *)
Definition stem (path : string) : list string :=
  filter Path.is_name (removelast (Path.segments path)).

Definition last_segment (path : string) : string :=
  last (Path.segments path) "".

(** A statement keeps a relation between the worlds before and after
    it. *)
Definition keeps {A} (R : world -> world -> Prop) (m : M A) : Prop :=
  forall w, R w (fst (m w)).

(** The step from [w] to [w'] added events that satisfy [P]. *)
Definition adds (P : list event -> Prop) (w w' : world) : Prop :=
  exists evs, log w' = log w ++ evs /\ P evs.

Definition any_events (evs : list event) : Prop := True.

(** The step may have changed regular files at the places [T], nothing
    else in the tree. *)
Definition touches (T : list (list string)) (w w' : world) : Prop :=
  same_except T (fs w) (fs w').

Definition fs_grows (w w' : world) : Prop := grows (fs w) (fs w').

(** The list an extractor returns for the directory [top] of a tree. *)
Definition enumerate (root : node) (top : string) : list string :=
  ExtractorProcessor.fnames_of (OS.walked root top).

(** The condition under which a processor does its work again. *)
Definition stale (root : node) (action target : string) : bool :=
  in_tuple action ["update"; "download"] || negb (OS.exists_in root target).

(** The format resolution of [Decompress] in the words of its
    specification: under [auto] the extension decides, otherwise the
    method name does. *)
Definition resolution_spec (method ext : string) : outcome pymodule :=
  if (method =? "auto")%string then
    if (ext =? ".xz")%string then Returned lzma
    else if (ext =? ".gz")%string then Returned gzip
    else if (ext =? ".bz2")%string then Returned bz2
    else Raised (ValueError
                   ("Unrecognized extension '" +++ ext
                    +++ "'. Must be one of '['.xz', '.gz', '.bz2']'."))
  else if (method =? "lzma")%string || (method =? "xz")%string then Returned lzma
  else if (method =? "gzip")%string then Returned gzip
  else if (method =? "bzip2")%string then Returned bz2
  else Raised (ValueError
                 ("Invalid compression method '" +++ method
                  +++ "'. Must be one of '['lzma', 'xz', 'gzip', 'bzip2']'.")).

(** What a service does to the tree: nothing, a regular file stored where
    no directory is, or directories made. *)
Inductive tree_step (path : string) (n n' : node) : Prop :=
| step_none : n' = n -> tree_step path n n'
| step_store (data : bytes) :
    Tree.store n (Path.components path) (File data) = Some n' ->
    dir_at n (Path.components path) = false -> tree_step path n n'.

(** The body of the loop over the members, in [Unzip._extract_file] and in
    [Untar._extract_file]. *)
Definition unzip_member (zip_file : archive) (fname extract_dir member : string)
  : M unit :=
  warn ("Extracting '" +++ member +++ "' from '" +++ fname
        +++ "' to '" +++ extract_dir +++ "'") ;;;
  data_file <- Archive.zip_open zip_file member ;;
  try_finally
    (output <- OS.open_write (Path.join extract_dir member) ;;
     try_finally
       (OS.write (Path.join extract_dir member) data_file)
       (OS.close output))
    (OS.close (HMember member)).

Definition untar_member (tar_file : archive) (fname extract_dir member : string)
  : M unit :=
  warn ("Extracting '" +++ member +++ "' from '" +++ fname
        +++ "' to '" +++ extract_dir +++ "'") ;;;
  data_file <- Archive.extractfile tar_file member ;;
  try_finally
    (output <- OS.open_write (Path.join extract_dir member) ;;
     try_finally
       (match data_file with
        | Some data => OS.write (Path.join extract_dir member) data
        | None =>
            raise (AttributeError
                     "'NoneType' object has no attribute 'read'")
        end)
       (OS.close output))
    (match data_file with
     | Some _ => OS.close (HMember member)
     | None =>
         raise (AttributeError
                  "'NoneType' object has no attribute 'close'")
     end).

(** The archive reader and the loop body of a class. *)
Definition reader (lib : codecs) (c : ExtractorProcessor.class)
  : bytes -> option archive :=
  match c with
  | ExtractorProcessor.BaseClass => fun _ => None
  | ExtractorProcessor.UnzipClass => zip_read lib
  | ExtractorProcessor.UntarClass => tar_read lib
  end.

Definition member_step (c : ExtractorProcessor.class) (ar : archive)
           (fname extract_dir : string) : string -> M unit :=
  match c with
  | ExtractorProcessor.BaseClass => fun _ => raise (NotImplementedError "")
  | ExtractorProcessor.UnzipClass => unzip_member ar fname extract_dir
  | ExtractorProcessor.UntarClass => untar_member ar fname extract_dir
  end.

(** The bytes of the stream a class opens on an entry of the archive:
    [zip_file.open] gives an empty stream on a directory entry,
    [tar_file.extractfile] gives no stream. *)
Definition member_stream (c : ExtractorProcessor.class) (e : entry)
  : option bytes :=
  match e, c with
  | Regular data, _ => Some data
  | Directory, ExtractorProcessor.UnzipClass => Some []
  | Directory, _ => None
  end.

(** Where the bytes of a member go: the place of
    [os.path.join(extract_dir, member)]. *)
Definition target (extract_dir member : string) : list string :=
  Path.components (Path.join extract_dir member).

(** The names of the entries of a directory. *)
Definition names (es : list (string * node)) : list string := map fst es.

Definition has_name (k : string) (es : list (string * node)) : bool :=
  existsb (String.eqb k) (names es).

(** A tree as a file system keeps it: every entry has a plain name, and no
    two entries of a directory have the same name. *)
Fixpoint well_formed (n : node) : bool :=
  match n with
  | File _ => true
  | Dir es =>
      (fix all (l : list (string * node)) : bool :=
         match l with
         | [] => true
         | (k, ch) :: l' =>
             plain k && negb (has_name k l') && well_formed ch && all l'
         end) es
  end.

(** A step that keeps the tree well formed. *)
Definition keeps_form (w w' : world) : Prop :=
  well_formed (fs w) = true -> well_formed (fs w') = true.

(* ================================================================== *)
(** * Sample data *)
(* ================================================================== *)

(** A store with a zip archive, a tar archive and a gzip file, and toy
    readers for them: the archive files hold [a.txt], [b.txt] and
    [sub/c.txt]; the compressed stream is the file content after a
    one-byte header. *)
Definition sample_archive : archive :=
  [("a.txt", Regular ["a"%byte; "1"%byte]);
   ("b.txt", Regular ["b"%byte; "2"%byte]);
   ("sub/c.txt", Regular ["c"%byte; "3"%byte])].

Definition sample_lib : codecs :=
  Codecs
    (fun data => match data with ["Z"%byte] => Some sample_archive | _ => None end)
    (fun data => match data with ["T"%byte] => Some sample_archive | _ => None end)
    (fun _ data => match data with
                   | "G"%byte :: plain => (plain, true)
                   | _ => ([], false)
                   end).

Definition sample_root : node :=
  Dir [("store",
        Dir [("data.zip", File ["Z"%byte]);
             ("data.tar", File ["T"%byte]);
             ("values.csv.gz", File ["G"%byte; "4"%byte; "2"%byte])])].

Definition sample_world : world := World sample_root [] [].

(** The store after an earlier decompression of [values.csv.gz] left an
    output file with other content. *)
Definition decompressed_root : node :=
  Dir [("store",
        Dir [("data.zip", File ["Z"%byte]);
             ("data.tar", File ["T"%byte]);
             ("values.csv.gz", File ["G"%byte; "4"%byte; "2"%byte]);
             ("values.csv.gz.decomp", File ["o"%byte; "l"%byte; "d"%byte])])].

Definition decompressed_world : world := World decompressed_root [] [].

(** The warning of [Decompress]. *)
Definition decompress_warning (self : Decompress.t) (fname : string) : event :=
  Warn ("Decompressing '" +++ fname +++ "' to '" +++ (fname +++ ".decomp")
        +++ "' using method '" +++ Decompress.method self +++ "'.").

(** The discipline of the member streams, checked on a list of events
    with the member whose stream is open, if any: a stream is opened
    only when none is open, the stream that is closed is the open one, a
    warning (the start of the work on a member) comes only when no stream
    is open, and at the end no stream is open. *)
Fixpoint discipline (held : option string) (evs : list event) : bool :=
  match evs with
  | [] => match held with None => true | Some _ => false end
  | Opened (HMember m) :: evs' =>
      match held with
      | None => discipline (Some m) evs'
      | Some _ => false
      end
  | Closed (HMember m) :: evs' =>
      match held with
      | Some m' => (m' =? m)%string && discipline None evs'
      | None => false
      end
  | Warn _ :: evs' =>
      match held with
      | None => discipline None evs'
      | Some _ => false
      end
  | _ :: evs' => discipline held evs'
  end.

(** Events that leave the discipline where it is, whatever is open. *)
Definition neutral (evs : list event) : Prop :=
  forall held rest, discipline held (evs ++ rest) = discipline held rest.

(** Events that start and end with no member stream open. *)
Definition balanced (evs : list event) : Prop :=
  forall rest, discipline None (evs ++ rest) = discipline None rest.

(** A disk that is full at the first write. *)
Definition full_disk_world : world := World sample_root [] [true].

(** The store after [Unzip] without member restriction has extracted
    [data.zip] on a download. *)
Definition unzipped_world : world :=
  fst (ExtractorProcessor.__call__ sample_lib
         (ExtractorProcessor.__init__ ExtractorProcessor.UnzipClass None)
         "store/data.zip" "download" sample_world).


(* ================================================================== *)
(** * Handles, warnings and further sample data *)
(* ================================================================== *)

Definition handle_eqb (a b : handle) : bool :=
  match a, b with
  | HArchive x, HArchive y => (x =? y)%string
  | HMember x, HMember y => (x =? y)%string
  | HOutput x, HOutput y => (x =? y)%string
  | HCompressed x, HCompressed y => (x =? y)%string
  | _, _ => false
  end.

(** The handles that are open after a list of events, the last opened
    first, when every handle that is closed is the last one opened; no
    answer when one is closed out of turn. *)
Fixpoint nesting (held : list handle) (evs : list event) : option (list handle) :=
  match evs with
  | [] => Some held
  | Opened h :: evs' => nesting (h :: held) evs'
  | Closed h :: evs' =>
      match held with
      | h' :: rest => if handle_eqb h' h then nesting rest evs' else None
      | [] => None
      end
  | _ :: evs' => nesting held evs'
  end.

(** Events that close every handle they open, in the reverse order. *)
Definition scoped (evs : list event) : Prop :=
  forall held rest, nesting held (evs ++ rest) = nesting held rest.

(** Decoders that give up after the first byte of every file. *)
Definition cut_lib : codecs :=
  Codecs (fun _ => None) (fun _ => None) (fun _ data => (firstn 1 data, false)).

(** A tar archive with a folder and a file in it, whatever the bytes of
    the archive file. *)
Definition folder_archive : archive :=
  [("docs", Directory); ("notes.txt", Regular ["n"%byte])].

Definition folder_lib : codecs :=
  Codecs (fun _ => None) (fun _ => Some folder_archive)
         (fun _ data => (data, true)).

(** The messages of the warnings among events, in their order. *)
Fixpoint warnings (evs : list event) : list string :=
  match evs with
  | [] => []
  | Warn msg :: evs' => msg :: warnings evs'
  | _ :: evs' => warnings evs'
  end.

Definition warned (L : list string) (evs : list event) : Prop :=
  warnings evs = L.

(** The warnings an extractor has to give when it unpacks: one for the
    whole archive, or one for each member. *)
Definition extracting (fname extract_dir member : string) : string :=
  "Extracting '" +++ member +++ "' from '" +++ fname
  +++ "' to '" +++ extract_dir +++ "'".

Definition announcement (self : ExtractorProcessor.t)
           (fname extract_dir : string) : list string :=
  match ExtractorProcessor.members self with
  | Some members => map (extracting fname extract_dir) members
  | None =>
      match ExtractorProcessor.cls self with
      | ExtractorProcessor.BaseClass => []
      | ExtractorProcessor.UnzipClass =>
          ["Unzipping contents of '" +++ fname +++ "' to '"
           +++ extract_dir +++ "'"]
      | ExtractorProcessor.UntarClass =>
          ["Untarring contents of '" +++ fname +++ "' to '"
           +++ extract_dir +++ "'"]
      end
  end.

(** A statement gives the warnings [L] in their order and nothing else:
    all of them when it returns, the first ones when it raises. *)
Definition announces {A} (L : list string) (m : M A) : Prop :=
  forall w,
    exists k,
      adds (warned (firstn k L)) w (fst (m w)) /\
      (forall v, snd (m w) = Returned v -> firstn k L = L).

(** The store with the output directory of [data.zip] made and empty. *)
Definition prepared_world : world :=
  fst (OS.makedirs "store/data.zip.unzip" sample_world).

(** A store where a regular file has the name of the output directory
    of [data.zip]. *)
Definition shadowed_world : world :=
  World (Dir [("store",
               Dir [("data.zip", File ["Z"%byte]);
                    ("data.zip.unzip", File ["x"%byte])])])
        [] [].

(* ================================================================== *)
(** * Paths: splitting and joining *)
(* ================================================================== *)

Lemma append_assoc (a b c : string) : (a +++ b) +++ c = a +++ b +++ c.
Proof. induction a as [|x a IH]; simpl; [reflexivity | now rewrite IH]. Qed.

Lemma split_sep_no_sep (s : string) :
  has_sep s = false -> Path.split_sep s = (s, []).
Proof.
  induction s as [|c s IH]; simpl; intros H; [reflexivity|].
  apply orb_false_iff in H as [Hc Hs].
  rewrite (IH Hs). unfold Path.sep in *. now rewrite Hc.
Qed.

Lemma segments_no_sep (s : string) :
  has_sep s = false -> Path.segments s = [s].
Proof. intros H. unfold Path.segments. now rewrite split_sep_no_sep. Qed.

Lemma segments_cons (c : ascii) (s : string) :
  Path.segments (String c s) =
  if Ascii.eqb c Path.sep then "" :: Path.segments s
  else match Path.segments s with
       | h :: t => String c h :: t
       | [] => [String c ""]
       end.
Proof.
  unfold Path.segments. simpl.
  destruct (Path.split_sep s) as [h t].
  now destruct (Ascii.eqb c Path.sep).
Qed.

Lemma segments_not_nil (s : string) : Path.segments s <> [].
Proof. unfold Path.segments. now destruct (Path.split_sep s). Qed.

(** Appending text without separator extends the last segment. *)
Lemma segments_append_no_sep (a b : string) :
  has_sep b = false ->
  Path.segments (a +++ b) =
  removelast (Path.segments a) ++ [last (Path.segments a) "" +++ b].
Proof.
  intros Hb. induction a as [|c a IH].
  - simpl. now rewrite segments_no_sep.
  - change (String c a +++ b) with (String c (a +++ b)).
    rewrite !segments_cons, IH.
    destruct (Ascii.eqb c Path.sep).
    + pose proof (segments_not_nil a) as Hn.
      destruct (Path.segments a) as [|h t]; [contradiction|]. reflexivity.
    + pose proof (segments_not_nil a) as Hn.
      destruct (Path.segments a) as [|h t]; [contradiction|].
      destruct t as [|h' t']; reflexivity.
Qed.

(** A separator between two texts separates their segments. *)
Lemma segments_append_sep (a b : string) :
  Path.segments (a +++ String Path.sep b) = Path.segments a ++ Path.segments b.
Proof.
  induction a as [|c a IH].
  - simpl. now rewrite segments_cons.
  - change (String c a +++ String Path.sep b)
      with (String c (a +++ String Path.sep b)).
    rewrite !segments_cons, IH.
    destruct (Ascii.eqb c Path.sep); [reflexivity|].
    pose proof (segments_not_nil a) as Hn.
    destruct (Path.segments a) as [|h t]; [contradiction|]. reflexivity.
Qed.

Lemma endswith_sep_inv (a : string) :
  Path.endswith_sep a = true -> exists a', a = a' +++ String Path.sep "".
Proof.
  induction a as [|c a IH]; simpl; [discriminate|].
  destruct a as [|c' a'].
  - intros H. apply Ascii.eqb_eq in H. subst c. now exists "".
  - intros H. destruct (IH H) as [x Hx]. exists (String c x).
    simpl. now rewrite <- Hx.
Qed.

Lemma components_append_sep (a b : string) :
  Path.components (a +++ String Path.sep b) =
  Path.components a ++ Path.components b.
Proof.
  unfold Path.components. now rewrite segments_append_sep, filter_app.
Qed.

Lemma last_app_not_nil {A} (l l' : list A) (d : A) :
  l' <> [] -> last (l ++ l') d = last l' d.
Proof.
  intros H. induction l as [|x l IH]; [reflexivity|].
  simpl. rewrite IH. destruct (l ++ l') eqn:E; [|reflexivity].
  apply app_eq_nil in E as [_ E]. contradiction.
Qed.

(** The segments of a joined path, for a relative second part: those of
    the first part with the empty segments a separator adds, then those
    of the second. *)
Lemma join_relative (a b : string) :
  Path.startswith_sep b = false ->
  Path.components (Path.join a b) = Path.components a ++ Path.components b /\
  Path.wants_dir (Path.join a b) = Path.wants_dir b.
Proof.
  intros Hb. unfold Path.join. rewrite Hb.
  destruct (a =? "")%string eqn:Ea.
  - apply String.eqb_eq in Ea. subst a. simpl. now split.
  - simpl. destruct (Path.endswith_sep a) eqn:Ee.
    + destruct (endswith_sep_inv a Ee) as [a' ->].
      rewrite append_assoc. simpl.
      rewrite !components_append_sep.
      unfold Path.wants_dir. rewrite segments_append_sep.
      rewrite last_app_not_nil by apply segments_not_nil.
      split; [|reflexivity].
      change (Path.components "") with (@nil string).
      now rewrite app_nil_r.
    + rewrite components_append_sep.
      unfold Path.wants_dir. rewrite segments_append_sep.
      rewrite last_app_not_nil by apply segments_not_nil.
      now split.
Qed.

Lemma plain_inv (m : string) :
  plain m = true ->
  Path.is_name m = true /\ has_sep m = false /\ Path.startswith_sep m = false.
Proof.
  unfold plain. intros H. apply andb_true_iff in H as [Hn Hs].
  apply negb_true_iff in Hs. repeat split; try assumption.
  destruct m as [|c m]; [reflexivity|]. simpl in *.
  now apply orb_false_iff in Hs as [Hc _].
Qed.

Lemma components_plain (m : string) :
  plain m = true -> Path.components m = [m] /\ Path.wants_dir m = false.
Proof.
  intros H. destruct (plain_inv m H) as (Hn & Hs & _).
  unfold Path.components, Path.wants_dir. rewrite segments_no_sep by assumption.
  simpl. now rewrite Hn.
Qed.

(** The path of a plain name in a directory. *)
Lemma join_plain (d m : string) :
  plain m = true ->
  Path.components (Path.join d m) = Path.components d ++ [m] /\
  Path.wants_dir (Path.join d m) = false /\
  (Path.join d m =? "")%string = false.
Proof.
  intros H. destruct (plain_inv m H) as (Hn & Hs & Hst).
  destruct (components_plain m H) as [Hc Hw].
  destruct (join_relative d m Hst) as [Hj Hjw].
  rewrite Hj, Hjw, Hc, Hw. repeat split.
  unfold Path.join. rewrite Hst.
  destruct m as [|c m]; [discriminate|].
  destruct ((d =? "")%string || Path.endswith_sep d);
    destruct d; reflexivity.
Qed.

Lemma components_stem (path : string) :
  Path.components path =
  stem path ++ (if Path.is_name (last_segment path) then [last_segment path] else []).
Proof.
  unfold Path.components, stem, last_segment.
  rewrite (app_removelast_last "" (segments_not_nil path)) at 1.
  rewrite filter_app. reflexivity.
Qed.

Lemma string_length_append (a b : string) :
  String.length (a +++ b) = String.length a + String.length b.
Proof. induction a as [|c a IH]; simpl; [reflexivity | now rewrite IH]. Qed.

Lemma is_name_long (s : string) : 2 <= String.length s -> Path.is_name s = true.
Proof.
  destruct s as [|c [|c' s]]; simpl; intros H; try lia.
  unfold Path.is_name. simpl. now destruct (Ascii.eqb c ".").
Qed.

(** A suffix of two characters or more, without separator, is appended to
    the last segment and makes it a name. *)
Lemma components_append_suffix (path sfx : string) :
  has_sep sfx = false -> 2 <= String.length sfx ->
  Path.components (path +++ sfx) = stem path ++ [last_segment path +++ sfx] /\
  Path.wants_dir (path +++ sfx) = false /\
  (path +++ sfx =? "")%string = false.
Proof.
  intros Hs Hl.
  assert (Hn : Path.is_name (last_segment path +++ sfx) = true).
  { apply is_name_long. rewrite string_length_append. lia. }
  unfold Path.components, Path.wants_dir.
  rewrite segments_append_no_sep by assumption.
  rewrite filter_app, last_last. fold (last_segment path). simpl.
  rewrite Hn. repeat split.
  apply String.eqb_neq. intros E.
  apply (f_equal String.length) in E. rewrite string_length_append in E.
  simpl in E. lia.
Qed.

(* ================================================================== *)
(** * The directory tree *)
(* ================================================================== *)

Lemma get_put_same (k : string) (n : node) es :
  Tree.get k (Tree.put k n es) = Some n.
Proof.
  induction es as [|[k' m] es IH]; simpl.
  - now rewrite String.eqb_refl.
  - destruct (k' =? k)%string eqn:E; simpl; rewrite E; [reflexivity | exact IH].
Qed.

Lemma get_put_other (k k' : string) (n : node) es :
  k <> k' -> Tree.get k' (Tree.put k n es) = Tree.get k' es.
Proof.
  intros Hk. induction es as [|[k0 m] es IH]; simpl.
  - apply String.eqb_neq in Hk. now rewrite Hk.
  - destruct (k0 =? k)%string eqn:E; simpl.
    + apply String.eqb_eq in E. subst k0.
      apply String.eqb_neq in Hk. now rewrite Hk.
    + now rewrite IH.
Qed.

Lemma lookup_put (c c' : string) (x : node) es (q : list string) :
  Tree.lookup (Dir (Tree.put c x es)) (c' :: q) =
  if (c =? c')%string then Tree.lookup x q else Tree.lookup (Dir es) (c' :: q).
Proof.
  simpl. destruct (c =? c')%string eqn:E.
  - apply String.eqb_eq in E. subst c'. now rewrite get_put_same.
  - apply String.eqb_neq in E. now rewrite get_put_other.
Qed.

Lemma lookup_app (n : node) (p q : list string) :
  Tree.lookup n (p ++ q) =
  match Tree.lookup n p with
  | Some m => Tree.lookup m q
  | None => None
  end.
Proof.
  revert n. induction p as [|c p IH]; intros n; simpl; [reflexivity|].
  destruct n as [d|es]; [reflexivity|].
  destruct (Tree.get c es); [apply IH | reflexivity].
Qed.

(** What was stored is found. *)
Lemma store_lookup (n n' x : node) (p : list string) :
  Tree.store n p x = Some n' -> Tree.lookup n' p = Some x.
Proof.
  revert n n'. induction p as [|c p IH]; intros n n' H; simpl in H.
  - now inversion H.
  - destruct n as [d|es]; [discriminate|].
    destruct p as [|c' p'].
    + inversion H; subst. rewrite lookup_put, String.eqb_refl. reflexivity.
    + destruct (Tree.get c es) as [ch|] eqn:G; [|discriminate].
      destruct (Tree.store ch (c' :: p') x) as [ch'|] eqn:S; [|discriminate].
      inversion H; subst. rewrite lookup_put, String.eqb_refl.
      now apply (IH ch).
Qed.

(** A store needs the directory above, and that is all it needs. *)
Lemma store_snoc (n x : node) (p : list string) (c : string) :
  dir_at n p = true -> exists n', Tree.store n (p ++ [c]) x = Some n'.
Proof.
  revert n. induction p as [|c0 p IH]; intros n H; unfold dir_at in H; simpl in *.
  - destruct n as [d|es]; [discriminate|]. eauto.
  - destruct n as [d|es]; [discriminate|].
    destruct (Tree.get c0 es) as [ch|] eqn:G; [|discriminate].
    destruct (IH ch H) as [ch' Hch']. rewrite Hch'.
    destruct (p ++ [c]) eqn:E; [now destruct p|]. eauto.
Qed.

(** Storing a regular file where no directory is: the directories stay
    what they are and every other regular file keeps its content. *)
Lemma store_file_frame (n n' : node) (p : list string) (data : bytes) :
  Tree.store n p (File data) = Some n' ->
  dir_at n p = false ->
  forall q, dir_at n' q = dir_at n q /\ (q <> p -> file_at n' q = file_at n q).
Proof.
  unfold dir_at, file_at.
  revert n n'. induction p as [|c p IH]; intros n n' H Hd q; simpl in H.
  - inversion H; subst n'. simpl in Hd.
    destruct n as [d|es]; [|discriminate].
    destruct q as [|c' q']; simpl; split; try reflexivity.
    intros Hq. contradiction.
  - destruct n as [d|es]; [discriminate|].
    destruct p as [|c1 p1].
    + inversion H; subst n'. clear H.
      destruct q as [|c' q']; [split; reflexivity|].
      rewrite lookup_put. destruct (c =? c')%string eqn:E.
      * apply String.eqb_eq in E. subst c'. simpl in *.
        destruct (Tree.get c es) as [[d|es']|] eqn:G; try discriminate.
        -- destruct q'; simpl; split; try reflexivity.
           intros Hq. now contradiction Hq.
        -- destruct q'; simpl; split; try reflexivity.
           intros Hq. now contradiction Hq.
      * split; reflexivity.
    + destruct (Tree.get c es) as [ch|] eqn:G; [|discriminate].
      destruct (Tree.store ch (c1 :: p1) (File data)) as [ch'|] eqn:S; [|discriminate].
      inversion H; subst n'. clear H.
      destruct q as [|c' q']; [split; reflexivity|].
      rewrite lookup_put. destruct (c =? c')%string eqn:E.
      * apply String.eqb_eq in E. subst c'.
        simpl in Hd. rewrite G in Hd.
        destruct (IH ch ch' S Hd q') as [H1 H2].
        simpl. rewrite G. split; [exact H1|].
        intros Hq. apply H2. intros ->. now apply Hq.
      * split; reflexivity.
Qed.

(** Making directories touches no regular file and keeps the
    directories. *)
Lemma mkdirs_frame (n n' : node) (p : list string) :
  Tree.mkdirs n p = Some n' ->
  forall q, file_at n' q = file_at n q /\ (dir_at n q = true -> dir_at n' q = true).
Proof.
  unfold dir_at, file_at.
  revert n n'. induction p as [|c p IH]; intros n n' H q.
  - destruct n; simpl in H; inversion H; subst; split; auto.
  - destruct n as [d|es]; [discriminate|]. simpl in H.
    destruct (Tree.mkdirs
                (match Tree.get c es with Some ch => ch | None => Dir [] end) p)
      as [ch'|] eqn:S; [|discriminate].
    inversion H; subst n'. clear H.
    destruct q as [|c' q']; [split; auto|].
    rewrite lookup_put. destruct (c =? c')%string eqn:E.
    + apply String.eqb_eq in E. subst c'.
      destruct (IH _ _ S q') as [H1 H2]. simpl.
      destruct (Tree.get c es) as [ch|] eqn:G.
      * split; assumption.
      * split; [|discriminate].
        rewrite H1. now destruct q'.
    + split; auto.
Qed.

Lemma mkdirs_dir (n n' : node) (p : list string) :
  Tree.mkdirs n p = Some n' -> dir_at n' p = true.
Proof.
  unfold dir_at.
  revert n n'. induction p as [|c p IH]; intros n n' H.
  - destruct n; simpl in H; inversion H; subst; reflexivity.
  - destruct n as [d|es]; [discriminate|]. simpl in H.
    destruct (Tree.mkdirs
                (match Tree.get c es with Some ch => ch | None => Dir [] end) p)
      as [ch'|] eqn:S; [|discriminate].
    inversion H; subst n'. rewrite lookup_put, String.eqb_refl.
    now apply (IH _ _ S).
Qed.


(** In an existing directory a missing name can be made a directory. *)
Lemma mkdirs_snoc (n : node) (p : list string) (c : string) :
  dir_at n p = true -> Tree.lookup n (p ++ [c]) = None ->
  exists n', Tree.mkdirs n (p ++ [c]) = Some n'.
Proof.
  unfold dir_at.
  revert n. induction p as [|c0 p IH]; intros n H L; simpl in *.
  - destruct n as [d|es]; [discriminate|].
    destruct (Tree.get c es) as [ch|] eqn:G; [discriminate|]. simpl. eauto.
  - destruct n as [d|es]; [discriminate|].
    destruct (Tree.get c0 es) as [ch|] eqn:G; [|discriminate].
    destruct (IH ch H L) as [ch' Hch']. rewrite Hch'. eauto.
Qed.

(* ================================================================== *)
(** * Statements that keep a relation *)
(* ================================================================== *)

Section Keeps.

Variable R : world -> world -> Prop.
Hypothesis R_refl : forall w, R w w.
Hypothesis R_trans : forall a b c, R a b -> R b c -> R a c.

Lemma keeps_ret {A} (v : A) : keeps R (ret v).
Proof. intros w. apply R_refl. Qed.

Lemma keeps_raise {A} (e : exn) : keeps R (@raise A e).
Proof. intros w. apply R_refl. Qed.

Lemma keeps_bind {A B} (m : M A) (f : A -> M B) :
  keeps R m -> (forall v, keeps R (f v)) -> keeps R (bind m f).
Proof.
  intros Hm Hf w. unfold bind. specialize (Hm w).
  destruct (m w) as [w1 [v|e]]; simpl in *; [|exact Hm].
  eapply R_trans; [exact Hm | apply Hf].
Qed.

Lemma keeps_try_finally {A} (body : M A) (cleanup : M unit) :
  keeps R body -> keeps R cleanup -> keeps R (try_finally body cleanup).
Proof.
  intros Hb Hc w. unfold try_finally. specialize (Hb w).
  destruct (body w) as [w1 r]. specialize (Hc w1).
  destruct (cleanup w1) as [w2 [u|e]]; simpl in *;
    eapply R_trans; eassumption.
Qed.

Lemma keeps_for_each {A} (xs : list A) (body : A -> M unit) :
  (forall x, In x xs -> keeps R (body x)) -> keeps R (for_each xs body).
Proof.
  induction xs as [|x xs IH]; intros H; simpl.
  - apply keeps_ret.
  - apply keeps_bind; [apply H; now left|].
    intros _. apply IH. intros y Hy. apply H. now right.
Qed.

End Keeps.

(** ** The relations *)

Lemma grows_refl (n : node) : grows n n.
Proof. intros q. split; auto. Qed.

Lemma grows_trans (a b c : node) : grows a b -> grows b c -> grows a c.
Proof.
  intros H1 H2 q. destruct (H1 q) as [A1 B1]. destruct (H2 q) as [A2 B2].
  split; auto.
Qed.

Lemma fs_grows_refl (w : world) : fs_grows w w.
Proof. apply grows_refl. Qed.

Lemma fs_grows_trans (a b c : world) : fs_grows a b -> fs_grows b c -> fs_grows a c.
Proof. apply grows_trans. Qed.

Lemma touches_refl T (w : world) : touches T w w.
Proof. split; intros; reflexivity. Qed.

Lemma touches_trans T (a b c : world) : touches T a b -> touches T b c -> touches T a c.
Proof.
  intros [D1 F1] [D2 F2]. split.
  - intros q. now rewrite D2, D1.
  - intros q Hq. now rewrite F2, F1.
Qed.

Section Adds.

Variable P : list event -> Prop.
Hypothesis P_nil : P [].
Hypothesis P_app : forall a b, P a -> P b -> P (a ++ b).

Lemma adds_refl (w : world) : adds P w w.
Proof. exists []. now rewrite app_nil_r. Qed.

Lemma adds_trans (a b c : world) : adds P a b -> adds P b c -> adds P a c.
Proof.
  intros (e1 & L1 & P1) (e2 & L2 & P2). exists (e1 ++ e2).
  rewrite L2, L1, app_assoc. auto.
Qed.

End Adds.

Lemma adds_news P (w w' : world) :
  adds P w w' -> log w' = log w ++ news w w' /\ P (news w w').
Proof.
  intros (evs & L & H). unfold news. rewrite L.
  rewrite skipn_app, skipn_all, Nat.sub_diag. simpl. auto.
Qed.

Lemma news_same (w : world) : news w w = [].
Proof. unfold news. apply skipn_all. Qed.

(** ** The services, one by one *)

Lemma store_file_same_except (n n' : node) (p : list string) (data : bytes) T :
  Tree.store n p (File data) = Some n' -> dir_at n p = false -> In p T ->
  same_except T n n'.
Proof.
  intros S D HT. split; intros q.
  - apply (store_file_frame n n' p data S D q).
  - intros Hq. apply (store_file_frame n n' p data S D q). intros ->. contradiction.
Qed.

Lemma store_file_grows (n n' : node) (p : list string) (data : bytes) :
  Tree.store n p (File data) = Some n' -> dir_at n p = false -> grows n n'.
Proof.
  intros S D q. destruct (store_file_frame n n' p data S D q) as [H1 H2]. split.
  - intros H. now rewrite H1.
  - intros H. destruct (list_eq_dec string_dec q p) as [->|Hne].
    + unfold file_at. now rewrite (store_lookup _ _ _ _ S).
    + now rewrite H2.
Qed.

Lemma mkdirs_grows (n n' : node) (p : list string) :
  Tree.mkdirs n p = Some n' -> grows n n'.
Proof.
  intros H q. destruct (mkdirs_frame n n' p H q) as [H1 H2]. split; [exact H2|].
  now rewrite H1.
Qed.

Lemma open_write_step (path : string) (w : world) :
  tree_step path (fs w) (fs (fst (OS.open_write path w))).
Proof.
  unfold OS.open_write.
  destruct (path =? "")%string; [now left|].
  destruct (Path.wants_dir path); [now left|].
  destruct (Tree.lookup (fs w) (Path.components path)) as [[d|es]|] eqn:L;
    try (now left).
  - destruct (Tree.store (fs w) (Path.components path) (File [])) eqn:S.
    + right with (data := []); [exact S|]. unfold dir_at. now rewrite L.
    + destruct (Tree.blocked (fs w) (Path.components path)); now left.
  - destruct (Tree.store (fs w) (Path.components path) (File [])) eqn:S.
    + right with (data := []); [exact S|]. unfold dir_at. now rewrite L.
    + destruct (Tree.blocked (fs w) (Path.components path)); now left.
Qed.

Lemma write_step (path : string) (data : bytes) (w : world) :
  tree_step path (fs w) (fs (fst (OS.write path data w))).
Proof.
  unfold OS.write.
  assert (H : forall rest,
             tree_step path (fs w)
               (fs (fst (match Tree.lookup (fs w) (Path.components path) with
                         | Some (File old) =>
                             match Tree.store (fs w) (Path.components path)
                                     (File (old ++ data)) with
                             | Some root => (World root (log w) rest, Returned tt)
                             | None => (World (fs w) (log w) rest,
                                        Raised (OSError ENOENT))
                             end
                         | _ => (World (fs w) (log w) rest, Raised (OSError ENOENT))
                         end)))).
  { intros rest.
    destruct (Tree.lookup (fs w) (Path.components path)) as [[old|es]|] eqn:L;
      try (now left).
    destruct (Tree.store (fs w) (Path.components path) (File (old ++ data))) eqn:S;
      [|now left].
    right with (data := old ++ data); [exact S|]. unfold dir_at. now rewrite L. }
  destruct (faults w) as [|[|] rest]; [apply H | now left | apply H].
Qed.

Lemma tree_step_grows path (n n' : node) : tree_step path n n' -> grows n n'.
Proof.
  intros [->|data S D]; [apply grows_refl | eapply store_file_grows; eassumption].
Qed.

Lemma tree_step_same_except path T (n n' : node) :
  In (Path.components path) T -> tree_step path n n' -> same_except T n n'.
Proof.
  intros HT [->|data S D].
  - split; intros; reflexivity.
  - eapply store_file_same_except; eassumption.
Qed.

(** Statements that leave the tree alone keep every reflexive relation on
    trees. *)
Lemma keeps_fs_grows_silent {A} (m : M A) :
  (forall w, fs (fst (m w)) = fs w) -> keeps fs_grows m.
Proof. intros H w. unfold fs_grows. rewrite H. apply grows_refl. Qed.

Lemma keeps_touches_silent {A} T (m : M A) :
  (forall w, fs (fst (m w)) = fs w) -> keeps (touches T) m.
Proof. intros H w. unfold touches. rewrite H. split; intros; reflexivity. Qed.

Lemma read_file_same (path : string) (w : world) : fst (OS.read_file path w) = w.
Proof.
  unfold OS.read_file.
  destruct (path =? "")%string; [reflexivity|].
  destruct (Tree.lookup (fs w) (Path.components path)) as [[d|es]|];
    try reflexivity.
  - now destruct (Path.wants_dir path).
  - now destruct (Tree.blocked (fs w) (Path.components path)).
Qed.

Lemma keeps_grows_open_write path : keeps fs_grows (OS.open_write path).
Proof. intros w. eapply tree_step_grows, open_write_step. Qed.

Lemma keeps_grows_write path data : keeps fs_grows (OS.write path data).
Proof. intros w. eapply tree_step_grows, write_step. Qed.

Lemma keeps_touches_open_write T path :
  In (Path.components path) T -> keeps (touches T) (OS.open_write path).
Proof. intros H w. eapply tree_step_same_except, open_write_step. exact H. Qed.

Lemma keeps_touches_write T path data :
  In (Path.components path) T -> keeps (touches T) (OS.write path data).
Proof. intros H w. eapply tree_step_same_except, write_step. exact H. Qed.

Lemma keeps_grows_ensure_dir p : keeps fs_grows (Archive.ensure_dir p).
Proof.
  intros w. unfold Archive.ensure_dir, fs_grows.
  destruct (Tree.mkdirs (fs w) p) eqn:E; simpl;
    [eapply mkdirs_grows; eassumption | apply grows_refl].
Qed.

(** The log only grows.  [P] is any property of the added events that the
    empty list has and that concatenation keeps. *)
Section AddsServices.

Variable P : list event -> Prop.
Hypothesis P_nil : P [].

Lemma keeps_adds_silent {A} (m : M A) :
  (forall w, log (fst (m w)) = log w) -> keeps (adds P) m.
Proof. intros H w. exists []. rewrite H, app_nil_r. auto. Qed.

Lemma keeps_adds_emit (e : event) : P [e] -> keeps (adds P) (emit e).
Proof. intros H w. exists [e]. auto. Qed.

Lemma keeps_adds_open_write path :
  P [Opened (HOutput path)] -> keeps (adds P) (OS.open_write path).
Proof.
  intros H w. unfold OS.open_write.
  destruct (path =? "")%string; [now apply adds_refl|].
  destruct (Path.wants_dir path); [now apply adds_refl|].
  assert (G : adds P w
                (fst (match Tree.store (fs w) (Path.components path) (File []) with
                      | Some root =>
                          (World root (log w ++ [Opened (HOutput path)]) (faults w),
                           Returned (HOutput path))
                      | None =>
                          if Tree.blocked (fs w) (Path.components path)
                          then (w, Raised (OSError ENOTDIR))
                          else (w, Raised (OSError ENOENT))
                      end))).
  { destruct (Tree.store (fs w) (Path.components path) (File [])).
    - exists [Opened (HOutput path)]. auto.
    - destruct (Tree.blocked (fs w) (Path.components path)); now apply adds_refl. }
  destruct (Tree.lookup (fs w) (Path.components path)) as [[d|es]|];
    [exact G | now apply adds_refl | exact G].
Qed.

Lemma write_log path data (w : world) : log (fst (OS.write path data w)) = log w.
Proof.
  unfold OS.write.
  destruct (faults w) as [|[|] rest]; simpl;
    destruct (Tree.lookup (fs w) (Path.components path)) as [[old|es]|];
    try reflexivity;
    destruct (Tree.store (fs w) (Path.components path) (File (old ++ data)));
    reflexivity.
Qed.

Lemma keeps_adds_write path data : keeps (adds P) (OS.write path data).
Proof. apply keeps_adds_silent. apply write_log. Qed.

Lemma keeps_adds_read_file path : keeps (adds P) (OS.read_file path).
Proof. apply keeps_adds_silent. intros w. now rewrite read_file_same. Qed.

Lemma keeps_adds_ensure_dir p : keeps (adds P) (Archive.ensure_dir p).
Proof.
  apply keeps_adds_silent. intros w. unfold Archive.ensure_dir.
  now destruct (Tree.mkdirs (fs w) p).
Qed.

End AddsServices.

(* ================================================================== *)
(** * The refresh policy of the extractors *)
(* ================================================================== *)

Lemma must_refresh_eq (action target : string) (w : world) :
  must_refresh action target w = (w, Returned (stale (fs w) action target)).
Proof.
  unfold must_refresh, stale.
  destruct (in_tuple action ["update"; "download"]); reflexivity.
Qed.

Lemma in_tuple_actions (action : string) :
  in_tuple action ["update"; "download"] = true <->
  action = "download" \/ action = "update".
Proof.
  unfold in_tuple. simpl. rewrite !orb_true_iff, !String.eqb_eq.
  intuition discriminate.
Qed.

Lemma stale_iff (root : node) (action target : string) :
  stale root action target = true <->
  action = "download" \/ action = "update" \/ OS.exists_in root target = false.
Proof.
  unfold stale. rewrite orb_true_iff, in_tuple_actions, negb_true_iff. tauto.
Qed.

Lemma stale_fetch (root : node) (target : string) :
  stale root "fetch" target = negb (OS.exists_in root target).
Proof. reflexivity. Qed.

(** The call when nothing is to be done again: the world stays as it is
    and the directory is listed. *)
Lemma call_hit lib self sfx fname action (w : world) :
  ExtractorProcessor.suffix self = Some sfx ->
  stale (fs w) action (fname +++ sfx) = false ->
  ExtractorProcessor.__call__ lib self fname action w =
  (w, Returned (enumerate (fs w) (fname +++ sfx))).
Proof.
  intros Hs Hst. unfold ExtractorProcessor.__call__. rewrite Hs.
  unfold bind at 1. unfold bind at 1. rewrite must_refresh_eq, Hst. reflexivity.
Qed.

(** The call when the work is done again: the directory is made if it is
    missing, [_extract_file] runs, the directory is listed. *)
Lemma call_stale lib self sfx fname action (w : world) :
  ExtractorProcessor.suffix self = Some sfx ->
  stale (fs w) action (fname +++ sfx) = true ->
  ExtractorProcessor.__call__ lib self fname action w =
  (((if OS.exists_in (fs w) (fname +++ sfx) then ret tt
     else OS.makedirs (fname +++ sfx)) ;;;
    emit (Unpack fname (fname +++ sfx)) ;;;
    ExtractorProcessor.self_extract_file lib self fname (fname +++ sfx)) ;;;
   walked <- OS.walk (fname +++ sfx) ;;
   ret (ExtractorProcessor.fnames_of walked)) w.
Proof.
  intros Hs Hst. unfold ExtractorProcessor.__call__. rewrite Hs.
  unfold bind, OS.path_exists. rewrite must_refresh_eq, Hst.
  destruct (OS.exists_in (fs w) (fname +++ sfx)); simpl; reflexivity.
Qed.

(** ** What [_extract_file] keeps *)

Section ExtractKeeps.

Variable R : world -> world -> Prop.
Hypothesis R_refl : forall w, R w w.
Hypothesis R_trans : forall a b c, R a b -> R b c -> R a c.
Hypothesis R_emit : forall e, keeps R (emit e).
Hypothesis R_read : forall path, keeps R (OS.read_file path).
Hypothesis R_open : forall path, keeps R (OS.open_write path).
Hypothesis R_write : forall path data, keeps R (OS.write path data).
Hypothesis R_ensure : forall p, keeps R (Archive.ensure_dir p).

Ltac keeps_combinators :=
  repeat
    match goal with
    | |- keeps _ (bind _ _) => apply keeps_bind; [assumption | | intros ?]
    | |- keeps _ (try_finally _ _) => apply keeps_try_finally; [assumption | |]
    | |- keeps _ (ret _) => apply keeps_ret; assumption
    | |- keeps _ (raise _) => apply keeps_raise; assumption
    | |- keeps _ (emit _) => apply R_emit
    | |- keeps _ (OS.read_file _) => apply R_read
    | |- keeps _ (OS.open_write _) => apply R_open
    | |- keeps _ (OS.write _ _) => apply R_write
    | |- keeps _ (Archive.ensure_dir _) => apply R_ensure
    | |- keeps _ (match ?x with Some _ => _ | None => _ end) => destruct x
    end.

Lemma keeps_with_archive read fname (body : archive -> M unit) :
  (forall ar, keeps R (body ar)) ->
  keeps R (Archive.with_archive read fname body).
Proof.
  intros Hb. unfold Archive.with_archive.
  apply keeps_bind; [assumption | apply R_read |].
  intros data. destruct (read data) as [ar|].
  - unfold OS.close. keeps_combinators. apply Hb.
  - now apply keeps_raise.
Qed.

Lemma keeps_extractall ar path : keeps R (Archive.extractall ar path).
Proof.
  unfold Archive.extractall. apply keeps_for_each; [assumption | assumption |].
  intros [name e] _. unfold Archive.extract_entry. simpl.
  destruct e as [data|]; unfold OS.close; keeps_combinators.
Qed.

Lemma keeps_unzip_member ar extract_dir fname member :
  keeps R (unzip_member ar fname extract_dir member).
Proof.
  unfold unzip_member, warn, OS.close, Archive.zip_open.
  destruct (Archive.getmember member ar); keeps_combinators.
Qed.

Lemma keeps_untar_member ar extract_dir fname member :
  keeps R (untar_member ar fname extract_dir member).
Proof.
  unfold untar_member, warn, OS.close, Archive.extractfile.
  destruct (Archive.getmember member ar) as [[data|]|]; keeps_combinators.
Qed.

Lemma keeps_extract_file lib self fname extract_dir :
  keeps R (ExtractorProcessor.self_extract_file lib self fname extract_dir).
Proof.
  unfold ExtractorProcessor.self_extract_file.
  destruct (ExtractorProcessor.cls self).
  - now apply keeps_raise.
  - unfold Unzip._extract_file. apply keeps_with_archive. intros ar.
    destruct (ExtractorProcessor.members self) as [ms|].
    + apply keeps_for_each; [assumption | assumption |].
      intros member _. apply keeps_unzip_member.
    + unfold warn. keeps_combinators. apply keeps_extractall.
  - unfold Untar._extract_file. apply keeps_with_archive. intros ar.
    destruct (ExtractorProcessor.members self) as [ms|].
    + apply keeps_for_each; [assumption | assumption |].
      intros member _. apply keeps_untar_member.
    + unfold warn. keeps_combinators. apply keeps_extractall.
Qed.

End ExtractKeeps.

Lemma extract_file_grows lib self fname extract_dir :
  keeps fs_grows (ExtractorProcessor.self_extract_file lib self fname extract_dir).
Proof.
  apply keeps_extract_file.
  - apply fs_grows_refl.
  - apply fs_grows_trans.
  - intros e. apply keeps_fs_grows_silent. intros w. reflexivity.
  - intros path. apply keeps_fs_grows_silent. intros w. now rewrite read_file_same.
  - apply keeps_grows_open_write.
  - apply keeps_grows_write.
  - apply keeps_grows_ensure_dir.
Qed.

Lemma any_events_app (a b : list event) : any_events a -> any_events b -> any_events (a ++ b).
Proof. intros _ _. exact I. Qed.

Lemma extract_file_logs lib self fname extract_dir :
  keeps (adds any_events)
        (ExtractorProcessor.self_extract_file lib self fname extract_dir).
Proof.
  apply keeps_extract_file.
  - apply adds_refl. exact I.
  - apply adds_trans. apply any_events_app.
  - intros e. apply keeps_adds_emit. exact I.
  - apply keeps_adds_read_file. exact I.
  - intros path. apply keeps_adds_open_write; exact I.
  - apply keeps_adds_write. exact I.
  - apply keeps_adds_ensure_dir. exact I.
Qed.

Lemma news_app (w w' : world) (evs : list event) :
  log w' = log w ++ evs -> news w w' = evs.
Proof.
  intros L. unfold news. rewrite L, skipn_app, skipn_all, Nat.sub_diag.
  reflexivity.
Qed.

Lemma makedirs_log (path : string) (w : world) :
  log (fst (OS.makedirs path w)) = log w.
Proof.
  unfold OS.makedirs. destruct (path =? "")%string; [reflexivity|].
  destruct (Tree.lookup (fs w) (Path.components path)); [reflexivity|].
  now destruct (Tree.mkdirs (fs w) (Path.components path)).
Qed.

(** ** Running a sequence *)

Lemma bind_returned {A B} (m : M A) (f : A -> M B) (w w1 : world) (v : A) :
  m w = (w1, Returned v) -> bind m f w = f v w1.
Proof. intros H. unfold bind. now rewrite H. Qed.

Lemma bind_raised {A B} (m : M A) (f : A -> M B) (w w1 : world) (e : exn) :
  m w = (w1, Raised e) -> bind m f w = (w1, Raised e).
Proof. intros H. unfold bind. now rewrite H. Qed.

Lemma bind_assoc {A B C} (m : M A) (f : A -> M B) (g : B -> M C) (w : world) :
  bind (bind m f) g w = bind m (fun x => bind (f x) g) w.
Proof. unfold bind. destruct (m w) as [w1 [v|e]]; reflexivity. Qed.

Lemma bind_emit {A} (e : event) (k : unit -> M A) (w : world) :
  bind (emit e) k w = k tt (World (fs w) (log w ++ [e]) (faults w)).
Proof. reflexivity. Qed.

Lemma bind_ret {A B} (v : A) (k : A -> M B) (w : world) :
  bind (ret v) k w = k v w.
Proof. reflexivity. Qed.

Lemma surjective_run {A} (m : M A) (w : world) : m w = (fst (m w), snd (m w)).
Proof. now destruct (m w). Qed.

(** When the work is done again and the directory can be made, the log
    gets [Unpack] and what [_extract_file] adds. *)
Lemma call_stale_log lib self sfx fname action (w : world) :
  ExtractorProcessor.suffix self = Some sfx ->
  stale (fs w) action (fname +++ sfx) = true ->
  (OS.exists_in (fs w) (fname +++ sfx) = false ->
   snd (OS.makedirs (fname +++ sfx) w) = Returned tt) ->
  exists evs,
    log (fst (ExtractorProcessor.__call__ lib self fname action w)) =
    log w ++ Unpack fname (fname +++ sfx) :: evs.
Proof.
  intros Hs Hst Hmk. rewrite (call_stale lib self sfx fname action w Hs Hst).
  rewrite bind_assoc.
  assert (G : forall w1, log w1 = log w ->
            exists evs,
              log (fst (bind (emit (Unpack fname (fname +++ sfx)) ;;;
                              ExtractorProcessor.self_extract_file lib self fname
                                (fname +++ sfx))
                             (fun _ =>
                                walked <- OS.walk (fname +++ sfx) ;;
                                ret (ExtractorProcessor.fnames_of walked)) w1)) =
              log w ++ Unpack fname (fname +++ sfx) :: evs).
  { intros w1 L1. rewrite bind_assoc, bind_emit.
    assert (K : keeps (adds any_events)
                  (ExtractorProcessor.self_extract_file lib self fname
                     (fname +++ sfx) ;;;
                   walked <- OS.walk (fname +++ sfx) ;;
                   ret (ExtractorProcessor.fnames_of walked))).
    { apply keeps_bind.
      - apply adds_trans, any_events_app.
      - apply extract_file_logs.
      - intros _. apply keeps_adds_silent; [exact I | reflexivity]. }
    destruct (K (World (fs w1) (log w1 ++ [Unpack fname (fname +++ sfx)])
                       (faults w1))) as (evs & L & _).
    exists evs. rewrite L. simpl. rewrite L1, <- app_assoc. reflexivity. }
  destruct (OS.exists_in (fs w) (fname +++ sfx)) eqn:E.
  - rewrite bind_ret. now apply G.
  - specialize (Hmk eq_refl). pose proof (makedirs_log (fname +++ sfx) w) as Lm.
    rewrite (bind_returned _ _ w (fst (OS.makedirs (fname +++ sfx) w)) tt).
    + now apply G.
    + rewrite <- Hmk. apply surjective_run.
Qed.

(** C7.  A call on an extractor whose class defines no [suffix] raises
    [NotImplementedError] at once: the world after the call is the world
    before it (no file-system access, nothing logged, so no second
    attempt either). *)
Theorem missing_suffix_is_fatal lib self fname action (w : world) :
  ExtractorProcessor.suffix self = None ->
  ExtractorProcessor.__call__ lib self fname action w =
  (w, Raised (NotImplementedError
                "Derived classes must define the 'suffix' attribute.")).
Proof.
  intros Hs. unfold ExtractorProcessor.__call__. now rewrite Hs.
Qed.

Lemma missing_suffix_is_fatal_witness :
  ExtractorProcessor.__call__ sample_lib
    (ExtractorProcessor.__init__ ExtractorProcessor.BaseClass (Some ["a.txt"]))
    "store/data.zip" "download" sample_world =
  (sample_world,
   Raised (NotImplementedError
             "Derived classes must define the 'suffix' attribute.")).
Proof.
  apply (missing_suffix_is_fatal sample_lib
           (ExtractorProcessor.__init__ ExtractorProcessor.BaseClass
              (Some ["a.txt"]))
           "store/data.zip" "download" sample_world).
  reflexivity.
Defined.

(** The refresh policy of an extractor with a suffix, on a call where the
    output directory can be made when it is missing. *)
Lemma refresh_policy_when_directory_can_be_made lib self sfx fname action
      (w : world) :
  ExtractorProcessor.suffix self = Some sfx ->
  (OS.exists_in (fs w) (fname +++ sfx) = false ->
   snd (OS.makedirs (fname +++ sfx) w) = Returned tt) ->
  (In (Unpack fname (fname +++ sfx))
      (news w (fst (ExtractorProcessor.__call__ lib self fname action w))) <->
   action = "download" \/ action = "update" \/
   OS.exists_in (fs w) (fname +++ sfx) = false) /\
  (action = "fetch" -> OS.exists_in (fs w) (fname +++ sfx) = true ->
   ExtractorProcessor.__call__ lib self fname action w =
   (w, Returned (enumerate (fs w) (fname +++ sfx)))).
Proof.
  intros Hs Hmk. split.
  - rewrite <- stale_iff. split.
    + intros Hin. destruct (stale (fs w) action (fname +++ sfx)) eqn:E;
        [reflexivity|].
      rewrite (call_hit lib self sfx fname action w Hs E) in Hin.
      simpl in Hin. rewrite news_same in Hin. contradiction.
    + intros Hst.
      destruct (call_stale_log lib self sfx fname action w Hs Hst Hmk) as [evs L].
      rewrite (news_app _ _ _ L). now left.
  - intros -> Hex. apply call_hit; [exact Hs|].
    rewrite stale_fetch, Hex. reflexivity.
Qed.

(** ** The directory beside an existing archive can always be made *)

Lemma is_file_inv (root : node) (path : string) :
  is_file root path = true ->
  (path =? "")%string = false /\ Path.wants_dir path = false /\
  Path.components path = stem path ++ [last_segment path] /\
  dir_at root (stem path) = true.
Proof.
  unfold is_file. intros H.
  apply andb_true_iff in H as [H Hf]. apply andb_true_iff in H as [He Hw].
  apply negb_true_iff in He, Hw.
  assert (Hn : Path.is_name (last_segment path) = true).
  { unfold Path.wants_dir in Hw. now apply negb_false_iff in Hw. }
  pose proof (components_stem path) as Hc. rewrite Hn in Hc.
  repeat split; try assumption.
  rewrite Hc in Hf. unfold file_at in Hf. rewrite lookup_app in Hf.
  unfold dir_at.
  destruct (Tree.lookup root (stem path)) as [[d|es]|]; try discriminate.
  reflexivity.
Qed.

Lemma makedirs_beside_file (w : world) (fname sfx : string) :
  is_file (fs w) fname = true ->
  has_sep sfx = false -> 2 <= String.length sfx ->
  OS.exists_in (fs w) (fname +++ sfx) = false ->
  snd (OS.makedirs (fname +++ sfx) w) = Returned tt.
Proof.
  intros Hf Hs Hl Hex.
  destruct (is_file_inv _ _ Hf) as (_ & _ & _ & Hd).
  destruct (components_append_suffix fname sfx Hs Hl) as (Hc & Hw & Hne).
  unfold OS.exists_in in Hex. unfold OS.makedirs.
  rewrite Hne in *. rewrite Hw in Hex. rewrite Hc in *.
  destruct (Tree.lookup (fs w) (stem fname ++ [last_segment fname +++ sfx]))
    as [[d|es]|] eqn:L; try discriminate.
  destruct (mkdirs_snoc _ _ _ Hd L) as [n' Hn']. now rewrite Hn'.
Qed.

Lemma suffix_shape self sfx :
  ExtractorProcessor.suffix self = Some sfx ->
  has_sep sfx = false /\ 2 <= String.length sfx.
Proof.
  unfold ExtractorProcessor.suffix.
  destruct (ExtractorProcessor.cls self); intros H; inversion H; subst;
    split; try reflexivity; simpl; lia.
Qed.

(** ** After a call that returned *)

Lemma exists_in_grows (n n' : node) (path : string) :
  grows n n' -> OS.exists_in n path = true -> OS.exists_in n' path = true.
Proof.
  intros G. unfold OS.exists_in.
  destruct (path =? "")%string; [auto|].
  destruct (G (Path.components path)) as [Gd Gf]. unfold dir_at, file_at in *.
  destruct (Tree.lookup n (Path.components path)) as [[d|es]|]; try discriminate.
  - intros H.
    destruct (Tree.lookup n' (Path.components path)) as [[d'|es']|];
      try reflexivity; try assumption.
    exfalso. apply Gf; [discriminate | reflexivity].
  - intros _. specialize (Gd eq_refl).
    destruct (Tree.lookup n' (Path.components path)) as [[d'|es']|];
      try discriminate. reflexivity.
Qed.

Lemma makedirs_exists (path : string) (w w1 : world) :
  OS.makedirs path w = (w1, Returned tt) -> OS.exists_in (fs w1) path = true.
Proof.
  unfold OS.makedirs, OS.exists_in.
  destruct (path =? "")%string; [discriminate|].
  destruct (Tree.lookup (fs w) (Path.components path)); [discriminate|].
  destruct (Tree.mkdirs (fs w) (Path.components path)) as [root|] eqn:E;
    [|discriminate].
  intros H. inversion H; subst. simpl.
  pose proof (mkdirs_dir _ _ _ E) as D. unfold dir_at in D.
  destruct (Tree.lookup root (Path.components path)) as [[d|es]|];
    try discriminate. reflexivity.
Qed.

(** A call that returns leaves the output directory in place and returns
    its listing. *)
Lemma call_returned lib self fname action (w w' : world) files :
  ExtractorProcessor.__call__ lib self fname action w = (w', Returned files) ->
  exists sfx,
    ExtractorProcessor.suffix self = Some sfx /\
    OS.exists_in (fs w') (fname +++ sfx) = true /\
    files = enumerate (fs w') (fname +++ sfx).
Proof.
  intros H.
  destruct (ExtractorProcessor.suffix self) as [sfx|] eqn:Hs.
  2:{ unfold ExtractorProcessor.__call__ in H. rewrite Hs in H. discriminate. }
  exists sfx. split; [reflexivity|].
  destruct (stale (fs w) action (fname +++ sfx)) eqn:Hst.
  - rewrite (call_stale lib self sfx fname action w Hs Hst) in H.
    set (prepare := if OS.exists_in (fs w) (fname +++ sfx) then ret tt
                    else OS.makedirs (fname +++ sfx)) in H.
    assert (P : forall w1, prepare w = (w1, Returned tt) ->
                           OS.exists_in (fs w1) (fname +++ sfx) = true).
    { intros w1. unfold prepare.
      destruct (OS.exists_in (fs w) (fname +++ sfx)) eqn:E.
      - intros K. inversion K; subst. exact E.
      - apply makedirs_exists. }
    unfold bind at 1 2 in H.
    destruct (prepare w) as [w1 [[]|e]] eqn:Ep; [|discriminate].
    specialize (P w1 eq_refl).
    rewrite bind_emit in H.
    pose proof (extract_file_grows lib self fname (fname +++ sfx)
                  (World (fs w1) (log w1 ++ [Unpack fname (fname +++ sfx)])
                         (faults w1))) as G.
    destruct (ExtractorProcessor.self_extract_file lib self fname (fname +++ sfx)
                (World (fs w1) (log w1 ++ [Unpack fname (fname +++ sfx)])
                       (faults w1))) as [w2 [u|e]]; [|discriminate].
    unfold bind, OS.walk, ret in H. inversion H; subst.
    split; [|reflexivity].
    eapply exists_in_grows; [exact G | exact P].
  - rewrite (call_hit lib self sfx fname action w Hs Hst) in H.
    inversion H; subst. split; [|reflexivity].
    unfold stale in Hst. apply orb_false_iff in Hst as [_ Hst].
    now apply negb_false_iff in Hst.
Qed.

(** C2.  Once the output directory exists, two calls in a row with the
    action [fetch] return the same list, the listing of the directory, and
    leave the world as it was: no unpacking, no change in the directory. *)
Theorem fetch_twice_same_list lib self sfx fname (w : world) :
  ExtractorProcessor.suffix self = Some sfx ->
  OS.exists_in (fs w) (fname +++ sfx) = true ->
  (first <- ExtractorProcessor.__call__ lib self fname "fetch" ;;
   second <- ExtractorProcessor.__call__ lib self fname "fetch" ;;
   ret (first, second)) w =
  (w, Returned (enumerate (fs w) (fname +++ sfx),
                enumerate (fs w) (fname +++ sfx))).
Proof.
  intros Hs Hex.
  assert (Hst : stale (fs w) "fetch" (fname +++ sfx) = false)
    by (rewrite stale_fetch, Hex; reflexivity).
  pose proof (call_hit lib self sfx fname "fetch" w Hs Hst) as Hc.
  rewrite (bind_returned _ _ _ _ _ Hc).
  rewrite (bind_returned _ _ _ _ _ Hc).
  reflexivity.
Qed.

Lemma fetch_twice_same_list_witness :
  (first <- ExtractorProcessor.__call__ sample_lib
              (ExtractorProcessor.__init__ ExtractorProcessor.UnzipClass None)
              "store/data.zip" "fetch" ;;
   second <- ExtractorProcessor.__call__ sample_lib
               (ExtractorProcessor.__init__ ExtractorProcessor.UnzipClass None)
               "store/data.zip" "fetch" ;;
   ret (first, second)) unzipped_world =
  (unzipped_world,
   Returned (enumerate (fs unzipped_world) ("store/data.zip" +++ ".unzip"),
             enumerate (fs unzipped_world) ("store/data.zip" +++ ".unzip"))).
Proof.
  apply (fetch_twice_same_list sample_lib
           (ExtractorProcessor.__init__ ExtractorProcessor.UnzipClass None)
           ".unzip" "store/data.zip" unzipped_world).
  - reflexivity.
  - vm_compute. reflexivity.
Defined.

(* ================================================================== *)
(** * The format resolution of [Decompress] *)
(* ================================================================== *)

Lemma dict_get_cons {V} (k k' : string) (v : V) d :
  Decompress.dict_get k ((k', v) :: d) =
  if (k =? k')%string then Some v else Decompress.dict_get k d.
Proof. simpl. now rewrite String.eqb_sym. Qed.

(** C4.  [_compression_module] resolves as specified: with the method
    [auto] the extension of the path ([os.path.splitext]) gives [.xz] to
    lzma, [.gz] to gzip, [.bz2] to bzip2, and any other extension raises
    a [ValueError] that quotes the extension and the list of the three
    recognized ones; with another method, [lzma] and [xz] give lzma,
    [gzip] gives gzip, [bzip2] gives bzip2, and any other name raises a
    [ValueError] that quotes the name and the list of the four valid
    ones. *)
Theorem compression_module_resolution (self : Decompress.t) (fname : string) :
  Decompress._compression_module self fname =
  resolution_spec (Decompress.method self) (snd (Path.splitext fname)).
Proof.
  unfold Decompress._compression_module, resolution_spec.
  destruct (Decompress.method self =? "auto")%string eqn:Ea.
  - unfold Decompress.dict_in, Decompress.valid_methods.
    rewrite !dict_get_cons.
    destruct (snd (Path.splitext fname) =? ".xz")%string; [reflexivity|].
    destruct (snd (Path.splitext fname) =? ".gz")%string; [reflexivity|].
    destruct (snd (Path.splitext fname) =? ".bz2")%string; reflexivity.
  - unfold Decompress.dict_in, Decompress.modules.
    rewrite !dict_get_cons.
    destruct (Decompress.method self =? "lzma")%string; [reflexivity|].
    destruct (Decompress.method self =? "xz")%string; [reflexivity|].
    destruct (Decompress.method self =? "gzip")%string; [reflexivity|].
    destruct (Decompress.method self =? "bzip2")%string; reflexivity.
Qed.

(* ================================================================== *)
(** * Writing files *)
(* ================================================================== *)

Lemma store_existing (n x y : node) (p : list string) :
  Tree.lookup n p = Some y -> exists n', Tree.store n p x = Some n'.
Proof.
  revert n. induction p as [|c p IH]; intros n L; simpl in *; [eauto|].
  destruct n as [d|es]; [discriminate|].
  destruct (Tree.get c es) as [ch|] eqn:G; [|discriminate].
  destruct p as [|c' p']; [eauto|].
  destruct (IH ch L) as [ch' ->]. eauto.
Qed.

(** An [open] for writing that returns has created the file empty or
    truncated it. *)
Lemma open_write_returned (path : string) (w w1 : world) (h : handle) :
  OS.open_write path w = (w1, Returned h) ->
  h = HOutput path /\
  file_at (fs w1) (Path.components path) = Some [] /\
  log w1 = log w ++ [Opened (HOutput path)] /\ faults w1 = faults w.
Proof.
  unfold OS.open_write.
  destruct (path =? "")%string; [discriminate|].
  destruct (Path.wants_dir path); [discriminate|].
  assert (G : match Tree.store (fs w) (Path.components path) (File []) with
              | Some root =>
                  (World root (log w ++ [Opened (HOutput path)]) (faults w),
                   Returned (HOutput path))
              | None =>
                  if Tree.blocked (fs w) (Path.components path)
                  then (w, Raised (OSError ENOTDIR))
                  else (w, Raised (OSError ENOENT))
              end = (w1, Returned h) ->
              h = HOutput path /\
              file_at (fs w1) (Path.components path) = Some [] /\
              log w1 = log w ++ [Opened (HOutput path)] /\ faults w1 = faults w).
  { destruct (Tree.store (fs w) (Path.components path) (File [])) as [root|] eqn:S.
    - intros H. inversion H; subst. simpl. repeat split.
      unfold file_at. now rewrite (store_lookup _ _ _ _ S).
    - destruct (Tree.blocked (fs w) (Path.components path)); discriminate. }
  destruct (Tree.lookup (fs w) (Path.components path)) as [[d|es]|];
    [exact G | discriminate | exact G].
Qed.

(** Where the directory is there and the path is no directory, [open]
    for writing returns, whether the file exists or not. *)
Lemma open_write_ok (path : string) (w : world) (parent : list string) (c : string) :
  (path =? "")%string = false -> Path.wants_dir path = false ->
  Path.components path = parent ++ [c] ->
  dir_at (fs w) parent = true ->
  dir_at (fs w) (Path.components path) = false ->
  exists root,
    Tree.store (fs w) (Path.components path) (File []) = Some root /\
    OS.open_write path w =
    (World root (log w ++ [Opened (HOutput path)]) (faults w),
     Returned (HOutput path)).
Proof.
  intros He Hw Hc Hp Hd. unfold OS.open_write. rewrite He, Hw.
  destruct (store_snoc (fs w) (File []) parent c Hp) as [root S].
  rewrite <- Hc in S. exists root. split; [exact S|].
  unfold dir_at in Hd. rewrite S.
  destruct (Tree.lookup (fs w) (Path.components path)) as [[d|es]|];
    try reflexivity. discriminate.
Qed.

(** A write that returns has put the data at the end of the file. *)
Lemma write_returned (path : string) (data : bytes) (w w1 : world) :
  OS.write path data w = (w1, Returned tt) ->
  exists old,
    file_at (fs w) (Path.components path) = Some old /\
    file_at (fs w1) (Path.components path) = Some (old ++ data) /\
    log w1 = log w /\ faults w1 = tl (faults w).
Proof.
  unfold OS.write, file_at.
  assert (G : forall rest,
             match Tree.lookup (fs w) (Path.components path) with
             | Some (File old) =>
                 match Tree.store (fs w) (Path.components path) (File (old ++ data)) with
                 | Some root => (World root (log w) rest, Returned tt)
                 | None => (World (fs w) (log w) rest, Raised (OSError ENOENT))
                 end
             | _ => (World (fs w) (log w) rest, Raised (OSError ENOENT))
             end = (w1, Returned tt) ->
             exists old,
               match Tree.lookup (fs w) (Path.components path) with
               | Some (File d) => Some d
               | _ => None
               end = Some old /\
               match Tree.lookup (fs w1) (Path.components path) with
               | Some (File d) => Some d
               | _ => None
               end = Some (old ++ data) /\
               log w1 = log w /\ faults w1 = rest).
  { intros rest.
    destruct (Tree.lookup (fs w) (Path.components path)) as [[old|es]|];
      try discriminate.
    destruct (Tree.store (fs w) (Path.components path) (File (old ++ data)))
      as [root|] eqn:S; [|discriminate].
    intros H. inversion H; subst. simpl. exists old.
    rewrite (store_lookup _ _ _ _ S). auto. }
  destruct (faults w) as [|[|] rest]; [apply G | discriminate | apply G].
Qed.

(** With no failure announced, a write to an existing regular file
    returns. *)
Lemma write_ok (path : string) (data old : bytes) (w : world) :
  faults w = [] -> file_at (fs w) (Path.components path) = Some old ->
  exists root,
    Tree.store (fs w) (Path.components path) (File (old ++ data)) = Some root /\
    OS.write path data w = (World root (log w) [], Returned tt).
Proof.
  intros Hf Ho. unfold OS.write, file_at in *. rewrite Hf.
  destruct (Tree.lookup (fs w) (Path.components path)) as [[d|es]|] eqn:L;
    try discriminate.
  inversion Ho; subst d.
  destruct (store_existing (fs w) (File (old ++ data)) _ _ L) as [root S].
  exists root. rewrite S. auto.
Qed.

(** ** [shutil.copyfileobj] *)

Lemma COPY_BUFSIZE_pos : 0 < COPY_BUFSIZE.
Proof. apply Nat.ltb_lt. vm_compute. reflexivity. Qed.

Opaque COPY_BUFSIZE.

Lemma copy_loop_step (fuel : nat) (rest : bytes) (ok : bool) (dst : string) :
  copy_loop (S fuel) rest ok dst =
  match firstn COPY_BUFSIZE rest with
  | [] => if ok then ret tt else raise CorruptStream
  | buf => OS.write dst buf ;;; copy_loop fuel (skipn COPY_BUFSIZE rest) ok dst
  end.
Proof. reflexivity. Qed.

Lemma firstn_nil_inv {A} (n : nat) (l : list A) :
  0 < n -> firstn n l = [] -> l = [].
Proof. destruct n; [lia|]. destruct l; [reflexivity | discriminate]. Qed.

Lemma skipn_shorter {A} (n : nat) (l : list A) :
  0 < n -> l <> [] -> length (skipn n l) < length l.
Proof.
  intros Hn Hl. rewrite length_skipn.
  assert (0 < length l) by (destruct l; [contradiction | simpl; lia]).
  lia.
Qed.

(** A copy that returns has put the whole stream at the end of the
    destination, and the stream ended well. *)
Lemma copy_loop_returned (fuel : nat) (rest old : bytes) (ok : bool)
      (dst : string) (w w' : world) :
  length rest < fuel ->
  file_at (fs w) (Path.components dst) = Some old ->
  copy_loop fuel rest ok dst w = (w', Returned tt) ->
  ok = true /\ file_at (fs w') (Path.components dst) = Some (old ++ rest).
Proof.
  revert rest old w. induction fuel as [|fuel IH]; intros rest old w Hl Ho H;
    [lia|].
  rewrite copy_loop_step in H.
  destruct (firstn COPY_BUFSIZE rest) as [|b buf] eqn:F.
  - apply (firstn_nil_inv _ _ COPY_BUFSIZE_pos) in F. subst rest.
    destruct ok; [|discriminate]. inversion H; subst.
    rewrite app_nil_r. auto.
  - unfold bind in H.
    destruct (OS.write dst (b :: buf) w) as [w1 [[]|e]] eqn:W; [|discriminate].
    destruct (write_returned _ _ _ _ W) as (old' & Ho' & Hn & _).
    rewrite Ho in Ho'. inversion Ho'; subst old'.
    assert (Hr : rest <> []) by (intros ->; now rewrite firstn_nil in F).
    pose proof (skipn_shorter COPY_BUFSIZE rest COPY_BUFSIZE_pos Hr) as Hs.
    destruct (IH (skipn COPY_BUFSIZE rest) (old ++ b :: buf) w1
                 ltac:(lia) Hn H) as [Hok Hf].
    split; [exact Hok|]. rewrite Hf, <- F, <- app_assoc, firstn_skipn.
    reflexivity.
Qed.

(** With no failure announced the copy puts the whole stream at the end
    of the destination; it returns when the stream ends well and raises
    after the last byte when it does not. *)
Lemma copy_loop_ok (fuel : nat) (rest old : bytes) (ok : bool)
      (dst : string) (w : world) :
  length rest < fuel ->
  faults w = [] ->
  file_at (fs w) (Path.components dst) = Some old ->
  exists root,
    copy_loop fuel rest ok dst w =
    (World root (log w) [], if ok then Returned tt else Raised CorruptStream) /\
    file_at root (Path.components dst) = Some (old ++ rest) /\
    same_except [Path.components dst] (fs w) root.
Proof.
  revert rest old w. induction fuel as [|fuel IH]; intros rest old w Hl Hf Ho;
    [lia|].
  rewrite copy_loop_step.
  destruct (firstn COPY_BUFSIZE rest) as [|b buf] eqn:F.
  - apply (firstn_nil_inv _ _ COPY_BUFSIZE_pos) in F. subst rest.
    exists (fs w). rewrite app_nil_r. repeat split; try assumption.
    destruct w as [r l f]. simpl in *. subst f. now destruct ok.
  - destruct (write_ok dst (b :: buf) old w Hf Ho) as (root1 & S1 & W1).
    rewrite (bind_returned _ _ _ _ _ W1).
    assert (Hr : rest <> []) by (intros ->; now rewrite firstn_nil in F).
    pose proof (skipn_shorter COPY_BUFSIZE rest COPY_BUFSIZE_pos Hr) as Hs.
    assert (Ho1 : file_at root1 (Path.components dst) = Some (old ++ b :: buf)).
    { unfold file_at. now rewrite (store_lookup _ _ _ _ S1). }
    destruct (IH (skipn COPY_BUFSIZE rest) (old ++ b :: buf)
                 (World root1 (log w) []) ltac:(lia) eq_refl Ho1)
      as (root & C & Hfile & Hsame).
    exists root. simpl in *. rewrite C. split; [reflexivity|]. split.
    + rewrite Hfile, <- F, <- app_assoc, firstn_skipn. reflexivity.
    + assert (Hd : dir_at (fs w) (Path.components dst) = false).
      { unfold dir_at, file_at in *.
        destruct (Tree.lookup (fs w) (Path.components dst)) as [[d|es]|];
          try discriminate; reflexivity. }
      pose proof (store_file_same_except _ _ _ _ [Path.components dst] S1 Hd
                    (or_introl eq_refl)) as H1.
      destruct H1 as [D1 F1]. destruct Hsame as [D2 F2]. split.
      * intros q. now rewrite D2, D1.
      * intros q Hq. now rewrite F2, F1.
Qed.

(* ================================================================== *)
(** * [Decompress] *)
(* ================================================================== *)

Lemma read_file_ok (path : string) (data : bytes) (w : world) :
  (path =? "")%string = false -> Path.wants_dir path = false ->
  file_at (fs w) (Path.components path) = Some data ->
  OS.read_file path w = (w, Returned data).
Proof.
  intros He Hw Hf. unfold OS.read_file, file_at in *. rewrite He.
  destruct (Tree.lookup (fs w) (Path.components path)) as [[d|es]|];
    try discriminate.
  inversion Hf; subst. now rewrite Hw.
Qed.

Lemma read_file_returned (path : string) (data : bytes) (w w' : world) :
  OS.read_file path w = (w', Returned data) ->
  w' = w /\ (path =? "")%string = false /\ Path.wants_dir path = false /\
  file_at (fs w) (Path.components path) = Some data.
Proof.
  unfold OS.read_file, file_at.
  destruct (path =? "")%string; [discriminate|].
  destruct (Tree.lookup (fs w) (Path.components path)) as [[d|es]|];
    try discriminate.
  - destruct (Path.wants_dir path); [discriminate|].
    intros H. inversion H; subst. auto.
  - destruct (Tree.blocked (fs w) (Path.components path)); discriminate.
Qed.

(** The output path is another place than the input path. *)
Lemma components_suffix_distinct (path sfx : string) :
  Path.wants_dir path = false ->
  has_sep sfx = false -> 2 <= String.length sfx ->
  Path.components path <> Path.components (path +++ sfx).
Proof.
  intros Hw Hs Hl.
  destruct (components_append_suffix path sfx Hs Hl) as (Hc & _ & _).
  rewrite Hc, components_stem.
  unfold Path.wants_dir in Hw. apply negb_false_iff in Hw.
  fold (last_segment path) in Hw. rewrite Hw.
  intros E. apply app_inv_head in E. inversion E as [E'].
  apply (f_equal String.length) in E'. rewrite string_length_append in E'. lia.
Qed.

Lemma tree_step_file_other path (n n' : node) (q : list string) :
  tree_step path n n' -> q <> Path.components path -> file_at n' q = file_at n q.
Proof.
  intros [->|data S D] Hq; [reflexivity|].
  now apply (store_file_frame _ _ _ _ S D q).
Qed.

Lemma try_finally_returned {A} (body : M A) (cleanup : M unit)
      (w w' : world) (v : A) :
  try_finally body cleanup w = (w', Returned v) ->
  exists w1 u, body w = (w1, Returned v) /\ cleanup w1 = (w', Returned u).
Proof.
  unfold try_finally. destruct (body w) as [w1 r].
  destruct (cleanup w1) as [w2 [u|e]] eqn:C; [|discriminate].
  intros H. inversion H; subst. eauto.
Qed.

Lemma bind_returned_inv {A B} (m : M A) (f : A -> M B) (w w' : world) (v : B) :
  bind m f w = (w', Returned v) ->
  exists w1 x, m w = (w1, Returned x) /\ f x w1 = (w', Returned v).
Proof.
  unfold bind. destruct (m w) as [w1 [x|e]]; [eauto | discriminate].
Qed.

Lemma decompress_hit lib self fname action (w : world) :
  stale (fs w) action (fname +++ ".decomp") = false ->
  Decompress.__call__ lib self fname action w = (w, Returned (fname +++ ".decomp")).
Proof.
  intros Hst. unfold Decompress.__call__.
  unfold bind at 1. rewrite must_refresh_eq, Hst. reflexivity.
Qed.

Lemma decompress_unresolved lib self fname action (w : world) (e : exn) :
  stale (fs w) action (fname +++ ".decomp") = true ->
  Decompress._compression_module self fname = Raised e ->
  Decompress.__call__ lib self fname action w =
  (World (fs w)
         (log w ++ [Warn ("Decompressing '" +++ fname +++ "' to '"
                          +++ (fname +++ ".decomp") +++ "' using method '"
                          +++ Decompress.method self +++ "'.")])
         (faults w),
   Raised e).
Proof.
  intros Hst Hm. unfold Decompress.__call__.
  unfold bind at 1. rewrite must_refresh_eq, Hst.
  unfold warn. rewrite bind_assoc, bind_emit, bind_assoc.
  unfold bind at 1. cbv beta. rewrite Hm. reflexivity.
Qed.

Lemma decompress_resolved lib self fname action (w : world) (module : pymodule) :
  stale (fs w) action (fname +++ ".decomp") = true ->
  Decompress._compression_module self fname = Returned module ->
  Decompress.__call__ lib self fname action w =
  ((output <- OS.open_write (fname +++ ".decomp") ;;
    try_finally
      (compressed <- Decompress.module_open lib module fname ;;
       try_finally
         (copyfileobj compressed (fname +++ ".decomp"))
         (OS.close (HCompressed fname)))
      (OS.close output)) ;;;
   ret (fname +++ ".decomp"))
    (World (fs w)
           (log w ++ [Warn ("Decompressing '" +++ fname +++ "' to '"
                            +++ (fname +++ ".decomp") +++ "' using method '"
                            +++ Decompress.method self +++ "'.")])
           (faults w)).
Proof.
  intros Hst Hm. unfold Decompress.__call__.
  unfold bind at 1. rewrite must_refresh_eq, Hst.
  unfold warn. rewrite bind_assoc, bind_emit, bind_assoc.
  unfold bind at 1. cbv beta. rewrite Hm. reflexivity.
Qed.

Lemma same_except_trans T (a b c : node) :
  same_except T a b -> same_except T b c -> same_except T a c.
Proof.
  intros [D1 F1] [D2 F2]. split.
  - intros q. now rewrite D2, D1.
  - intros q Hq. now rewrite F2, F1.
Qed.

(** The work of [Decompress] when everything it needs is there: the input
    is a regular file, the output path is no directory, no write fails.
    The output is created or truncated, the whole decoded stream is
    copied to it, both handles are closed, and nothing else changes. *)
Lemma decompress_runs lib self fname action (w : world)
      (module : pymodule) (data plain : bytes) (ok : bool) :
  stale (fs w) action (fname +++ ".decomp") = true ->
  Decompress._compression_module self fname = Returned module ->
  is_file (fs w) fname = true ->
  file_at (fs w) (Path.components fname) = Some data ->
  dir_at (fs w) (Path.components (fname +++ ".decomp")) = false ->
  faults w = [] ->
  decode lib module data = (plain, ok) ->
  exists root,
    Decompress.__call__ lib self fname action w =
    (World root
       (log w ++ [Warn ("Decompressing '" +++ fname +++ "' to '"
                        +++ (fname +++ ".decomp") +++ "' using method '"
                        +++ Decompress.method self +++ "'.");
                  Opened (HOutput (fname +++ ".decomp"));
                  Opened (HCompressed fname);
                  Closed (HCompressed fname);
                  Closed (HOutput (fname +++ ".decomp"))])
       [],
     if ok then Returned (fname +++ ".decomp") else Raised CorruptStream) /\
    file_at root (Path.components (fname +++ ".decomp")) = Some plain /\
    same_except [Path.components (fname +++ ".decomp")] (fs w) root.
Proof.
  intros Hst Hm Hfile Hdata Hnd Hf Hdec.
  rewrite (decompress_resolved lib self fname action w module Hst Hm).
  destruct (is_file_inv _ _ Hfile) as (Hne & Hwd & Hcomp & Hstem).
  destruct (components_append_suffix fname ".decomp" eq_refl ltac:(simpl; lia))
    as (Hc & Hw & Hne').
  set (w0 := World (fs w) (log w ++ _) (faults w)).
  destruct (open_write_ok (fname +++ ".decomp") w0 (stem fname)
              (last_segment fname +++ ".decomp") Hne' Hw Hc Hstem Hnd)
    as (root1 & S1 & O1).
  assert (Same1 : same_except [Path.components (fname +++ ".decomp")] (fs w) root1).
  { eapply store_file_same_except; [exact S1 | exact Hnd | now left]. }
  assert (Hin : file_at root1 (Path.components fname) = Some data).
  { destruct Same1 as [_ F1]. rewrite F1; [exact Hdata|].
    intros [E|[]]. symmetry in E. revert E.
    apply components_suffix_distinct; [exact Hwd | reflexivity | simpl; lia]. }
  assert (Hout : file_at root1 (Path.components (fname +++ ".decomp")) = Some []).
  { unfold file_at. now rewrite (store_lookup _ _ _ _ S1). }
  rewrite bind_assoc. rewrite (bind_returned _ _ _ _ _ O1).
  set (w1 := World root1 _ _) in *.
  assert (R1 : OS.read_file fname w1 = (w1, Returned data))
    by (apply read_file_ok; assumption).
  set (w2 := World root1 (log w1 ++ [Opened (HCompressed fname)]) (faults w1)).
  destruct (copy_loop_ok (S (length plain)) plain [] ok (fname +++ ".decomp") w2
              ltac:(lia) Hf Hout) as (root & C & Hres & Same2).
  exists root. split; [|split].
  - cbv beta.
    assert (MO : Decompress.module_open lib module fname w1 =
                 (w2, Returned (plain, ok))).
    { unfold Decompress.module_open.
      rewrite (bind_returned _ _ _ _ _ R1), bind_emit. fold w2.
      unfold ret. now rewrite Hdec. }
    assert (Inner : (compressed <- Decompress.module_open lib module fname ;;
                     try_finally
                       (copyfileobj compressed (fname +++ ".decomp"))
                       (OS.close (HCompressed fname))) w1 =
                    (World root (log w2 ++ [Closed (HCompressed fname)]) [],
                     if ok then Returned tt else Raised CorruptStream)).
    { rewrite (bind_returned _ _ _ _ _ MO).
      unfold try_finally, copyfileobj. simpl fst. simpl snd. rewrite C.
      reflexivity. }
    unfold bind at 1. unfold try_finally at 1. rewrite Inner.
    unfold OS.close, emit, ret. simpl.
    rewrite <- !app_assoc. simpl.
    destruct ok; reflexivity.
  - exact Hres.
  - eapply same_except_trans; [exact Same1 | exact Same2].
Qed.

(** What a returning call of [Decompress] that did its work has done: the
    method resolved to a module, the input was a regular file, its
    stream decoded to the end, and the output holds the decoded bytes. *)
Lemma decompress_returned lib self fname action (w w' : world) (p : string) :
  stale (fs w) action (fname +++ ".decomp") = true ->
  Decompress.__call__ lib self fname action w = (w', Returned p) ->
  exists module data plain,
    Decompress._compression_module self fname = Returned module /\
    file_at (fs w) (Path.components fname) = Some data /\
    decode lib module data = (plain, true) /\
    file_at (fs w') (Path.components (fname +++ ".decomp")) = Some plain.
Proof.
  intros Hst H.
  destruct (Decompress._compression_module self fname) as [module|e] eqn:Hm.
  2:{ rewrite (decompress_unresolved lib self fname action w e Hst Hm) in H.
      discriminate. }
  rewrite (decompress_resolved lib self fname action w module Hst Hm) in H.
  set (w0 := World (fs w) (log w ++ _) (faults w)) in H.
  apply bind_returned_inv in H as (w5 & [] & H & Hret).
  unfold ret in Hret. inversion Hret; subst w5 p. clear Hret.
  apply bind_returned_inv in H as (w1 & output & O1 & H).
  pose proof (open_write_step (fname +++ ".decomp") w0) as Step.
  rewrite O1 in Step. simpl in Step.
  destruct (open_write_returned _ _ _ _ O1) as (-> & Hout & _ & _).
  apply try_finally_returned in H as (w4 & u & H & Hc4).
  unfold OS.close, emit in Hc4. inversion Hc4; subst w'. simpl. clear Hc4.
  apply bind_returned_inv in H as (w2 & [plain ok] & MO & H).
  unfold Decompress.module_open in MO.
  apply bind_returned_inv in MO as (w1' & data & R1 & MO).
  destruct (read_file_returned _ _ _ _ R1) as (-> & Hne & Hwd & Hdata).
  rewrite bind_emit in MO. unfold ret in MO. inversion MO as [[Hw2 Hdec]].
  clear MO.
  apply try_finally_returned in H as (w3 & u' & H & Hc3).
  unfold OS.close, emit in Hc3. inversion Hc3; subst w4. simpl. clear Hc3.
  unfold copyfileobj in H. simpl fst in H. simpl snd in H.
  assert (Hout2 : file_at (fs w2) (Path.components (fname +++ ".decomp")) = Some [])
    by (subst w2; exact Hout).
  destruct (copy_loop_returned _ _ _ _ _ _ _ (Nat.lt_succ_diag_r _) Hout2 H)
    as [-> Hres].
  exists module, data, plain. repeat split; try assumption.
  rewrite <- (tree_step_file_other _ _ _ _ Step); [exact Hdata|].
  apply components_suffix_distinct; [exact Hwd | reflexivity | simpl; lia].
Qed.

Lemma decompress_path lib self fname action (w w' : world) (p : string) :
  Decompress.__call__ lib self fname action w = (w', Returned p) ->
  p = fname +++ ".decomp".
Proof.
  intros H. destruct (stale (fs w) action (fname +++ ".decomp")) eqn:Hst.
  - destruct (Decompress._compression_module self fname) as [module|e] eqn:Hm.
    + rewrite (decompress_resolved lib self fname action w module Hst Hm) in H.
      apply bind_returned_inv in H as (w5 & [] & _ & Hret).
      unfold ret in Hret. now inversion Hret.
    + rewrite (decompress_unresolved lib self fname action w e Hst Hm) in H.
      discriminate.
  - rewrite (decompress_hit lib self fname action w Hst) in H. now inversion H.
Qed.

(** C3.  For every call of [Decompress]: a returned path is the input
    path with [.decomp] appended; with the action [fetch] and the output
    file in place the call returns that path and changes nothing (no
    decompression); otherwise, when the call returns, the method resolved
    to a module, the input is a regular file whose stream decodes to the
    end, and the output file holds the decoded bytes; and it does return
    with that result when the method resolves, the input is a regular
    file whose stream decodes to the end, the output path is no
    directory and no write fails. *)
Theorem decompress_policy lib self fname action (w : world) :
  (forall w' p,
     Decompress.__call__ lib self fname action w = (w', Returned p) ->
     p = fname +++ ".decomp") /\
  (action = "fetch" -> OS.exists_in (fs w) (fname +++ ".decomp") = true ->
   Decompress.__call__ lib self fname action w =
   (w, Returned (fname +++ ".decomp"))) /\
  (action = "download" \/ action = "update" \/
   OS.exists_in (fs w) (fname +++ ".decomp") = false ->
   (forall w' p,
      Decompress.__call__ lib self fname action w = (w', Returned p) ->
      exists module data plain,
        Decompress._compression_module self fname = Returned module /\
        file_at (fs w) (Path.components fname) = Some data /\
        decode lib module data = (plain, true) /\
        file_at (fs w') (Path.components (fname +++ ".decomp")) = Some plain) /\
   (forall module data plain,
      Decompress._compression_module self fname = Returned module ->
      is_file (fs w) fname = true ->
      file_at (fs w) (Path.components fname) = Some data ->
      decode lib module data = (plain, true) ->
      dir_at (fs w) (Path.components (fname +++ ".decomp")) = false ->
      faults w = [] ->
      exists w',
        Decompress.__call__ lib self fname action w =
        (w', Returned (fname +++ ".decomp")) /\
        file_at (fs w') (Path.components (fname +++ ".decomp")) = Some plain)).
Proof.
  split; [|split].
  - intros w' p. apply decompress_path.
  - intros -> Hex. apply decompress_hit. rewrite stale_fetch, Hex. reflexivity.
  - intros Hst. apply stale_iff in Hst. split.
    + intros w' p. now apply decompress_returned.
    + intros module data plain Hm Hfile Hdata Hdec Hnd Hf.
      destruct (decompress_runs lib self fname action w module data plain true
                  Hst Hm Hfile Hdata Hnd Hf Hdec) as (root & Hc & Hres & _).
      eexists. split; [exact Hc | exact Hres].
Qed.

Lemma decompress_policy_witness :
  exists w',
    Decompress.__call__ sample_lib (Decompress.__init__ "auto")
      "store/values.csv.gz" "download" sample_world =
    (w', Returned "store/values.csv.gz.decomp") /\
    file_at (fs w') (Path.components "store/values.csv.gz.decomp") =
    Some ["4"%byte; "2"%byte].
Proof.
  destruct (decompress_policy sample_lib (Decompress.__init__ "auto")
              "store/values.csv.gz" "download" sample_world) as (_ & _ & H).
  destruct (H (or_introl eq_refl)) as [_ H'].
  apply (H' gzip ["G"%byte; "4"%byte; "2"%byte] ["4"%byte; "2"%byte]);
    reflexivity.
Defined.

(** C10.  For a method name that is neither [auto] nor a key of
    [modules]: the constructor keeps the name as it is, without a check;
    a call with the action [fetch] on an existing output file returns the
    output path and changes nothing; and a call that has to decompress
    emits the warning and raises the [ValueError] that quotes the name
    and the four valid ones, before any file is opened. *)
Theorem invalid_method_seen_late lib method fname (w : world) :
  method <> "auto" ->
  Decompress.dict_in method Decompress.modules = false ->
  Decompress.method (Decompress.__init__ method) = method /\
  (OS.exists_in (fs w) (fname +++ ".decomp") = true ->
   Decompress.__call__ lib (Decompress.__init__ method) fname "fetch" w =
   (w, Returned (fname +++ ".decomp"))) /\
  (forall action,
     action = "download" \/ action = "update" \/
     OS.exists_in (fs w) (fname +++ ".decomp") = false ->
     Decompress.__call__ lib (Decompress.__init__ method) fname action w =
     (World (fs w)
            (log w ++ [decompress_warning (Decompress.__init__ method) fname])
            (faults w),
      Raised (ValueError
                ("Invalid compression method '" +++ method
                 +++ "'. Must be one of '['lzma', 'xz', 'gzip', 'bzip2']'.")))).
Proof.
  intros Hauto Hbad. split; [reflexivity|]. split.
  - intros Hex. apply decompress_hit. rewrite stale_fetch, Hex. reflexivity.
  - intros action Hst. apply stale_iff in Hst.
    apply decompress_unresolved; [exact Hst|].
    unfold Decompress._compression_module. simpl Decompress.method.
    apply String.eqb_neq in Hauto. rewrite Hauto, Hbad. reflexivity.
Qed.

Lemma invalid_method_seen_late_witness :
  Decompress.method (Decompress.__init__ "zip") = "zip" /\
  (OS.exists_in (fs decompressed_world) ("store/values.csv.gz" +++ ".decomp") = true ->
   Decompress.__call__ sample_lib (Decompress.__init__ "zip")
     "store/values.csv.gz" "fetch" decompressed_world =
   (decompressed_world, Returned ("store/values.csv.gz" +++ ".decomp"))) /\
  (forall action,
     action = "download" \/ action = "update" \/
     OS.exists_in (fs decompressed_world) ("store/values.csv.gz" +++ ".decomp") = false ->
     Decompress.__call__ sample_lib (Decompress.__init__ "zip")
       "store/values.csv.gz" action decompressed_world =
     (World (fs decompressed_world)
            (log decompressed_world ++
             [decompress_warning (Decompress.__init__ "zip") "store/values.csv.gz"])
            (faults decompressed_world),
      Raised (ValueError
                ("Invalid compression method '" +++ "zip"
                 +++ "'. Must be one of '['lzma', 'xz', 'gzip', 'bzip2']'.")))).
Proof.
  apply (invalid_method_seen_late sample_lib "zip" "store/values.csv.gz"
           decompressed_world).
  - discriminate.
  - reflexivity.
Defined.

(** C6, as the code has it.  When [Decompress] does its work, the method
    resolves, the input is a regular file and the output path is no
    directory (the output file may be there already, with any content):
    the output is opened first, created or truncated and never refused
    for being there, then the input is opened as a compressed stream of
    the resolved module, the whole decoded stream is copied to the
    output buffer by buffer, and both are closed; the output then holds
    the decoded bytes and nothing of what it held before. *)
Theorem decompress_truncates_output lib self fname action (w : world)
      (module : pymodule) (data plain : bytes) :
  action = "download" \/ action = "update" \/
  OS.exists_in (fs w) (fname +++ ".decomp") = false ->
  Decompress._compression_module self fname = Returned module ->
  is_file (fs w) fname = true ->
  file_at (fs w) (Path.components fname) = Some data ->
  decode lib module data = (plain, true) ->
  dir_at (fs w) (Path.components (fname +++ ".decomp")) = false ->
  faults w = [] ->
  exists w',
    Decompress.__call__ lib self fname action w =
    (w', Returned (fname +++ ".decomp")) /\
    file_at (fs w') (Path.components (fname +++ ".decomp")) = Some plain /\
    news w w' = [decompress_warning self fname;
                 Opened (HOutput (fname +++ ".decomp"));
                 Opened (HCompressed fname);
                 Closed (HCompressed fname);
                 Closed (HOutput (fname +++ ".decomp"))] /\
    touches [Path.components (fname +++ ".decomp")] w w'.
Proof.
  intros Hst Hm Hfile Hdata Hdec Hnd Hf. apply stale_iff in Hst.
  destruct (decompress_runs lib self fname action w module data plain true
              Hst Hm Hfile Hdata Hnd Hf Hdec) as (root & Hc & Hres & Hsame).
  eexists. split; [exact Hc|]. simpl. split; [exact Hres|]. split.
  - apply news_app. reflexivity.
  - exact Hsame.
Qed.

Lemma decompress_truncates_output_witness :
  exists w',
    Decompress.__call__ sample_lib (Decompress.__init__ "auto")
      "store/values.csv.gz" "update" decompressed_world =
    (w', Returned ("store/values.csv.gz" +++ ".decomp")) /\
    file_at (fs w') (Path.components ("store/values.csv.gz" +++ ".decomp")) =
    Some ["4"%byte; "2"%byte] /\
    news decompressed_world w' =
    [decompress_warning (Decompress.__init__ "auto") "store/values.csv.gz";
     Opened (HOutput ("store/values.csv.gz" +++ ".decomp"));
     Opened (HCompressed "store/values.csv.gz");
     Closed (HCompressed "store/values.csv.gz");
     Closed (HOutput ("store/values.csv.gz" +++ ".decomp"))] /\
    touches [Path.components ("store/values.csv.gz" +++ ".decomp")]
            decompressed_world w'.
Proof.
  apply (decompress_truncates_output sample_lib (Decompress.__init__ "auto")
           "store/values.csv.gz" "update" decompressed_world gzip
           ["G"%byte; "4"%byte; "2"%byte] ["4"%byte; "2"%byte]);
    try reflexivity.
  right. left. reflexivity.
Defined.

(** C6, as it is stated, fails: with the output file in place and the
    action [download], the open of the output does not fail for the file
    being there; the call returns and the old content is gone. *)
Lemma exclusive_open_refuted :
  OS.exists_in (fs decompressed_world) "store/values.csv.gz.decomp" = true /\
  file_at (fs decompressed_world) (Path.components "store/values.csv.gz.decomp") =
  Some ["o"%byte; "l"%byte; "d"%byte] /\
  snd (Decompress.__call__ sample_lib (Decompress.__init__ "auto")
         "store/values.csv.gz" "download" decompressed_world) =
  Returned "store/values.csv.gz.decomp" /\
  snd (Decompress.__call__ sample_lib (Decompress.__init__ "auto")
         "store/values.csv.gz" "download" decompressed_world) <>
  Raised (OSError EEXIST) /\
  file_at (fs (fst (Decompress.__call__ sample_lib (Decompress.__init__ "auto")
                      "store/values.csv.gz" "download" decompressed_world)))
          (Path.components "store/values.csv.gz.decomp") =
  Some ["4"%byte; "2"%byte].
Proof.
  repeat split; try (vm_compute; reflexivity).
  vm_compute. discriminate.
Qed.

(* ================================================================== *)
(** * The member streams of [Untar] *)
(* ================================================================== *)

Lemma neutral_nil : neutral [].
Proof. intros held rest. reflexivity. Qed.

Lemma neutral_app (a b : list event) : neutral a -> neutral b -> neutral (a ++ b).
Proof. intros Ha Hb held rest. now rewrite <- app_assoc, Ha, Hb. Qed.

Lemma balanced_nil : balanced [].
Proof. intros rest. reflexivity. Qed.

Lemma balanced_app (a b : list event) : balanced a -> balanced b -> balanced (a ++ b).
Proof. intros Ha Hb rest. now rewrite <- app_assoc, Ha, Hb. Qed.

Lemma neutral_balanced (evs : list event) : neutral evs -> balanced evs.
Proof. intros H rest. apply H. Qed.

Lemma neutral_output (path : string) :
  neutral [Opened (HOutput path)] /\ neutral [Closed (HOutput path)].
Proof. split; intros held rest; reflexivity. Qed.

Lemma neutral_archive (fname : string) :
  neutral [Opened (HArchive fname)] /\ neutral [Closed (HArchive fname)].
Proof. split; intros held rest; reflexivity. Qed.

Lemma balanced_warn (msg : string) : balanced [Warn msg].
Proof. intros rest. reflexivity. Qed.

(** A member stream that is opened, used without touching the member
    streams, and closed. *)
Lemma balanced_member (msg member : string) (evs : list event) :
  neutral evs ->
  balanced ([Warn msg; Opened (HMember member)] ++ evs ++ [Closed (HMember member)]).
Proof.
  intros H rest. simpl. rewrite <- app_assoc, H. simpl.
  now rewrite String.eqb_refl.
Qed.

Lemma try_finally_world {A} (body : M A) (cleanup : M unit) (w : world) :
  fst (try_finally body cleanup w) = fst (cleanup (fst (body w))).
Proof.
  unfold try_finally. destruct (body w) as [w1 r]. simpl.
  now destruct (cleanup w1) as [w2 [u|e]].
Qed.

Lemma raise_world {A} (e : exn) (w : world) : fst (@raise A e w) = w.
Proof. reflexivity. Qed.

Lemma close_log (h : handle) (w : world) :
  log (fst (OS.close h w)) = log w ++ [Closed h].
Proof. reflexivity. Qed.

Lemma open_write_raised (path : string) (w w1 : world) (e : exn) :
  OS.open_write path w = (w1, Raised e) -> w1 = w.
Proof.
  unfold OS.open_write.
  destruct (path =? "")%string; [now inversion 1|].
  destruct (Path.wants_dir path); [now inversion 1|].
  assert (G : match Tree.store (fs w) (Path.components path) (File []) with
              | Some root =>
                  (World root (log w ++ [Opened (HOutput path)]) (faults w),
                   Returned (HOutput path))
              | None =>
                  if Tree.blocked (fs w) (Path.components path)
                  then (w, Raised (OSError ENOTDIR))
                  else (w, Raised (OSError ENOENT))
              end = (w1, Raised e) -> w1 = w).
  { destruct (Tree.store (fs w) (Path.components path) (File []));
      [discriminate|].
    destruct (Tree.blocked (fs w) (Path.components path)); now inversion 1. }
  destruct (Tree.lookup (fs w) (Path.components path)) as [[d|es]|];
    [exact G | now inversion 1 | exact G].
Qed.

(** [with open(path, "wb") as output: body]: the output is opened and
    closed around a body that leaves the member streams alone. *)
Lemma save_neutral (path : string) (body : M unit) :
  keeps (adds neutral) body ->
  keeps (adds neutral)
        (output <- OS.open_write path ;; try_finally body (OS.close output)).
Proof.
  intros Hb w. unfold bind.
  destruct (OS.open_write path w) as [w1 [h|e]] eqn:O.
  - destruct (open_write_returned _ _ _ _ O) as (-> & _ & L1 & _).
    rewrite try_finally_world.
    destruct (Hb w1) as (evs & L & N).
    exists ([Opened (HOutput path)] ++ evs ++ [Closed (HOutput path)]). split.
    + rewrite close_log, L, L1, <- !app_assoc. reflexivity.
    + apply neutral_app; [apply neutral_output|].
      apply neutral_app; [exact N | apply neutral_output].
  - apply open_write_raised in O. subst w1. simpl.
    apply adds_refl. apply neutral_nil.
Qed.

Lemma untar_member_balanced ar fname extract_dir member :
  keeps (adds balanced) (untar_member ar fname extract_dir member).
Proof.
  intros w. unfold untar_member, warn. rewrite bind_emit.
  set (msg := "Extracting '" +++ member +++ "' from '" +++ fname
              +++ "' to '" +++ extract_dir +++ "'").
  set (w1 := World (fs w) (log w ++ [Warn msg]) (faults w)).
  unfold Archive.extractfile.
  destruct (Archive.getmember member ar) as [[data|]|].
  - rewrite bind_assoc, bind_emit, bind_ret.
    set (w2 := World (fs w1) (log w1 ++ [Opened (HMember member)]) (faults w1)).
    rewrite try_finally_world.
    destruct (save_neutral (Path.join extract_dir member)
                (OS.write (Path.join extract_dir member) data)
                (keeps_adds_write neutral neutral_nil _ _) w2)
      as (evs & L & N).
    exists ([Warn msg; Opened (HMember member)] ++ evs ++ [Closed (HMember member)]).
    split.
    + rewrite close_log, L. simpl. rewrite <- !app_assoc. reflexivity.
    + now apply balanced_member.
  - rewrite bind_ret. rewrite try_finally_world.
    destruct (save_neutral (Path.join extract_dir member)
                (raise (AttributeError "'NoneType' object has no attribute 'read'"))
                (keeps_raise (adds neutral) (adds_refl neutral neutral_nil) _) w1)
      as (evs & L & N).
    exists ([Warn msg] ++ evs). split.
    + rewrite raise_world, L. simpl. rewrite <- app_assoc. reflexivity.
    + apply balanced_app; [apply balanced_warn | now apply neutral_balanced].
  - unfold raise, bind. simpl. exists [Warn msg]. split; [reflexivity|].
    apply balanced_warn.
Qed.

Lemma untar_members_balanced lib members fname extract_dir :
  keeps (adds balanced)
        (Untar._extract_file lib (Some members) fname extract_dir).
Proof.
  pose proof (adds_refl balanced balanced_nil) as Hrefl.
  pose proof (adds_trans balanced balanced_app) as Htrans.
  unfold Untar._extract_file, Archive.with_archive.
  apply keeps_bind; [exact Htrans | |].
  - apply keeps_adds_read_file. apply balanced_nil.
  - intros data. destruct (tar_read lib data) as [ar|].
    + apply keeps_bind; [exact Htrans | |].
      * apply keeps_adds_emit. apply neutral_balanced, neutral_archive.
      * intros _. apply keeps_try_finally; [exact Htrans | |].
        -- apply keeps_for_each; [exact Hrefl | exact Htrans |].
           intros member _. apply untar_member_balanced.
        -- apply keeps_adds_emit. apply neutral_balanced, neutral_archive.
    + now apply keeps_raise.
Qed.

(** Under the discipline every member stream that is opened is closed. *)
Lemma discipline_closes (evs : list event) :
  forall held, discipline held evs = true ->
  (forall m, held = Some m -> In (Closed (HMember m)) evs) /\
  (forall m, In (Opened (HMember m)) evs -> In (Closed (HMember m)) evs).
Proof.
  induction evs as [|ev evs IH]; intros held H.
  - destruct held; [discriminate|]. split; [discriminate | contradiction].
  - destruct ev as [msg|h|h|f d]; simpl in H.
    + destruct held as [m'|]; [discriminate|].
      destruct (IH None H) as [_ I2]. split; [discriminate|].
      intros m [E|Hin]; [discriminate | right; now apply I2].
    + destruct h as [f|m0|p|f];
        try (destruct (IH held H) as [I1 I2]; split;
             [intros m Hm; right; now apply I1
             |intros m [E|Hin]; [discriminate | right; now apply I2]]).
      destruct held as [m'|]; [discriminate|].
      destruct (IH (Some m0) H) as [I1 I2]. split; [discriminate|].
      intros m [E|Hin].
      * inversion E; subst. right. now apply I1.
      * right. now apply I2.
    + destruct h as [f|m0|p|f];
        try (destruct (IH held H) as [I1 I2]; split;
             [intros m Hm; right; now apply I1
             |intros m [E|Hin]; [discriminate | right; now apply I2]]).
      destruct held as [m'|]; [|discriminate].
      apply andb_true_iff in H as [E H]. apply String.eqb_eq in E. subst m0.
      destruct (IH None H) as [_ I2]. split.
      * intros m Hm. inversion Hm; subst. now left.
      * intros m [E|Hin]; [discriminate | right; now apply I2].
    + destruct (IH held H) as [I1 I2]. split.
      * intros m Hm. right. now apply I1.
      * intros m [E|Hin]; [discriminate | right; now apply I2].
Qed.

(** C8.  In the member-restricted extraction of [Untar], whatever the
    outcome of the call (a return, a missing member, a failed open or
    write of an output file): the events of the call obey the discipline
    of the member streams, so a stream is closed before the work on the
    next member starts and none is open at the end; and every member
    stream that was opened has been closed. *)
Theorem untar_closes_member_streams lib members fname extract_dir (w : world) :
  discipline None
    (news w (fst (Untar._extract_file lib (Some members) fname extract_dir w)))
  = true /\
  forall member,
    In (Opened (HMember member))
       (news w (fst (Untar._extract_file lib (Some members) fname extract_dir w))) ->
    In (Closed (HMember member))
       (news w (fst (Untar._extract_file lib (Some members) fname extract_dir w))).
Proof.
  destruct (adds_news _ _ _ (untar_members_balanced lib members fname extract_dir w))
    as [_ B].
  assert (D : discipline None
                (news w (fst (Untar._extract_file lib (Some members) fname
                                extract_dir w))) = true).
  { specialize (B []). now rewrite app_nil_r in B. }
  split; [exact D|]. apply (discipline_closes _ None D).
Qed.

Lemma untar_closes_member_streams_witness :
  In (Closed (HMember "a.txt"))
     (news full_disk_world
        (fst (Untar._extract_file sample_lib (Some ["a.txt"; "b.txt"])
                "store/data.tar" "store" full_disk_world))).
Proof.
  apply (untar_closes_member_streams sample_lib ["a.txt"; "b.txt"]
           "store/data.tar" "store" full_disk_world).
  vm_compute. right. right. left. reflexivity.
Defined.

(** The stream of a member is closed when the write of its bytes fails. *)
Example untar_closes_after_failed_write :
  Untar._extract_file sample_lib (Some ["a.txt"; "b.txt"])
    "store/data.tar" "store" full_disk_world =
  (World (Dir [("store",
                Dir [("data.zip", File ["Z"%byte]);
                     ("data.tar", File ["T"%byte]);
                     ("values.csv.gz", File ["G"%byte; "4"%byte; "2"%byte]);
                     ("a.txt", File [])])])
         [Opened (HArchive "store/data.tar");
          Warn "Extracting 'a.txt' from 'store/data.tar' to 'store'";
          Opened (HMember "a.txt");
          Opened (HOutput "store/a.txt");
          Closed (HOutput "store/a.txt");
          Closed (HMember "a.txt");
          Closed (HArchive "store/data.tar")]
         [],
   Raised (OSError ENOSPC)).
Proof. vm_compute. reflexivity. Qed.

(* ================================================================== *)
(** * The extraction of named members *)
(* ================================================================== *)

Ltac keeps_touches :=
  repeat
    match goal with
    | |- keeps _ (bind _ _) => apply keeps_bind; [apply touches_trans | | intros ?]
    | |- keeps _ (try_finally _ _) =>
        apply keeps_try_finally; [apply touches_trans | |]
    | |- keeps _ (ret _) => apply keeps_ret; apply touches_refl
    | |- keeps _ (raise _) => apply keeps_raise; apply touches_refl
    | |- keeps _ (emit _) => apply keeps_touches_silent; reflexivity
    | |- keeps _ (OS.open_write _) => apply keeps_touches_open_write; now left
    | |- keeps _ (OS.write _ _) => apply keeps_touches_write; now left
    | |- keeps _ (match ?x with Some _ => _ | None => _ end) => destruct x
    end.

(** ** One member *)

Lemma unzip_member_touches ar fname extract_dir member :
  keeps (touches [target extract_dir member])
        (unzip_member ar fname extract_dir member).
Proof.
  unfold unzip_member, target, warn, OS.close, Archive.zip_open.
  destruct (Archive.getmember member ar); keeps_touches.
Qed.

Lemma untar_member_touches ar fname extract_dir member :
  keeps (touches [target extract_dir member])
        (untar_member ar fname extract_dir member).
Proof.
  unfold untar_member, target, warn, OS.close, Archive.extractfile.
  destruct (Archive.getmember member ar) as [[data|]|]; keeps_touches.
Qed.

(** [with open(path, "wb") as output: output.write(data)] when it
    returns. *)
Lemma save_returned (path : string) (data : bytes) (w w' : world) :
  (output <- OS.open_write path ;;
   try_finally (OS.write path data) (OS.close output)) w = (w', Returned tt) ->
  file_at (fs w') (Path.components path) = Some data.
Proof.
  intros H. apply bind_returned_inv in H as (w1 & h & O & H).
  destruct (open_write_returned _ _ _ _ O) as (_ & Hout & _ & _).
  apply try_finally_returned in H as (w2 & u & W & C).
  destruct (write_returned _ _ _ _ W) as (old & Ho & Hn & _).
  rewrite Hout in Ho. inversion Ho; subst old.
  unfold OS.close, emit in C. inversion C; subst w'. exact Hn.
Qed.

(** The same when the directory is there, the path is no directory and
    no write fails. *)
Lemma save_ok (path : string) (data : bytes) (w : world)
      (parent : list string) (c : string) :
  (path =? "")%string = false -> Path.wants_dir path = false ->
  Path.components path = parent ++ [c] ->
  dir_at (fs w) parent = true ->
  dir_at (fs w) (Path.components path) = false ->
  faults w = [] ->
  exists w',
    (output <- OS.open_write path ;;
     try_finally (OS.write path data) (OS.close output)) w = (w', Returned tt) /\
    faults w' = [].
Proof.
  intros He Hw Hc Hp Hd Hf.
  destruct (open_write_ok path w parent c He Hw Hc Hp Hd) as (root1 & S1 & O1).
  rewrite (bind_returned _ _ _ _ _ O1).
  set (w1 := World root1 _ _).
  assert (Hout : file_at (fs w1) (Path.components path) = Some []).
  { unfold file_at. simpl. now rewrite (store_lookup _ _ _ _ S1). }
  destruct (write_ok path data [] w1 Hf Hout) as (root2 & S2 & W2).
  unfold try_finally. rewrite W2. unfold OS.close, emit. simpl.
  eexists. split; reflexivity.
Qed.

Lemma unzip_member_returned ar fname extract_dir member (w w' : world) :
  unzip_member ar fname extract_dir member w = (w', Returned tt) ->
  exists e data,
    Archive.getmember member ar = Some e /\
    member_stream ExtractorProcessor.UnzipClass e = Some data /\
    file_at (fs w') (target extract_dir member) = Some data.
Proof.
  unfold unzip_member, warn. rewrite bind_emit. unfold Archive.zip_open.
  destruct (Archive.getmember member ar) as [e|]; [|discriminate].
  rewrite bind_assoc, bind_emit, bind_ret. intros H.
  apply try_finally_returned in H as (w2 & u & H & C).
  apply save_returned in H.
  unfold OS.close, emit in C. inversion C; subst w'. simpl.
  exists e. eexists. split; [reflexivity|]. split; [|exact H].
  now destruct e.
Qed.

Lemma untar_member_returned ar fname extract_dir member (w w' : world) :
  untar_member ar fname extract_dir member w = (w', Returned tt) ->
  exists e data,
    Archive.getmember member ar = Some e /\
    member_stream ExtractorProcessor.UntarClass e = Some data /\
    file_at (fs w') (target extract_dir member) = Some data.
Proof.
  unfold untar_member, warn. rewrite bind_emit. unfold Archive.extractfile.
  destruct (Archive.getmember member ar) as [[data|]|]; [| |discriminate].
  - rewrite bind_assoc, bind_emit, bind_ret. intros H.
    apply try_finally_returned in H as (w2 & u & H & C).
    apply save_returned in H.
    unfold OS.close, emit in C. inversion C; subst w'. simpl.
    exists (Regular data), data. auto.
  - rewrite bind_ret. intros H.
    apply try_finally_returned in H as (w2 & u & _ & C). discriminate.
Qed.

Lemma unzip_member_missing ar fname extract_dir member (w : world) :
  Archive.getmember member ar = None ->
  exists w',
    unzip_member ar fname extract_dir member w = (w', Raised (KeyError member)) /\
    fs w' = fs w.
Proof.
  intros G. unfold unzip_member, warn. rewrite bind_emit.
  unfold Archive.zip_open. rewrite G. eexists. split; reflexivity.
Qed.

Lemma untar_member_missing ar fname extract_dir member (w : world) :
  Archive.getmember member ar = None ->
  exists w',
    untar_member ar fname extract_dir member w = (w', Raised (KeyError member)) /\
    fs w' = fs w.
Proof.
  intros G. unfold untar_member, warn. rewrite bind_emit.
  unfold Archive.extractfile. rewrite G. eexists. split; reflexivity.
Qed.

Lemma unzip_member_ok ar fname extract_dir member (data : bytes) (w : world) :
  plain member = true ->
  Archive.getmember member ar = Some (Regular data) ->
  dir_at (fs w) (Path.components extract_dir) = true ->
  dir_at (fs w) (target extract_dir member) = false ->
  faults w = [] ->
  exists w',
    unzip_member ar fname extract_dir member w = (w', Returned tt) /\
    faults w' = [].
Proof.
  intros Hp G Hd Ht Hf.
  destruct (join_plain extract_dir member Hp) as (Hc & Hw & Hne).
  unfold unzip_member, warn. rewrite bind_emit. unfold Archive.zip_open.
  rewrite G. rewrite bind_assoc, bind_emit, bind_ret.
  set (w2 := World _ _ _).
  destruct (save_ok (Path.join extract_dir member) data w2
              (Path.components extract_dir) member Hne Hw Hc Hd Ht Hf)
    as (w3 & S & Hf3).
  unfold try_finally at 1. rewrite S. unfold OS.close, emit. simpl.
  eexists. split; [reflexivity | exact Hf3].
Qed.

Lemma untar_member_ok ar fname extract_dir member (data : bytes) (w : world) :
  plain member = true ->
  Archive.getmember member ar = Some (Regular data) ->
  dir_at (fs w) (Path.components extract_dir) = true ->
  dir_at (fs w) (target extract_dir member) = false ->
  faults w = [] ->
  exists w',
    untar_member ar fname extract_dir member w = (w', Returned tt) /\
    faults w' = [].
Proof.
  intros Hp G Hd Ht Hf.
  destruct (join_plain extract_dir member Hp) as (Hc & Hw & Hne).
  unfold untar_member, warn. rewrite bind_emit. unfold Archive.extractfile.
  rewrite G. rewrite bind_assoc, bind_emit, bind_ret.
  set (w2 := World _ _ _).
  destruct (save_ok (Path.join extract_dir member) data w2
              (Path.components extract_dir) member Hne Hw Hc Hd Ht Hf)
    as (w3 & S & Hf3).
  unfold try_finally at 1. rewrite S. unfold OS.close, emit. simpl.
  eexists. split; [reflexivity | exact Hf3].
Qed.

(** ** One member, by class *)

Lemma member_step_touches c ar fname extract_dir member :
  keeps (touches [target extract_dir member])
        (member_step c ar fname extract_dir member).
Proof.
  destruct c; simpl.
  - apply keeps_raise. apply touches_refl.
  - apply unzip_member_touches.
  - apply untar_member_touches.
Qed.

Lemma member_step_returned c ar fname extract_dir member (w w' : world) :
  member_step c ar fname extract_dir member w = (w', Returned tt) ->
  exists e data,
    Archive.getmember member ar = Some e /\
    member_stream c e = Some data /\
    file_at (fs w') (target extract_dir member) = Some data.
Proof.
  destruct c; simpl.
  - discriminate.
  - apply unzip_member_returned.
  - apply untar_member_returned.
Qed.

Lemma member_step_missing c ar fname extract_dir member (w : world) :
  c <> ExtractorProcessor.BaseClass ->
  Archive.getmember member ar = None ->
  exists w',
    member_step c ar fname extract_dir member w = (w', Raised (KeyError member)) /\
    fs w' = fs w.
Proof.
  destruct c; simpl; intros Hc.
  - contradiction.
  - apply unzip_member_missing.
  - apply untar_member_missing.
Qed.

Lemma member_step_ok c ar fname extract_dir member (data : bytes) (w : world) :
  c <> ExtractorProcessor.BaseClass ->
  plain member = true ->
  Archive.getmember member ar = Some (Regular data) ->
  dir_at (fs w) (Path.components extract_dir) = true ->
  dir_at (fs w) (target extract_dir member) = false ->
  faults w = [] ->
  exists w',
    member_step c ar fname extract_dir member w = (w', Returned tt) /\
    faults w' = [].
Proof.
  destruct c; simpl; intros Hc.
  - contradiction.
  - apply unzip_member_ok.
  - apply untar_member_ok.
Qed.

(** ** The loop *)

Lemma touches_mono (T T' : list (list string)) (w w' : world) :
  incl T T' -> touches T w w' -> touches T' w w'.
Proof.
  intros Hi [D F]. split; [exact D|].
  intros q Hq. apply F. intros Hin. apply Hq, Hi, Hin.
Qed.

Lemma bind_ext {A B} (m : M A) (f g : A -> M B) (w : world) :
  (forall v w1, f v w1 = g v w1) -> bind m f w = bind m g w.
Proof.
  intros H. unfold bind. destruct (m w) as [w1 [v|e]]; [apply H | reflexivity].
Qed.

Lemma for_each_app {A} (xs ys : list A) (body : A -> M unit) (w : world) :
  for_each (xs ++ ys) body w = (for_each xs body ;;; for_each ys body) w.
Proof.
  revert w. induction xs as [|x xs IH]; intros w; simpl.
  - reflexivity.
  - rewrite bind_assoc. apply bind_ext. intros _ w1. apply IH.
Qed.

Lemma loop_touches c ar fname extract_dir (members : list string) :
  keeps (touches (map (target extract_dir) members))
        (for_each members (member_step c ar fname extract_dir)).
Proof.
  apply keeps_for_each; [apply touches_refl | apply touches_trans |].
  intros member Hin w.
  apply (touches_mono [target extract_dir member]).
  - intros q [<-|[]]. now apply in_map.
  - apply member_step_touches.
Qed.


(** The same, member by member: each named member is in the archive, and
    the file at its place holds the bytes of the last name of that
    place. *)
Lemma loop_returned_last c ar fname extract_dir (members : list string) :
  forall (w w' : world),
    for_each members (member_step c ar fname extract_dir) w = (w', Returned tt) ->
    forall member, In member members ->
    (exists e content,
       Archive.getmember member ar = Some e /\
       member_stream c e = Some content) /\
    exists pre last post e content,
      members = pre ++ last :: post /\
      target extract_dir last = target extract_dir member /\
      (forall later, In later post ->
         target extract_dir later <> target extract_dir member) /\
      Archive.getmember last ar = Some e /\
      member_stream c e = Some content /\
      file_at (fs w') (target extract_dir member) = Some content.
Proof.
  induction members as [|x xs IH] using rev_ind; intros w w' H member Hin;
    [contradiction|].
  rewrite for_each_app in H. apply bind_returned_inv in H as (w1 & [] & Hxs & Hx).
  simpl in Hx. apply bind_returned_inv in Hx as (w2 & [] & Hx & Hr).
  unfold ret in Hr. inversion Hr; subst w2. clear Hr.
  destruct (member_step_returned _ _ _ _ _ _ _ Hx) as (e & data & G & S & F).
  pose proof (member_step_touches c ar fname extract_dir x w1) as [_ Fr].
  rewrite Hx in Fr. simpl in Fr.
  destruct (list_eq_dec string_dec (target extract_dir x)
                        (target extract_dir member)) as [Eq|Ne].
  - split.
    + apply in_app_or in Hin as [Hin|[<-|[]]].
      * now destruct (IH w w1 Hxs member Hin) as [Own _].
      * now exists e, data.
    + exists xs, x, [], e, data. repeat split; try assumption.
      * intros later [].
      * rewrite <- Eq. exact F.
  - apply in_app_or in Hin as [Hin|[<-|[]]]; [|now contradiction Ne].
    destruct (IH w w1 Hxs member Hin)
      as (Own & pre & last & post & e' & c' & -> & T & Later & G' & S' & F').
    split; [exact Own|].
    exists pre, last, (post ++ [x]), e', c'. repeat split; try assumption.
    + now rewrite <- app_assoc.
    + intros later Hl. apply in_app_or in Hl as [Hl|[<-|[]]];
        [now apply Later | exact Ne].
    + rewrite Fr; [exact F'|]. intros [E|[]]. now apply Ne.
Qed.

(** In a list, the last element of a place is found in one way only. *)
Lemma last_of_place_unique {A B} (f : A -> B) (t : B) (a : list A) :
  forall (a' b b' : list A) (x y : A),
    a ++ x :: b = a' ++ y :: b' ->
    f x = t -> f y = t ->
    (forall z, In z b -> f z <> t) -> (forall z, In z b' -> f z <> t) ->
    x = y.
Proof.
  induction a as [|h a IH]; intros a' b b' x y E Hx Hy Hb Hb'.
  - destruct a' as [|h' a']; simpl in E; inversion E as [[E1 E2]].
    + reflexivity.
    + exfalso. apply (Hb y); [|exact Hy].
      rewrite E2. apply in_or_app. right. now left.
  - destruct a' as [|h' a']; simpl in E; inversion E as [[E1 E2]].
    + exfalso. apply (Hb' x); [|exact Hx].
      rewrite <- E2. apply in_or_app. right. now left.
    + exact (IH a' b b' x y E2 Hx Hy Hb Hb').
Qed.

(** A named member that no later name shadows has its own bytes at its
    place. *)
Lemma loop_returned_own c ar fname extract_dir (members : list string) :
  forall (w w' : world),
    for_each members (member_step c ar fname extract_dir) w = (w', Returned tt) ->
    forall pre member post,
      members = pre ++ member :: post ->
      (forall later, In later post ->
         target extract_dir later <> target extract_dir member) ->
      exists e content,
        Archive.getmember member ar = Some e /\
        member_stream c e = Some content /\
        file_at (fs w') (target extract_dir member) = Some content.
Proof.
  intros w w' H pre member post E Hpost.
  assert (Hin : In member members).
  { rewrite E. apply in_or_app. right. now left. }
  destruct (loop_returned_last c ar fname extract_dir members w w' H member Hin)
    as (_ & pre0 & last & post0 & e & content & E0 & T & Later & G & S & F).
  assert (last = member).
  { rewrite E in E0. symmetry in E0.
    exact (last_of_place_unique (target extract_dir)
             (target extract_dir member) pre0 pre post0 post last member
             E0 T eq_refl Later Hpost). }
  subst last. now exists e, content.
Qed.

Lemma loop_missing c ar fname extract_dir (pre post : list string)
      (member : string) (w w1 : world) :
  c <> ExtractorProcessor.BaseClass ->
  Archive.getmember member ar = None ->
  for_each pre (member_step c ar fname extract_dir) w = (w1, Returned tt) ->
  exists w',
    for_each (pre ++ member :: post) (member_step c ar fname extract_dir) w =
    (w', Raised (KeyError member)) /\
    fs w' = fs w1.
Proof.
  intros Hc G Hpre. rewrite for_each_app, (bind_returned _ _ _ _ _ Hpre).
  destruct (member_step_missing c ar fname extract_dir member w1 Hc G)
    as (w' & Hm & Hfs).
  exists w'. split; [|exact Hfs].
  simpl. now rewrite (bind_raised _ _ _ _ _ Hm).
Qed.

Lemma loop_ok c ar fname extract_dir (members : list string) :
  c <> ExtractorProcessor.BaseClass ->
  forall w : world,
    (forall m, In m members ->
       plain m = true /\
       (exists data, Archive.getmember m ar = Some (Regular data)) /\
       dir_at (fs w) (target extract_dir m) = false) ->
    dir_at (fs w) (Path.components extract_dir) = true ->
    faults w = [] ->
    exists w',
      for_each members (member_step c ar fname extract_dir) w = (w', Returned tt) /\
      faults w' = [].
Proof.
  intros Hc. induction members as [|x xs IH]; intros w Hall Hd Hf.
  - exists w. split; [reflexivity | exact Hf].
  - destruct (Hall x (or_introl eq_refl)) as (Hp & (data & G) & Ht).
    destruct (member_step_ok c ar fname extract_dir x data w Hc Hp G Hd Ht Hf)
      as (w1 & Hx & Hf1).
    pose proof (member_step_touches c ar fname extract_dir x w) as [D _].
    rewrite Hx in D. simpl in D.
    destruct (IH w1) as (w' & Hxs & Hf').
    + intros m Hm. destruct (Hall m (or_intror Hm)) as (P & E & T).
      repeat split; try assumption. now rewrite D.
    + now rewrite D.
    + exact Hf1.
    + exists w'. split; [|exact Hf'].
      simpl. now rewrite (bind_returned _ _ _ _ _ Hx).
Qed.

(** ** The method *)

Lemma try_finally_close {A} (body : M A) (h : handle) (w : world) :
  try_finally body (OS.close h) w =
  (World (fs (fst (body w))) (log (fst (body w)) ++ [Closed h])
         (faults (fst (body w))),
   snd (body w)).
Proof. unfold try_finally. destruct (body w) as [w1 r]. reflexivity. Qed.

(** With a member restriction and an archive that can be read, the method
    of the class opens the archive, runs the loop and closes the
    archive. *)
Lemma self_extract_members lib c members fname extract_dir (w : world)
      (data : bytes) (ar : archive) :
  is_file (fs w) fname = true ->
  file_at (fs w) (Path.components fname) = Some data ->
  reader lib c data = Some ar ->
  ExtractorProcessor.self_extract_file lib
    (ExtractorProcessor.__init__ c (Some members)) fname extract_dir w =
  try_finally
    (for_each members (member_step c ar fname extract_dir))
    (OS.close (HArchive fname))
    (World (fs w) (log w ++ [Opened (HArchive fname)]) (faults w)).
Proof.
  intros Hfile Hdata Hread.
  destruct (is_file_inv _ _ Hfile) as (Hne & Hw & _ & _).
  pose proof (read_file_ok fname data w Hne Hw Hdata) as R.
  unfold ExtractorProcessor.self_extract_file. simpl.
  destruct c; simpl in Hread; [discriminate| |].
  - unfold Unzip._extract_file, Archive.with_archive.
    rewrite (bind_returned _ _ _ _ _ R), Hread, bind_emit. reflexivity.
  - unfold Untar._extract_file, Archive.with_archive.
    rewrite (bind_returned _ _ _ _ _ R), Hread, bind_emit. reflexivity.
Qed.

Lemma reader_not_base lib c data ar :
  reader lib c data = Some ar -> c <> ExtractorProcessor.BaseClass.
Proof. intros H ->. discriminate. Qed.

(** C5, as the code has it.  For [Unzip] and [Untar] with a member
    restriction, on an archive that is a readable regular file:
    - the call changes no directory and no regular file other than those
      at [os.path.join(extract_dir, member)] for the named members (what
      the output directory held before stays as it was);
    - when the call returns, every named member is an entry of the
      archive with a stream of bytes, and the file at its place holds
      the bytes of the last named member of that place, verbatim;
    - so, when the call returns, a named member that no later name
      shares its place with has its own bytes at its place;
    - a name that is not in the archive, reached after the names before it
      were extracted, raises [KeyError] for that name; the names after it
      are not looked at, and the files written before stay;
    - the call returns when the names are plain file names of regular
      members, the output directory is there, no place of a member is a
      directory and no write fails. *)
Theorem member_extraction lib c members fname extract_dir (w : world)
      (data : bytes) (ar : archive) :
  is_file (fs w) fname = true ->
  file_at (fs w) (Path.components fname) = Some data ->
  reader lib c data = Some ar ->
  touches (map (target extract_dir) members) w
    (fst (ExtractorProcessor.self_extract_file lib
            (ExtractorProcessor.__init__ c (Some members)) fname extract_dir w)) /\
  (forall w',
     ExtractorProcessor.self_extract_file lib
       (ExtractorProcessor.__init__ c (Some members)) fname extract_dir w =
     (w', Returned tt) ->
     forall member, In member members ->
     (exists e content,
        Archive.getmember member ar = Some e /\
        member_stream c e = Some content) /\
     exists pre last post e content,
       members = pre ++ last :: post /\
       target extract_dir last = target extract_dir member /\
       (forall later, In later post ->
          target extract_dir later <> target extract_dir member) /\
       Archive.getmember last ar = Some e /\
       member_stream c e = Some content /\
       file_at (fs w') (target extract_dir member) = Some content) /\
  (forall w',
     ExtractorProcessor.self_extract_file lib
       (ExtractorProcessor.__init__ c (Some members)) fname extract_dir w =
     (w', Returned tt) ->
     forall pre member post,
       members = pre ++ member :: post ->
       (forall later, In later post ->
          target extract_dir later <> target extract_dir member) ->
       exists e content,
         Archive.getmember member ar = Some e /\
         member_stream c e = Some content /\
         file_at (fs w') (target extract_dir member) = Some content) /\
  (forall pre member post w_pre,
     members = pre ++ member :: post ->
     Archive.getmember member ar = None ->
     ExtractorProcessor.self_extract_file lib
       (ExtractorProcessor.__init__ c (Some pre)) fname extract_dir w =
     (w_pre, Returned tt) ->
     exists w',
       ExtractorProcessor.self_extract_file lib
         (ExtractorProcessor.__init__ c (Some members)) fname extract_dir w =
       (w', Raised (KeyError member)) /\
       fs w' = fs w_pre) /\
  ((forall member, In member members ->
      plain member = true /\
      (exists content, Archive.getmember member ar = Some (Regular content)) /\
      dir_at (fs w) (target extract_dir member) = false) ->
   dir_at (fs w) (Path.components extract_dir) = true ->
   faults w = [] ->
   exists w',
     ExtractorProcessor.self_extract_file lib
       (ExtractorProcessor.__init__ c (Some members)) fname extract_dir w =
     (w', Returned tt)).
Proof.
  intros Hfile Hdata Hread.
  pose proof (reader_not_base _ _ _ _ Hread) as Hc.
  set (w0 := World (fs w) (log w ++ [Opened (HArchive fname)]) (faults w)).
  assert (Run : forall ms,
            ExtractorProcessor.self_extract_file lib
              (ExtractorProcessor.__init__ c (Some ms)) fname extract_dir w =
            (World (fs (fst (for_each ms (member_step c ar fname extract_dir) w0)))
                   (log (fst (for_each ms (member_step c ar fname extract_dir) w0))
                    ++ [Closed (HArchive fname)])
                   (faults (fst (for_each ms (member_step c ar fname extract_dir) w0))),
             snd (for_each ms (member_step c ar fname extract_dir) w0))).
  { intros ms.
    rewrite (self_extract_members lib c ms fname extract_dir w data ar
               Hfile Hdata Hread).
    apply try_finally_close. }
  split; [|split; [|split; [|split]]].
  - rewrite Run. simpl. apply (loop_touches c ar fname extract_dir members w0).
  - intros w' H member Hin. rewrite Run in H. inversion H as [[Hw' Hr]].
    simpl. apply (loop_returned_last c ar fname extract_dir members w0
                    (fst (for_each members (member_step c ar fname extract_dir) w0))).
    + rewrite <- Hr. apply surjective_run.
    + exact Hin.
  - intros w' H pre member post E Hpost. rewrite Run in H.
    inversion H as [[Hw' Hr]].
    simpl. apply (loop_returned_own c ar fname extract_dir members w0
                    (fst (for_each members (member_step c ar fname extract_dir) w0))
                  ) with (pre := pre) (post := post).
    + rewrite <- Hr. apply surjective_run.
    + exact E.
    + exact Hpost.
  - intros pre member post w_pre -> G Hpre. rewrite Run in Hpre.
    inversion Hpre as [[Hw Hr]].
    assert (Hp : for_each pre (member_step c ar fname extract_dir) w0 =
                 (fst (for_each pre (member_step c ar fname extract_dir) w0),
                  Returned tt)).
    { rewrite <- Hr. apply surjective_run. }
    destruct (loop_missing c ar fname extract_dir pre post member w0 _ Hc G Hp)
      as (w1 & Hm & Hfs).
    rewrite Run, Hm. simpl. eexists. split; [reflexivity | exact Hfs].
  - intros Hall Hd Hf.
    destruct (loop_ok c ar fname extract_dir members Hc w0 Hall Hd Hf)
      as (w1 & Hl & _).
    rewrite Run, Hl. simpl. eexists. reflexivity.
Qed.

Lemma member_extraction_witness :
  exists w',
    ExtractorProcessor.self_extract_file sample_lib
      (ExtractorProcessor.__init__ ExtractorProcessor.UntarClass
         (Some ["a.txt"; "b.txt"]))
      "store/data.tar" "store" sample_world = (w', Returned tt).
Proof.
  destruct (member_extraction sample_lib ExtractorProcessor.UntarClass
              ["a.txt"; "b.txt"] "store/data.tar" "store" sample_world
              ["T"%byte] sample_archive eq_refl eq_refl eq_refl)
    as (_ & _ & _ & _ & H).
  apply H; try reflexivity.
  intros member [<-|[<-|[]]]; (split; [reflexivity|]); (split; [|reflexivity]);
    eexists; reflexivity.
Defined.

(** C5, as it is stated, fails: after a download without member
    restriction has filled the output directory, a download restricted to
    [a.txt] leaves [b.txt] and [sub/c.txt] in the output directory and
    lists them with [a.txt]. *)
Lemma only_named_members_refuted :
  ExtractorProcessor.__call__ sample_lib
    (ExtractorProcessor.__init__ ExtractorProcessor.UnzipClass (Some ["a.txt"]))
    "store/data.zip" "download" unzipped_world =
  (World (Dir [("store",
                Dir [("data.zip", File ["Z"%byte]);
                     ("data.tar", File ["T"%byte]);
                     ("values.csv.gz", File ["G"%byte; "4"%byte; "2"%byte]);
                     ("data.zip.unzip",
                      Dir [("a.txt", File ["a"%byte; "1"%byte]);
                           ("b.txt", File ["b"%byte; "2"%byte]);
                           ("sub", Dir [("c.txt", File ["c"%byte; "3"%byte])])])])])
         (log unzipped_world ++
          [Unpack "store/data.zip" "store/data.zip.unzip";
           Opened (HArchive "store/data.zip");
           Warn "Extracting 'a.txt' from 'store/data.zip' to 'store/data.zip.unzip'";
           Opened (HMember "a.txt");
           Opened (HOutput "store/data.zip.unzip/a.txt");
           Closed (HOutput "store/data.zip.unzip/a.txt");
           Closed (HMember "a.txt");
           Closed (HArchive "store/data.zip")])
         [],
   Returned ["store/data.zip.unzip/a.txt";
             "store/data.zip.unzip/b.txt";
             "store/data.zip.unzip/sub/c.txt"]).
Proof. vm_compute. reflexivity. Qed.

(** A member in a folder of the archive is not written when the output
    directory has no such folder: the open of its output file fails. *)
Example nested_member_is_not_written :
  ExtractorProcessor.__call__ sample_lib
    (ExtractorProcessor.__init__ ExtractorProcessor.UnzipClass (Some ["sub/c.txt"]))
    "store/data.zip" "download" sample_world =
  (World (Dir [("store",
                Dir [("data.zip", File ["Z"%byte]);
                     ("data.tar", File ["T"%byte]);
                     ("values.csv.gz", File ["G"%byte; "4"%byte; "2"%byte]);
                     ("data.zip.unzip", Dir [])])])
         [Unpack "store/data.zip" "store/data.zip.unzip";
          Opened (HArchive "store/data.zip");
          Warn "Extracting 'sub/c.txt' from 'store/data.zip' to 'store/data.zip.unzip'";
          Opened (HMember "sub/c.txt");
          Closed (HMember "sub/c.txt");
          Closed (HArchive "store/data.zip")]
         [],
   Raised (OSError ENOENT)).
Proof. vm_compute. reflexivity. Qed.

(* ================================================================== *)
(** * Well-formed trees and the listing of a directory *)
(* ================================================================== *)

Lemma node_induction (P : node -> Prop) :
  (forall d, P (File d)) ->
  (forall es, Forall (fun e => P (snd e)) es -> P (Dir es)) ->
  forall n, P n.
Proof.
  intros HF HD. fix IH 1. intros [d|es]; [apply HF|].
  apply HD. induction es as [|[k ch] es IHes]; constructor;
    [apply IH | exact IHes].
Qed.

Lemma well_formed_cons (k : string) (ch : node) es :
  well_formed (Dir ((k, ch) :: es)) =
  plain k && negb (has_name k es) && well_formed ch && well_formed (Dir es).
Proof. reflexivity. Qed.

Lemma well_formed_cons_inv (k : string) (ch : node) es :
  well_formed (Dir ((k, ch) :: es)) = true ->
  plain k = true /\ has_name k es = false /\ well_formed ch = true /\
  well_formed (Dir es) = true.
Proof.
  rewrite well_formed_cons, !andb_true_iff, negb_true_iff. tauto.
Qed.

Lemma has_name_get (k : string) es :
  has_name k es = false -> Tree.get k es = None.
Proof.
  unfold has_name, names. induction es as [|[k' n] es IH]; simpl; [reflexivity|].
  intros H. apply orb_false_iff in H as [H1 H2].
  rewrite String.eqb_sym, H1. now apply IH.
Qed.

Lemma well_formed_get (k : string) (ch : node) es :
  well_formed (Dir es) = true -> Tree.get k es = Some ch ->
  plain k = true /\ well_formed ch = true.
Proof.
  induction es as [|[k' n] es IH]; intros W G; [discriminate|].
  apply well_formed_cons_inv in W as (Hp & _ & Hc & Hr).
  simpl in G. destruct (k' =? k)%string eqn:E.
  - apply String.eqb_eq in E. subst k'. inversion G; subst. auto.
  - now apply IH.
Qed.

(** In a well-formed directory an entry is found under its name. *)
Lemma well_formed_in_get (k : string) (ch : node) es :
  well_formed (Dir es) = true -> In (k, ch) es -> Tree.get k es = Some ch.
Proof.
  induction es as [|[k' n] es IH]; intros W Hin; [contradiction|].
  apply well_formed_cons_inv in W as (Hp & Hn & Hc & Hr).
  destruct Hin as [E|Hin].
  - inversion E; subst. simpl. now rewrite String.eqb_refl.
  - simpl. destruct (k' =? k)%string eqn:E.
    + apply String.eqb_eq in E. subst k'.
      apply has_name_get in Hn. rewrite (IH Hr Hin) in Hn. discriminate.
    + now apply IH.
Qed.

Lemma has_name_put (k c : string) (x : node) es :
  has_name k (Tree.put c x es) = has_name k es || (k =? c)%string.
Proof.
  unfold has_name, names. induction es as [|[k' n] es IH]; simpl.
  - now rewrite orb_false_r.
  - destruct (k' =? c)%string eqn:E; simpl.
    + apply String.eqb_eq in E. subst k'.
      destruct (k =? c)%string; simpl; [reflexivity | now rewrite orb_false_r].
    + rewrite IH. now rewrite orb_assoc.
Qed.

Lemma well_formed_put (c : string) (x : node) es :
  well_formed (Dir es) = true -> plain c = true -> well_formed x = true ->
  well_formed (Dir (Tree.put c x es)) = true.
Proof.
  intros W Hc Hx. induction es as [|[k n] es IH]; simpl Tree.put.
  - rewrite well_formed_cons, Hc, Hx. reflexivity.
  - apply well_formed_cons_inv in W as (Hp & Hn & Hch & Hr).
    destruct (k =? c)%string eqn:E.
    + rewrite well_formed_cons, Hp, Hn, Hx, Hr. reflexivity.
    + rewrite well_formed_cons, Hp, Hch, (IH Hr), has_name_put, Hn, E.
      reflexivity.
Qed.

Lemma well_formed_store (n n' x : node) (p : list string) :
  well_formed n = true -> forallb plain p = true -> well_formed x = true ->
  Tree.store n p x = Some n' -> well_formed n' = true.
Proof.
  revert n n'. induction p as [|c p IH]; intros n n' W Hp Hx S; simpl in S.
  - now inversion S; subst.
  - simpl in Hp. apply andb_true_iff in Hp as [Hc Hp].
    destruct n as [d|es]; [discriminate|].
    destruct p as [|c' p'].
    + inversion S; subst. now apply well_formed_put.
    + destruct (Tree.get c es) as [ch|] eqn:G; [|discriminate].
      destruct (Tree.store ch (c' :: p') x) as [ch'|] eqn:S'; [|discriminate].
      inversion S; subst. apply well_formed_put; try assumption.
      apply (IH ch ch'); try assumption.
      now apply (well_formed_get c ch es W G).
Qed.

Lemma well_formed_mkdirs (n n' : node) (p : list string) :
  well_formed n = true -> forallb plain p = true ->
  Tree.mkdirs n p = Some n' -> well_formed n' = true.
Proof.
  revert n n'. induction p as [|c p IH]; intros n n' W Hp S.
  - destruct n; simpl in S; inversion S; subst; exact W.
  - simpl in Hp. apply andb_true_iff in Hp as [Hc Hp].
    destruct n as [d|es]; [discriminate|]. simpl in S.
    destruct (Tree.mkdirs
                (match Tree.get c es with Some ch => ch | None => Dir [] end) p)
      as [ch'|] eqn:S'; [|discriminate].
    inversion S; subst. apply well_formed_put; try assumption.
    eapply IH; [|exact Hp | exact S'].
    destruct (Tree.get c es) as [ch|] eqn:G; [|reflexivity].
    now apply (well_formed_get c ch es W G).
Qed.

Lemma well_formed_lookup (n m : node) (p : list string) :
  well_formed n = true -> Tree.lookup n p = Some m -> well_formed m = true.
Proof.
  revert n. induction p as [|c p IH]; intros n W L; simpl in L.
  - now inversion L; subst.
  - destruct n as [d|es]; [discriminate|].
    destruct (Tree.get c es) as [ch|] eqn:G; [|discriminate].
    apply (IH ch); [|exact L]. now apply (well_formed_get c ch es W G).
Qed.

(** The names of a path are plain. *)
Lemma segments_have_no_sep (s : string) :
  forall x, In x (Path.segments s) -> has_sep x = false.
Proof.
  induction s as [|c s IH]; intros x Hin.
  - destruct Hin as [<-|[]]. reflexivity.
  - rewrite segments_cons in Hin. destruct (Ascii.eqb c Path.sep) eqn:E.
    + destruct Hin as [<-|Hin]; [reflexivity | now apply IH].
    + pose proof (segments_not_nil s) as Hn.
      destruct (Path.segments s) as [|h t]; [contradiction|].
      destruct Hin as [<-|Hin].
      * simpl. rewrite E. apply IH. now left.
      * apply IH. now right.
Qed.

Lemma components_are_plain (path : string) :
  forallb plain (Path.components path) = true.
Proof.
  apply forallb_forall. intros x Hin. unfold Path.components in Hin.
  apply filter_In in Hin as [Hin Hn]. unfold plain.
  now rewrite Hn, (segments_have_no_sep path x Hin).
Qed.

(** ** The listing of a directory *)

Lemma walk_dir (top : string) es :
  Tree.walk top (Dir es) =
  (top, Tree.dirnames es, Tree.filenames es) ::
  flat_map (fun e => match snd e with
                     | Dir _ => Tree.walk (Path.join top (fst e)) (snd e)
                     | File _ => []
                     end) es.
Proof.
  simpl. f_equal. induction es as [|[k ch] es IH]; [reflexivity|].
  simpl. rewrite IH. now destruct ch.
Qed.

Lemma fnames_of_cons path dirs files rest :
  ExtractorProcessor.fnames_of ((path, dirs, files) :: rest) =
  map (Path.join path) files ++ ExtractorProcessor.fnames_of rest.
Proof. reflexivity. Qed.

Lemma in_filenames (f : string) es :
  In f (Tree.filenames es) -> exists data, In (f, File data) es.
Proof.
  unfold Tree.filenames. intros H. apply in_map_iff in H as ([k n] & E & H).
  apply filter_In in H as [H Hd]. simpl in *. subst k.
  destruct n as [data|es']; [|discriminate]. now exists data.
Qed.

(** Every listed path leads to a regular file below the top. *)
Lemma walk_sound (n : node) :
  forall top, well_formed n = true ->
  forall p, In p (ExtractorProcessor.fnames_of (Tree.walk top n)) ->
  exists q, q <> [] /\ Path.components p = Path.components top ++ q /\
            file_at n q <> None.
Proof.
  induction n as [d|es IH] using node_induction; intros top W p Hin.
  - contradiction.
  - rewrite walk_dir, fnames_of_cons in Hin. apply in_app_or in Hin as [Hin|Hin].
    + apply in_map_iff in Hin as (f & <- & Hf).
      destruct (in_filenames f es Hf) as [data Hd].
      pose proof (well_formed_in_get f _ es W Hd) as G.
      destruct (well_formed_get f _ es W G) as [Hp _].
      destruct (join_plain top f Hp) as (Hc & _ & _).
      exists [f]. split; [discriminate|]. split; [exact Hc|].
      unfold file_at. simpl. rewrite G. discriminate.
    + unfold ExtractorProcessor.fnames_of in Hin.
      apply in_flat_map in Hin as ([[path dirs] files] & Ht & Hp).
      apply in_flat_map in Ht as ([k ch] & He & Ht). simpl in Ht.
      destruct ch as [d|es']; [contradiction|].
      pose proof (well_formed_in_get k _ es W He) as G.
      destruct (well_formed_get k _ es W G) as [Hk Wch].
      rewrite Forall_forall in IH. specialize (IH (k, Dir es') He).
      change (snd (k, Dir es')) with (Dir es') in IH.
      destruct (IH (Path.join top k) Wch p) as (q & Hq & Hc & Hf).
      { unfold ExtractorProcessor.fnames_of. apply in_flat_map.
        exists (path, dirs, files). auto. }
      destruct (join_plain top k Hk) as (Hj & _ & _).
      exists (k :: q). split; [discriminate|]. split.
      * rewrite Hc, Hj, <- app_assoc. reflexivity.
      * unfold file_at in *. simpl. rewrite G. exact Hf.
Qed.

Lemma enumerate_sound (root : node) (top : string) :
  well_formed root = true ->
  forall p, In p (enumerate root top) ->
  exists q, q <> [] /\ Path.components p = Path.components top ++ q /\
            file_at root (Path.components top ++ q) <> None.
Proof.
  intros W p Hin. unfold enumerate, OS.walked in Hin.
  destruct (top =? "")%string; [contradiction|].
  destruct (Tree.lookup root (Path.components top)) as [n|] eqn:L;
    [|contradiction].
  destruct (walk_sound n top (well_formed_lookup _ _ _ W L) p Hin)
    as (q & Hq & Hc & Hf).
  exists q. repeat split; try assumption.
  unfold file_at in *. now rewrite lookup_app, L.
Qed.

Lemma get_in (k : string) (ch : node) es :
  Tree.get k es = Some ch -> In (k, ch) es.
Proof.
  induction es as [|[k' n] es IH]; simpl; [discriminate|].
  destruct (k' =? k)%string eqn:E.
  - apply String.eqb_eq in E. subst k'. intros H. inversion H; subst. now left.
  - intros H. right. now apply IH.
Qed.

(** Every regular file below the top is listed. *)
Lemma walk_complete (q : list string) :
  forall (n : node) (top : string),
    well_formed n = true -> q <> [] -> file_at n q <> None ->
    exists p, In p (ExtractorProcessor.fnames_of (Tree.walk top n)) /\
              Path.components p = Path.components top ++ q.
Proof.
  induction q as [|k q IH]; intros n top W Hq Hf; [contradiction|].
  unfold file_at in Hf.
  destruct n as [d|es]; [now contradiction Hf|]. simpl in Hf.
  destruct (Tree.get k es) as [ch|] eqn:G; [|now contradiction Hf].
  destruct (well_formed_get k ch es W G) as [Hk Wch].
  pose proof (get_in k ch es G) as Hin.
  destruct (join_plain top k Hk) as (Hj & _ & _).
  rewrite walk_dir, fnames_of_cons.
  destruct q as [|c r].
  - simpl in Hf. destruct ch as [data|es']; [|now contradiction Hf].
    exists (Path.join top k). split; [|exact Hj].
    apply in_or_app. left. apply in_map. unfold Tree.filenames.
    apply in_map_iff. exists (k, File data). split; [reflexivity|].
    apply filter_In. split; [exact Hin | reflexivity].
  - destruct ch as [data|es']; [now contradiction Hf|].
    destruct (IH (Dir es') (Path.join top k) Wch ltac:(discriminate) Hf)
      as (p & Hp & Hc).
    exists p. split.
    + apply in_or_app. right. unfold ExtractorProcessor.fnames_of in *.
      apply in_flat_map in Hp as (t & Ht & Hpt).
      apply in_flat_map. exists t. split; [|exact Hpt].
      apply in_flat_map. exists (k, Dir es'). split; [exact Hin | exact Ht].
    + rewrite Hc, Hj, <- app_assoc. reflexivity.
Qed.

Lemma enumerate_complete (root : node) (top : string) (q : list string) :
  well_formed root = true -> (top =? "")%string = false -> q <> [] ->
  file_at root (Path.components top ++ q) <> None ->
  exists p, In p (enumerate root top) /\
            Path.components p = Path.components top ++ q.
Proof.
  intros W Ht Hq Hf. unfold enumerate, OS.walked. rewrite Ht.
  unfold file_at in Hf. rewrite lookup_app in Hf.
  destruct (Tree.lookup root (Path.components top)) as [n|] eqn:L;
    [|now contradiction Hf].
  apply walk_complete; try assumption.
  exact (well_formed_lookup _ _ _ W L).
Qed.

(** ** What the extraction of named members keeps *)

Lemma keeps_form_refl (w : world) : keeps_form w w.
Proof. intros H. exact H. Qed.

Lemma keeps_form_trans (a b c : world) :
  keeps_form a b -> keeps_form b c -> keeps_form a c.
Proof. intros H1 H2 W. apply H2, H1, W. Qed.

Lemma tree_step_form path (n n' : node) :
  tree_step path n n' -> well_formed n = true -> well_formed n' = true.
Proof.
  intros [->|data S D] W; [exact W|].
  eapply well_formed_store; [exact W | apply components_are_plain | | exact S].
  reflexivity.
Qed.

Lemma keeps_form_silent {A} (m : M A) :
  (forall w, fs (fst (m w)) = fs w) -> keeps keeps_form m.
Proof. intros H w W. now rewrite H. Qed.

Lemma members_keep_form lib c members fname extract_dir :
  keeps keeps_form
        (ExtractorProcessor.self_extract_file lib
           (ExtractorProcessor.__init__ c (Some members)) fname extract_dir).
Proof.
  assert (Hemit : forall e, keeps keeps_form (emit e))
    by (intros e; apply keeps_form_silent; reflexivity).
  assert (Hread : forall path, keeps keeps_form (OS.read_file path))
    by (intros path; apply keeps_form_silent; intros w;
        now rewrite read_file_same).
  assert (Hopen : forall path, keeps keeps_form (OS.open_write path))
    by (intros path w W; eapply tree_step_form;
        [apply open_write_step | exact W]).
  assert (Hwrite : forall path data, keeps keeps_form (OS.write path data))
    by (intros path data w W; eapply tree_step_form;
        [apply write_step | exact W]).
  unfold ExtractorProcessor.self_extract_file. simpl.
  destruct c.
  - apply keeps_raise. apply keeps_form_refl.
  - apply keeps_with_archive;
      try first [exact keeps_form_refl | exact keeps_form_trans | assumption].
    intros ar. apply keeps_for_each;
      [exact keeps_form_refl | exact keeps_form_trans |].
    intros member _.
    apply (keeps_unzip_member keeps_form keeps_form_refl keeps_form_trans
             Hemit Hopen Hwrite ar extract_dir fname member).
  - apply keeps_with_archive;
      try first [exact keeps_form_refl | exact keeps_form_trans | assumption].
    intros ar. apply keeps_for_each;
      [exact keeps_form_refl | exact keeps_form_trans |].
    intros member _.
    apply (keeps_untar_member keeps_form keeps_form_refl keeps_form_trans
             Hemit Hopen Hwrite ar extract_dir fname member).
Qed.









(* ================================================================== *)
(** * The model on concrete inputs *)
(* ================================================================== *)

Example join_relative_name :
  Path.join "data.zip.unzip" "x.csv" = "data.zip.unzip/x.csv".
Proof. reflexivity. Qed.

Example join_absolute_name : Path.join "data.zip.unzip" "/etc/x" = "/etc/x".
Proof. reflexivity. Qed.

Example splitext_of_gz :
  Path.splitext "store/values.csv.gz" = ("store/values.csv", ".gz").
Proof. reflexivity. Qed.

Example splitext_of_hidden_file : Path.splitext "store/.gz" = ("store/.gz", "").
Proof. reflexivity. Qed.

Example splitext_of_dotted_folder : Path.splitext "a.b/c" = ("a.b/c", "").
Proof. reflexivity. Qed.

Example components_of_path :
  Path.components "/a//b/./c.zip.unzip" = ["a"; "b"; "c.zip.unzip"].
Proof. reflexivity. Qed.

Example auto_selects_by_extension :
  Decompress._compression_module (Decompress.__init__ "auto") "values.csv.xz"
  = Returned lzma /\
  Decompress._compression_module (Decompress.__init__ "auto") "values.csv.gz"
  = Returned gzip /\
  Decompress._compression_module (Decompress.__init__ "auto") "values.csv.bz2"
  = Returned bz2 /\
  Decompress._compression_module (Decompress.__init__ "auto") "values.csv.zip"
  = Raised (ValueError
              "Unrecognized extension '.zip'. Must be one of '['.xz', '.gz', '.bz2']'.").
Proof. repeat split; reflexivity. Qed.

(** A download through [Unzip] without member restriction lists the three
    files of the archive. *)
Example unzip_all_on_download :
  snd (ExtractorProcessor.__call__ sample_lib
         (ExtractorProcessor.__init__ ExtractorProcessor.UnzipClass None)
         "store/data.zip" "download" sample_world) =
  Returned ["store/data.zip.unzip/a.txt";
            "store/data.zip.unzip/b.txt";
            "store/data.zip.unzip/sub/c.txt"].
Proof. vm_compute. reflexivity. Qed.

(** Below a regular file no directory can be made: on a path that cannot
    be the path of a file, [makedirs] raises and [_extract_file] is not
    reached. *)
Example makedirs_below_a_file_fails :
  ExtractorProcessor.__call__ sample_lib
    (ExtractorProcessor.__init__ ExtractorProcessor.UnzipClass None)
    "store/data.zip/inner.zip" "download" sample_world =
  (sample_world, Raised (OSError ENOTDIR)).
Proof. vm_compute. reflexivity. Qed.

(* ================================================================== *)
(** * Handles are closed in the reverse order *)
(* ================================================================== *)

Lemma handle_eqb_refl (h : handle) : handle_eqb h h = true.
Proof. destruct h; simpl; apply String.eqb_refl. Qed.

Lemma scoped_nil : scoped [].
Proof. intros held rest. reflexivity. Qed.

Lemma scoped_app (a b : list event) : scoped a -> scoped b -> scoped (a ++ b).
Proof. intros Ha Hb held rest. now rewrite <- app_assoc, Ha, Hb. Qed.

Lemma scoped_warn (msg : string) : scoped [Warn msg].
Proof. intros held rest. reflexivity. Qed.

Lemma scoped_unpack (fname extract_dir : string) : scoped [Unpack fname extract_dir].
Proof. intros held rest. reflexivity. Qed.

Lemma scoped_bracket (h : handle) (evs : list event) :
  scoped evs -> scoped ([Opened h] ++ evs ++ [Closed h]).
Proof.
  intros H held rest. simpl. rewrite <- app_assoc, H. simpl.
  now rewrite handle_eqb_refl.
Qed.

Lemma scoped_refl (w : world) : adds scoped w w.
Proof. apply adds_refl, scoped_nil. Qed.

Lemma scoped_trans (a b c : world) :
  adds scoped a b -> adds scoped b c -> adds scoped a c.
Proof. apply adds_trans, scoped_app. Qed.

(** A handle that is open while a scoped body runs and is closed by the
    [finally] that follows. *)
Lemma bracket_scoped {A} (h : handle) (body : M A) (w : world) :
  keeps (adds scoped) body ->
  adds scoped w
    (fst (try_finally body (OS.close h)
            (World (fs w) (log w ++ [Opened h]) (faults w)))).
Proof.
  intros Hb. rewrite try_finally_world.
  destruct (Hb (World (fs w) (log w ++ [Opened h]) (faults w))) as (evs & L & S).
  exists ([Opened h] ++ evs ++ [Closed h]). split.
  - rewrite close_log, L. simpl. rewrite <- !app_assoc. reflexivity.
  - now apply scoped_bracket.
Qed.

(** [with open(path, "wb") as output: body]. *)
Lemma save_scoped (path : string) (body : M unit) :
  keeps (adds scoped) body ->
  keeps (adds scoped)
        (output <- OS.open_write path ;; try_finally body (OS.close output)).
Proof.
  intros Hb w. unfold bind.
  destruct (OS.open_write path w) as [w1 [h|e]] eqn:O.
  - destruct (open_write_returned _ _ _ _ O) as (-> & _ & L1 & _).
    rewrite try_finally_world.
    destruct (Hb w1) as (evs & L & S).
    exists ([Opened (HOutput path)] ++ evs ++ [Closed (HOutput path)]). split.
    + rewrite close_log, L, L1, <- !app_assoc. reflexivity.
    + now apply scoped_bracket.
  - apply open_write_raised in O. subst w1. apply scoped_refl.
Qed.

Lemma with_archive_scoped read fname (body : archive -> M unit) :
  (forall ar, keeps (adds scoped) (body ar)) ->
  keeps (adds scoped) (Archive.with_archive read fname body).
Proof.
  intros Hb w. unfold Archive.with_archive. unfold bind at 1.
  pose proof (read_file_same fname w) as Same.
  destruct (OS.read_file fname w) as [w1 [data|e]]; simpl in Same; subst w1;
    [|apply scoped_refl].
  destruct (read data) as [ar|]; [|apply scoped_refl].
  rewrite bind_emit. apply bracket_scoped, Hb.
Qed.

Lemma unzip_member_scoped ar fname extract_dir member :
  keeps (adds scoped) (unzip_member ar fname extract_dir member).
Proof.
  intros w. unfold unzip_member, warn. rewrite bind_emit.
  unfold Archive.zip_open.
  assert (W : adds scoped w
                (World (fs w)
                   (log w ++ [Warn ("Extracting '" +++ member +++ "' from '"
                                    +++ fname +++ "' to '" +++ extract_dir
                                    +++ "'")])
                   (faults w))).
  { eexists. split; [reflexivity | apply scoped_warn]. }
  destruct (Archive.getmember member ar) as [e|].
  - rewrite bind_assoc, bind_emit, bind_ret.
    eapply scoped_trans; [exact W|].
    apply (bracket_scoped (HMember member)).
    apply save_scoped. apply keeps_adds_write, scoped_nil.
  - exact W.
Qed.

Lemma untar_member_scoped ar fname extract_dir member :
  keeps (adds scoped) (untar_member ar fname extract_dir member).
Proof.
  intros w. unfold untar_member, warn. rewrite bind_emit.
  unfold Archive.extractfile.
  assert (W : adds scoped w
                (World (fs w)
                   (log w ++ [Warn ("Extracting '" +++ member +++ "' from '"
                                    +++ fname +++ "' to '" +++ extract_dir
                                    +++ "'")])
                   (faults w))).
  { eexists. split; [reflexivity | apply scoped_warn]. }
  destruct (Archive.getmember member ar) as [[data|]|].
  - rewrite bind_assoc, bind_emit, bind_ret.
    eapply scoped_trans; [exact W|].
    apply (bracket_scoped (HMember member)).
    apply save_scoped. apply keeps_adds_write, scoped_nil.
  - rewrite bind_ret. rewrite try_finally_world, raise_world.
    eapply scoped_trans; [exact W|].
    apply save_scoped. apply keeps_raise. exact scoped_refl.
  - exact W.
Qed.

Lemma extractall_scoped ar path :
  keeps (adds scoped) (Archive.extractall ar path).
Proof.
  unfold Archive.extractall.
  apply keeps_for_each; [exact scoped_refl | exact scoped_trans |].
  intros [name e] _. unfold Archive.extract_entry. simpl.
  destruct e as [data|].
  - apply keeps_bind; [exact scoped_trans | |].
    + apply keeps_adds_ensure_dir, scoped_nil.
    + intros _. apply save_scoped. apply keeps_adds_write, scoped_nil.
  - apply keeps_adds_ensure_dir, scoped_nil.
Qed.

Lemma self_extract_file_scoped lib self fname extract_dir :
  keeps (adds scoped)
        (ExtractorProcessor.self_extract_file lib self fname extract_dir).
Proof.
  unfold ExtractorProcessor.self_extract_file.
  destruct (ExtractorProcessor.cls self).
  - apply keeps_raise. exact scoped_refl.
  - unfold Unzip._extract_file. apply with_archive_scoped. intros ar.
    destruct (ExtractorProcessor.members self) as [ms|].
    + apply keeps_for_each; [exact scoped_refl | exact scoped_trans |].
      intros member _. apply unzip_member_scoped.
    + apply keeps_bind; [exact scoped_trans | |].
      * apply keeps_adds_emit. apply scoped_warn.
      * intros _. apply extractall_scoped.
  - unfold Untar._extract_file. apply with_archive_scoped. intros ar.
    destruct (ExtractorProcessor.members self) as [ms|].
    + apply keeps_for_each; [exact scoped_refl | exact scoped_trans |].
      intros member _. apply untar_member_scoped.
    + apply keeps_bind; [exact scoped_trans | |].
      * apply keeps_adds_emit. apply scoped_warn.
      * intros _. apply extractall_scoped.
Qed.

Lemma must_refresh_world (action target : string) (w : world) :
  fst (must_refresh action target w) = w.
Proof. now rewrite must_refresh_eq. Qed.

Lemma extractor_call_scoped lib self fname action :
  keeps (adds scoped) (ExtractorProcessor.__call__ lib self fname action).
Proof.
  unfold ExtractorProcessor.__call__.
  destruct (ExtractorProcessor.suffix self) as [sfx|];
    [|apply keeps_raise; exact scoped_refl].
  apply keeps_bind; [exact scoped_trans | |].
  - apply keeps_adds_silent; [exact scoped_nil|].
    intros w. now rewrite must_refresh_world.
  - intros refresh. apply keeps_bind; [exact scoped_trans | |].
    + destruct refresh; [|apply keeps_ret; exact scoped_refl].
      apply keeps_bind; [exact scoped_trans | |].
      * apply keeps_adds_silent; [exact scoped_nil | reflexivity].
      * intros there. apply keeps_bind; [exact scoped_trans | |].
        -- destruct (negb there); [|apply keeps_ret; exact scoped_refl].
           apply keeps_adds_silent; [exact scoped_nil|]. apply makedirs_log.
        -- intros _. apply keeps_bind; [exact scoped_trans | |].
           ++ apply keeps_adds_emit. apply scoped_unpack.
           ++ intros _. apply self_extract_file_scoped.
    + intros _. apply keeps_bind; [exact scoped_trans | |].
      * apply keeps_adds_silent; [exact scoped_nil | reflexivity].
      * intros walked. apply keeps_ret. exact scoped_refl.
Qed.

Lemma scoped_closes_all (w w' : world) :
  adds scoped w w' -> nesting [] (news w w') = Some [].
Proof.
  intros (evs & L & S). rewrite (news_app _ _ _ L).
  specialize (S [] []). now rewrite app_nil_r in S.
Qed.

(** X1.  Every handle an extractor call opens (the archive, the stream of
    a member, the output file) is closed when the call ends, returned
    or raised, and the handles are closed in the reverse of the order in
    which they were opened. *)
Theorem extractor_closes_its_handles lib self fname action (w : world) :
  nesting []
    (news w (fst (ExtractorProcessor.__call__ lib self fname action w)))
  = Some [].
Proof. apply scoped_closes_all, extractor_call_scoped. Qed.

(* ================================================================== *)
(** * What a call of [Decompress] keeps *)
(* ================================================================== *)

Lemma keeps_same (R : world -> world -> Prop) {A} (m : M A) :
  (forall w, R w w) -> (forall w, fst (m w) = w) -> keeps R m.
Proof. intros Hr H w. rewrite H. apply Hr. Qed.

Section DecompressKeeps.

Variable R : world -> world -> Prop.
Hypothesis R_refl : forall w, R w w.
Hypothesis R_trans : forall a b c, R a b -> R b c -> R a c.
Variable out : string.
Hypothesis R_emit : forall e, keeps R (emit e).
Hypothesis R_open : keeps R (OS.open_write out).
Hypothesis R_write : forall data, keeps R (OS.write out data).

Lemma keeps_copy_loop (fuel : nat) (rest : bytes) (ok : bool) :
  keeps R (copy_loop fuel rest ok out).
Proof.
  revert rest. induction fuel as [|fuel IH]; intros rest.
  - apply keeps_ret. exact R_refl.
  - rewrite copy_loop_step.
    destruct (firstn COPY_BUFSIZE rest) as [|b buf].
    + destruct ok; [apply keeps_ret | apply keeps_raise]; exact R_refl.
    + apply keeps_bind; [exact R_trans | apply R_write | intros _; apply IH].
Qed.

Lemma keeps_module_open lib module fname :
  keeps R (Decompress.module_open lib module fname).
Proof.
  unfold Decompress.module_open.
  apply keeps_bind; [exact R_trans | |].
  - apply keeps_same; [exact R_refl | apply read_file_same].
  - intros data. apply keeps_bind; [exact R_trans | apply R_emit |].
    intros _. apply keeps_ret. exact R_refl.
Qed.

Lemma keeps_decompress_call lib self fname action :
  out = fname +++ ".decomp" ->
  keeps R (Decompress.__call__ lib self fname action).
Proof.
  intros Hout. unfold Decompress.__call__. rewrite <- Hout.
  apply keeps_bind; [exact R_trans | |].
  - apply keeps_same; [exact R_refl | apply must_refresh_world].
  - intros refresh. apply keeps_bind; [exact R_trans | |].
    + destruct refresh; [|apply keeps_ret; exact R_refl].
      apply keeps_bind; [exact R_trans | apply R_emit | intros _].
      apply keeps_bind; [exact R_trans | |].
      * apply keeps_same; [exact R_refl | reflexivity].
      * intros module. apply keeps_bind; [exact R_trans | exact R_open |].
        intros output. apply keeps_try_finally; [exact R_trans | | apply R_emit].
        apply keeps_bind; [exact R_trans | apply keeps_module_open |].
        intros compressed.
        apply keeps_try_finally; [exact R_trans | | apply R_emit].
        apply keeps_copy_loop.
    + intros _. apply keeps_ret. exact R_refl.
Qed.

End DecompressKeeps.

Lemma decompress_call_touches lib self fname action :
  keeps (touches [Path.components (fname +++ ".decomp")])
        (Decompress.__call__ lib self fname action).
Proof.
  apply (keeps_decompress_call _ (touches_refl _) (touches_trans _)
           (fname +++ ".decomp")).
  - intros e. apply keeps_touches_silent. reflexivity.
  - apply keeps_touches_open_write. now left.
  - intros data. apply keeps_touches_write. now left.
  - reflexivity.
Qed.

Lemma copy_loop_grows fuel rest ok out :
  keeps fs_grows (copy_loop fuel rest ok out).
Proof.
  apply keeps_copy_loop.
  - exact fs_grows_refl.
  - exact fs_grows_trans.
  - apply keeps_grows_write.
Qed.

Lemma components_suffix_differ (path sfx : string) :
  has_sep sfx = false -> 2 <= String.length sfx ->
  Path.components path <> Path.components (path +++ sfx).
Proof.
  intros Hs Hl.
  destruct (components_append_suffix path sfx Hs Hl) as (Hc & _ & _).
  rewrite Hc, components_stem.
  destruct (Path.is_name (last_segment path)); intros E;
    apply app_inv_head in E; inversion E as [E'].
  apply (f_equal String.length) in E'. rewrite string_length_append in E'. lia.
Qed.

(** X2.  A call of [Decompress] changes no directory and no regular file
    other than the output file; the input file keeps its content,
    whatever the outcome of the call. *)
Theorem decompress_changes_only_its_output lib self fname action (w : world) :
  touches [Path.components (fname +++ ".decomp")] w
          (fst (Decompress.__call__ lib self fname action w)) /\
  file_at (fs (fst (Decompress.__call__ lib self fname action w)))
          (Path.components fname) =
  file_at (fs w) (Path.components fname).
Proof.
  pose proof (decompress_call_touches lib self fname action w) as T.
  split; [exact T|].
  destruct T as [_ F]. apply F. intros [E|[]].
  symmetry in E. revert E.
  apply components_suffix_differ; [reflexivity | simpl; lia].
Qed.

(** ** The handles of [Decompress] *)



(* ================================================================== *)
(** * After a call that failed *)
(* ================================================================== *)

Lemma keeps_grows_makedirs path : keeps fs_grows (OS.makedirs path).
Proof.
  intros w. unfold OS.makedirs, fs_grows.
  destruct (path =? "")%string; [apply grows_refl|].
  destruct (Tree.lookup (fs w) (Path.components path)); [apply grows_refl|].
  destruct (Tree.mkdirs (fs w) (Path.components path)) eqn:E; simpl;
    [eapply mkdirs_grows; eassumption | apply grows_refl].
Qed.

Lemma extractor_call_grows lib self fname action :
  keeps fs_grows (ExtractorProcessor.__call__ lib self fname action).
Proof.
  unfold ExtractorProcessor.__call__.
  destruct (ExtractorProcessor.suffix self) as [sfx|];
    [|apply keeps_raise; exact fs_grows_refl].
  apply keeps_bind; [exact fs_grows_trans | |].
  - apply keeps_same; [exact fs_grows_refl | apply must_refresh_world].
  - intros refresh. apply keeps_bind; [exact fs_grows_trans | |].
    + destruct refresh; [|apply keeps_ret; exact fs_grows_refl].
      apply keeps_bind; [exact fs_grows_trans | |].
      * apply keeps_same; [exact fs_grows_refl | reflexivity].
      * intros there. apply keeps_bind; [exact fs_grows_trans | |].
        -- destruct (negb there); [|apply keeps_ret; exact fs_grows_refl].
           apply keeps_grows_makedirs.
        -- intros _. apply keeps_bind; [exact fs_grows_trans | |].
           ++ apply keeps_fs_grows_silent. reflexivity.
           ++ intros _. apply extract_file_grows.
    + intros _. apply keeps_bind; [exact fs_grows_trans | |].
      * apply keeps_same; [exact fs_grows_refl | reflexivity].
      * intros walked. apply keeps_ret. exact fs_grows_refl.
Qed.

(** X4.  A call of an extractor with a member restriction removes
    nothing: what was a directory is a directory after the call, what was
    a regular file is a regular file, whatever the outcome.  (Without a
    restriction the files are written by [extractall] of the archive
    module, which is not the subject here.) *)
Theorem extractor_removes_nothing lib c (members : list string)
      fname action (w : world) :
  forall q,
    (dir_at (fs w) q = true ->
     dir_at (fs (fst (ExtractorProcessor.__call__ lib
                        (ExtractorProcessor.__init__ c (Some members))
                        fname action w))) q
     = true) /\
    (file_at (fs w) q <> None ->
     file_at (fs (fst (ExtractorProcessor.__call__ lib
                         (ExtractorProcessor.__init__ c (Some members))
                         fname action w))) q
     <> None).
Proof.
  exact (extractor_call_grows lib
           (ExtractorProcessor.__init__ c (Some members)) fname action w).
Qed.

(** After a call on an existing file the output directory is there,
    whether the call returned or raised. *)
Lemma call_leaves_directory lib self sfx fname action (w : world) :
  ExtractorProcessor.suffix self = Some sfx ->
  is_file (fs w) fname = true ->
  OS.exists_in (fs (fst (ExtractorProcessor.__call__ lib self fname action w)))
               (fname +++ sfx) = true.
Proof.
  intros Hs Hfile.
  destruct (stale (fs w) action (fname +++ sfx)) eqn:Hst.
  - rewrite (call_stale lib self sfx fname action w Hs Hst).
    rewrite bind_assoc.
    set (rest := fun _ : unit =>
           bind (emit (Unpack fname (fname +++ sfx)) ;;;
                 ExtractorProcessor.self_extract_file lib self fname
                   (fname +++ sfx))
                (fun _ => walked <- OS.walk (fname +++ sfx) ;;
                          ret (ExtractorProcessor.fnames_of walked))).
    assert (K : forall u, keeps fs_grows (rest u)).
    { intros u. unfold rest. apply keeps_bind; [exact fs_grows_trans | |].
      - apply keeps_bind; [exact fs_grows_trans | |].
        + apply keeps_fs_grows_silent. reflexivity.
        + intros _. apply extract_file_grows.
      - intros _. apply keeps_bind; [exact fs_grows_trans | |].
        + apply keeps_same; [exact fs_grows_refl | reflexivity].
        + intros walked. apply keeps_ret. exact fs_grows_refl. }
    destruct (OS.exists_in (fs w) (fname +++ sfx)) eqn:E.
    + rewrite bind_ret. eapply exists_in_grows; [apply K | exact E].
    + destruct (suffix_shape self sfx Hs) as [Hsep Hlen].
      pose proof (makedirs_beside_file w fname sfx Hfile Hsep Hlen E) as Mk.
      assert (Run : OS.makedirs (fname +++ sfx) w =
                    (fst (OS.makedirs (fname +++ sfx) w), Returned tt)).
      { rewrite <- Mk. apply surjective_run. }
      rewrite (bind_returned _ _ _ _ _ Run).
      eapply exists_in_grows; [apply K|]. now apply makedirs_exists in Run.
  - rewrite (call_hit lib self sfx fname action w Hs Hst). simpl.
    unfold stale in Hst. apply orb_false_iff in Hst as [_ Hst].
    now apply negb_false_iff in Hst.
Qed.

(** X5.  After any call of an extractor on an existing file, returned or
    raised, a call with the action [fetch] unpacks nothing and returns
    the listing of what the first call left. *)
Theorem fetch_after_any_call_is_a_hit lib self sfx fname action (w : world) :
  ExtractorProcessor.suffix self = Some sfx ->
  is_file (fs w) fname = true ->
  ExtractorProcessor.__call__ lib self fname "fetch"
    (fst (ExtractorProcessor.__call__ lib self fname action w)) =
  (fst (ExtractorProcessor.__call__ lib self fname action w),
   Returned (enumerate
               (fs (fst (ExtractorProcessor.__call__ lib self fname action w)))
               (fname +++ sfx))).
Proof.
  intros Hs Hfile. apply call_hit; [exact Hs|].
  rewrite stale_fetch, (call_leaves_directory lib self sfx fname action w Hs Hfile).
  reflexivity.
Qed.

Lemma fetch_after_any_call_is_a_hit_witness :
  snd (ExtractorProcessor.__call__ sample_lib
         (ExtractorProcessor.__init__ ExtractorProcessor.UnzipClass None)
         "store/values.csv.gz" "download" sample_world) = Raised BadArchive /\
  ExtractorProcessor.__call__ sample_lib
    (ExtractorProcessor.__init__ ExtractorProcessor.UnzipClass None)
    "store/values.csv.gz" "fetch"
    (fst (ExtractorProcessor.__call__ sample_lib
            (ExtractorProcessor.__init__ ExtractorProcessor.UnzipClass None)
            "store/values.csv.gz" "download" sample_world)) =
  (fst (ExtractorProcessor.__call__ sample_lib
          (ExtractorProcessor.__init__ ExtractorProcessor.UnzipClass None)
          "store/values.csv.gz" "download" sample_world),
   Returned (enumerate
               (fs (fst (ExtractorProcessor.__call__ sample_lib
                           (ExtractorProcessor.__init__
                              ExtractorProcessor.UnzipClass None)
                           "store/values.csv.gz" "download" sample_world)))
               ("store/values.csv.gz" +++ ".unzip"))).
Proof.
  split; [vm_compute; reflexivity|].
  apply (fetch_after_any_call_is_a_hit sample_lib
           (ExtractorProcessor.__init__ ExtractorProcessor.UnzipClass None)
           ".unzip" "store/values.csv.gz" "download" sample_world);
    reflexivity.
Defined.

(** ** [Decompress] *)

Lemma open_write_exists (path : string) (w w1 : world) (h : handle) :
  OS.open_write path w = (w1, Returned h) -> OS.exists_in (fs w1) path = true.
Proof.
  intros O. destruct (open_write_returned _ _ _ _ O) as (_ & F & _ & _).
  unfold OS.open_write in O. unfold OS.exists_in, file_at in *.
  destruct (path =? "")%string; [discriminate|].
  destruct (Path.wants_dir path); [discriminate|].
  destruct (Tree.lookup (fs w1) (Path.components path)) as [[d|es]|];
    try discriminate; reflexivity.
Defined.

(** X6.  Once a call of [Decompress] has opened its output file, the file
    is there when the call ends, whatever its outcome, and a call with
    the action [fetch] returns its path without decompressing. *)
Theorem opened_output_is_a_hit lib self fname action (w : world) :
  In (Opened (HOutput (fname +++ ".decomp")))
     (news w (fst (Decompress.__call__ lib self fname action w))) ->
  Decompress.__call__ lib self fname "fetch"
    (fst (Decompress.__call__ lib self fname action w)) =
  (fst (Decompress.__call__ lib self fname action w),
   Returned (fname +++ ".decomp")).
Proof.
  intros Hin. apply decompress_hit. rewrite stale_fetch. apply negb_false_iff.
  destruct (stale (fs w) action (fname +++ ".decomp")) eqn:Hst.
  2:{ rewrite (decompress_hit lib self fname action w Hst) in Hin.
      simpl in Hin. rewrite news_same in Hin. contradiction. }
  destruct (Decompress._compression_module self fname) as [module|e] eqn:Hm.
  2:{ rewrite (decompress_unresolved lib self fname action w e Hst Hm) in Hin.
      simpl in Hin. erewrite news_app in Hin by reflexivity.
      destruct Hin as [E|[]]. discriminate. }
  rewrite (decompress_resolved lib self fname action w module Hst Hm) in Hin |- *.
  set (w0 := World (fs w) (log w ++ _) (faults w)) in *.
  rewrite bind_assoc in Hin |- *.
  destruct (OS.open_write (fname +++ ".decomp") w0) as [wo [h|e]] eqn:O.
  - rewrite (bind_returned _ _ _ _ _ O).
    pose proof (open_write_exists _ _ _ _ O) as Ex.
    eapply exists_in_grows; [|exact Ex].
    apply (keeps_bind fs_grows fs_grows_trans).
    + apply keeps_try_finally; [exact fs_grows_trans | |].
      * apply keeps_bind; [exact fs_grows_trans | |].
        -- apply keeps_module_open; [exact fs_grows_refl | exact fs_grows_trans|].
           intros ev. apply keeps_fs_grows_silent. reflexivity.
        -- intros compressed. apply keeps_try_finally; [exact fs_grows_trans | |].
           ++ apply copy_loop_grows.
           ++ apply keeps_fs_grows_silent. reflexivity.
      * apply keeps_fs_grows_silent. reflexivity.
    + intros _. apply keeps_ret. exact fs_grows_refl.
  - rewrite (bind_raised _ _ _ _ _ O) in Hin.
    apply open_write_raised in O. subst wo. simpl in Hin.
    erewrite news_app in Hin by reflexivity.
    destruct Hin as [E|[]]. discriminate.
Qed.

(** X7.  When the compressed stream breaks off, the call raises after it
    has copied the bytes that the stream gave before: the output file
    holds exactly those bytes, both handles are closed, and a call with
    the action [fetch] returns the path of this partial file. *)
Theorem broken_stream_leaves_partial_output lib self fname action (w : world)
      (module : pymodule) (data partial : bytes) :
  action = "download" \/ action = "update" \/
  OS.exists_in (fs w) (fname +++ ".decomp") = false ->
  Decompress._compression_module self fname = Returned module ->
  is_file (fs w) fname = true ->
  file_at (fs w) (Path.components fname) = Some data ->
  decode lib module data = (partial, false) ->
  dir_at (fs w) (Path.components (fname +++ ".decomp")) = false ->
  faults w = [] ->
  exists w',
    Decompress.__call__ lib self fname action w = (w', Raised CorruptStream) /\
    file_at (fs w') (Path.components (fname +++ ".decomp")) = Some partial /\
    nesting [] (news w w') = Some [] /\
    Decompress.__call__ lib self fname "fetch" w' =
    (w', Returned (fname +++ ".decomp")).
Proof.
  intros Hst Hm Hfile Hdata Hdec Hnd Hf. apply stale_iff in Hst.
  destruct (decompress_runs lib self fname action w module data partial false
              Hst Hm Hfile Hdata Hnd Hf Hdec) as (root & Hc & Hres & _).
  eexists. split; [exact Hc|]. simpl. split; [exact Hres|]. split.
  - erewrite news_app by reflexivity. simpl. now rewrite !String.eqb_refl.
  - apply decompress_hit. rewrite stale_fetch. apply negb_false_iff. simpl.
    destruct (components_append_suffix fname ".decomp" eq_refl ltac:(simpl; lia))
      as (_ & Hw & Hne).
    unfold OS.exists_in. rewrite Hne, Hw. unfold file_at in Hres.
    destruct (Tree.lookup root (Path.components (fname +++ ".decomp")))
      as [[d|es]|]; try discriminate; reflexivity.
Qed.

Lemma broken_stream_leaves_partial_output_witness :
  exists w',
    Decompress.__call__ cut_lib (Decompress.__init__ "gzip")
      "store/values.csv.gz" "download" sample_world = (w', Raised CorruptStream) /\
    file_at (fs w') (Path.components ("store/values.csv.gz" +++ ".decomp")) =
    Some ["G"%byte] /\
    nesting [] (news sample_world w') = Some [] /\
    Decompress.__call__ cut_lib (Decompress.__init__ "gzip")
      "store/values.csv.gz" "fetch" w' =
    (w', Returned ("store/values.csv.gz" +++ ".decomp")).
Proof.
  apply (broken_stream_leaves_partial_output cut_lib (Decompress.__init__ "gzip")
           "store/values.csv.gz" "download" sample_world gzip
           ["G"%byte; "4"%byte; "2"%byte] ["G"%byte]);
    try reflexivity.
  left. reflexivity.
Defined.

Lemma opened_output_is_a_hit_witness :
  snd (Decompress.__call__ sample_lib (Decompress.__init__ "auto")
         "store/missing.gz" "download" sample_world) = Raised (OSError ENOENT) /\
  Decompress.__call__ sample_lib (Decompress.__init__ "auto")
    "store/missing.gz" "fetch"
    (fst (Decompress.__call__ sample_lib (Decompress.__init__ "auto")
            "store/missing.gz" "download" sample_world)) =
  (fst (Decompress.__call__ sample_lib (Decompress.__init__ "auto")
          "store/missing.gz" "download" sample_world),
   Returned ("store/missing.gz" +++ ".decomp")).
Proof.
  split; [vm_compute; reflexivity|].
  apply (opened_output_is_a_hit sample_lib (Decompress.__init__ "auto")
           "store/missing.gz" "download" sample_world).
  vm_compute. right. left. reflexivity.
Defined.

(* ================================================================== *)
(** * The list an extractor returns *)
(* ================================================================== *)

Lemma forallb_removelast {A} (f : A -> bool) (l : list A) :
  forallb f l = true -> forallb f (removelast l) = true.
Proof.
  induction l as [|x l IH]; [reflexivity|].
  simpl. intros H. apply andb_true_iff in H as [Hx Hl].
  destruct l as [|y l']; [reflexivity|].
  simpl in *. rewrite Hx. now apply IH.
Qed.

Lemma ensure_dir_form (p : list string) :
  forallb plain p = true -> keeps keeps_form (Archive.ensure_dir p).
Proof.
  intros Hp w W. unfold Archive.ensure_dir.
  destruct (Tree.mkdirs (fs w) p) as [root|] eqn:E; simpl; [|exact W].
  eapply well_formed_mkdirs; eassumption.
Qed.

Lemma makedirs_form (path : string) : keeps keeps_form (OS.makedirs path).
Proof.
  intros w W. unfold OS.makedirs.
  destruct (path =? "")%string; [exact W|].
  destruct (Tree.lookup (fs w) (Path.components path)); [exact W|].
  destruct (Tree.mkdirs (fs w) (Path.components path)) as [root|] eqn:E;
    simpl; [|exact W].
  eapply well_formed_mkdirs; [exact W | apply components_are_plain | exact E].
Qed.

Lemma open_write_form (path : string) : keeps keeps_form (OS.open_write path).
Proof. intros w W. eapply tree_step_form; [apply open_write_step | exact W]. Qed.

Lemma write_form (path : string) (data : bytes) :
  keeps keeps_form (OS.write path data).
Proof. intros w W. eapply tree_step_form; [apply write_step | exact W]. Qed.

Lemma extractall_form ar path : keeps keeps_form (Archive.extractall ar path).
Proof.
  unfold Archive.extractall.
  apply keeps_for_each; [exact keeps_form_refl | exact keeps_form_trans |].
  intros [name e] _. unfold Archive.extract_entry. simpl.
  destruct e as [data|].
  - apply keeps_bind; [exact keeps_form_trans | |].
    + apply ensure_dir_form, forallb_removelast, components_are_plain.
    + intros _. apply keeps_bind; [exact keeps_form_trans | |].
      * apply open_write_form.
      * intros output. apply keeps_try_finally; [exact keeps_form_trans | |].
        -- apply write_form.
        -- apply keeps_form_silent. reflexivity.
  - apply ensure_dir_form, components_are_plain.
Qed.

Lemma self_extract_file_form lib self fname extract_dir :
  keeps keeps_form
        (ExtractorProcessor.self_extract_file lib self fname extract_dir).
Proof.
  destruct self as [c [ms|]].
  - apply (members_keep_form lib c ms fname extract_dir).
  - assert (Hemit : forall e, keeps keeps_form (emit e))
      by (intros e; apply keeps_form_silent; reflexivity).
    assert (Hread : forall path, keeps keeps_form (OS.read_file path))
      by (intros path; apply keeps_form_silent; intros w;
          now rewrite read_file_same).
    unfold ExtractorProcessor.self_extract_file. simpl.
    destruct c.
    + apply keeps_raise. apply keeps_form_refl.
    + apply keeps_with_archive;
        try first [exact keeps_form_refl | exact keeps_form_trans | assumption].
      intros ar. apply keeps_bind; [exact keeps_form_trans | apply Hemit |].
      intros _. apply extractall_form.
    + apply keeps_with_archive;
        try first [exact keeps_form_refl | exact keeps_form_trans | assumption].
      intros ar. apply keeps_bind; [exact keeps_form_trans | apply Hemit |].
      intros _. apply extractall_form.
Qed.

Lemma extractor_call_form lib self fname action :
  keeps keeps_form (ExtractorProcessor.__call__ lib self fname action).
Proof.
  unfold ExtractorProcessor.__call__.
  destruct (ExtractorProcessor.suffix self) as [sfx|];
    [|apply keeps_raise; exact keeps_form_refl].
  apply keeps_bind; [exact keeps_form_trans | |].
  - apply keeps_same; [exact keeps_form_refl | apply must_refresh_world].
  - intros refresh. apply keeps_bind; [exact keeps_form_trans | |].
    + destruct refresh; [|apply keeps_ret; exact keeps_form_refl].
      apply keeps_bind; [exact keeps_form_trans | |].
      * apply keeps_same; [exact keeps_form_refl | reflexivity].
      * intros there. apply keeps_bind; [exact keeps_form_trans | |].
        -- destruct (negb there); [|apply keeps_ret; exact keeps_form_refl].
           apply makedirs_form.
        -- intros _. apply keeps_bind; [exact keeps_form_trans | |].
           ++ apply keeps_form_silent. reflexivity.
           ++ intros _. apply self_extract_file_form.
    + intros _. apply keeps_bind; [exact keeps_form_trans | |].
      * apply keeps_same; [exact keeps_form_refl | reflexivity].
      * intros walked. apply keeps_ret. exact keeps_form_refl.
Qed.

(* ================================================================== *)
(** * The refresh policy, with the listing spelled out *)
(* ================================================================== *)

(** C1.  For an extractor with a suffix, called on the path of an existing
    regular file (the local file that was just fetched) in a well-formed
    tree: [_extract_file] is called if and only if the action is
    [download] or [update] or the directory [fname + suffix] does not
    exist; and with the action [fetch] on an existing directory the call
    changes nothing (no unpacking, nothing logged) and returns a list of
    the regular files below that directory as they are: every path of the
    list leads to such a file, at any depth, and every such file has a
    path in the list. *)
Theorem refresh_policy lib self sfx fname action (w : world) :
  ExtractorProcessor.suffix self = Some sfx ->
  is_file (fs w) fname = true ->
  well_formed (fs w) = true ->
  (In (Unpack fname (fname +++ sfx))
      (news w (fst (ExtractorProcessor.__call__ lib self fname action w))) <->
   action = "download" \/ action = "update" \/
   OS.exists_in (fs w) (fname +++ sfx) = false) /\
  (action = "fetch" -> OS.exists_in (fs w) (fname +++ sfx) = true ->
   exists files,
     ExtractorProcessor.__call__ lib self fname action w = (w, Returned files) /\
     (forall p, In p files ->
        exists q, q <> [] /\
                  Path.components p = Path.components (fname +++ sfx) ++ q /\
                  file_at (fs w) (Path.components p) <> None) /\
     (forall q, q <> [] ->
        file_at (fs w) (Path.components (fname +++ sfx) ++ q) <> None ->
        exists p, In p files /\
                  Path.components p = Path.components (fname +++ sfx) ++ q)).
Proof.
  intros Hs Hfile W.
  destruct (suffix_shape self sfx Hs) as [Hsep Hlen].
  destruct (refresh_policy_when_directory_can_be_made lib self sfx fname action w
              Hs (makedirs_beside_file _ _ _ Hfile Hsep Hlen)) as [Iff Hit].
  split; [exact Iff|].
  intros Ha Hex. exists (enumerate (fs w) (fname +++ sfx)).
  split; [exact (Hit Ha Hex)|]. split.
  - intros p Hin.
    destruct (enumerate_sound (fs w) (fname +++ sfx) W p Hin)
      as (q & Hq & Hc & Hf).
    exists q. repeat split; try assumption. now rewrite Hc.
  - intros q Hq Hf. apply enumerate_complete; try assumption.
    now destruct (components_append_suffix fname sfx Hsep Hlen) as (_ & _ & Hne).
Qed.

Lemma refresh_policy_witness :
  (In (Unpack "store/data.zip" ("store/data.zip" +++ ".unzip"))
      (news unzipped_world
         (fst (ExtractorProcessor.__call__ sample_lib
                 (ExtractorProcessor.__init__ ExtractorProcessor.UnzipClass None)
                 "store/data.zip" "fetch" unzipped_world))) <->
   "fetch" = "download" \/ "fetch" = "update" \/
   OS.exists_in (fs unzipped_world) ("store/data.zip" +++ ".unzip") = false) /\
  ("fetch" = "fetch" ->
   OS.exists_in (fs unzipped_world) ("store/data.zip" +++ ".unzip") = true ->
   exists files,
     ExtractorProcessor.__call__ sample_lib
       (ExtractorProcessor.__init__ ExtractorProcessor.UnzipClass None)
       "store/data.zip" "fetch" unzipped_world =
     (unzipped_world, Returned files) /\
     (forall p, In p files ->
        exists q, q <> [] /\
                  Path.components p =
                  Path.components ("store/data.zip" +++ ".unzip") ++ q /\
                  file_at (fs unzipped_world) (Path.components p) <> None) /\
     (forall q, q <> [] ->
        file_at (fs unzipped_world)
                (Path.components ("store/data.zip" +++ ".unzip") ++ q) <> None ->
        exists p, In p files /\
                  Path.components p =
                  Path.components ("store/data.zip" +++ ".unzip") ++ q)).
Proof.
  apply (refresh_policy sample_lib
           (ExtractorProcessor.__init__ ExtractorProcessor.UnzipClass None)
           ".unzip" "store/data.zip" "fetch" unzipped_world).
  - reflexivity.
  - reflexivity.
  - reflexivity.
Defined.

(** X8.  The list a returning call gives is the list of the regular files
    below the output directory, at any depth: every path of the list
    leads to such a file, and every such file has a path in the list. *)
Theorem returned_list_is_the_directory_content lib self sfx fname action
      (w w1 : world) files :
  ExtractorProcessor.suffix self = Some sfx ->
  well_formed (fs w) = true ->
  ExtractorProcessor.__call__ lib self fname action w = (w1, Returned files) ->
  (forall p, In p files ->
     exists q, q <> [] /\
               Path.components p = Path.components (fname +++ sfx) ++ q /\
               file_at (fs w1) (Path.components p) <> None) /\
  (forall q, q <> [] ->
     file_at (fs w1) (Path.components (fname +++ sfx) ++ q) <> None ->
     exists p, In p files /\
               Path.components p = Path.components (fname +++ sfx) ++ q).
Proof.
  intros Hs W H.
  pose proof (extractor_call_form lib self fname action w) as K.
  rewrite H in K. simpl in K. specialize (K W).
  destruct (call_returned _ _ _ _ _ _ _ H) as (sfx' & Hs' & _ & ->).
  rewrite Hs in Hs'. inversion Hs'; subst sfx'. split.
  - intros p Hin.
    destruct (enumerate_sound (fs w1) (fname +++ sfx) K p Hin)
      as (q & Hq & Hc & Hf).
    exists q. repeat split; try assumption. now rewrite Hc.
  - intros q Hq Hf. apply enumerate_complete; try assumption.
    destruct (suffix_shape self sfx Hs) as [Hsep Hlen].
    now destruct (components_append_suffix fname sfx Hsep Hlen) as (_ & _ & Hne).
Qed.

Lemma returned_list_is_the_directory_content_witness :
  (forall p,
     In p ["store/data.zip.unzip/a.txt"; "store/data.zip.unzip/b.txt";
           "store/data.zip.unzip/sub/c.txt"] ->
     exists q, q <> [] /\
               Path.components p =
               Path.components ("store/data.zip" +++ ".unzip") ++ q /\
               file_at (fs unzipped_world) (Path.components p) <> None) /\
  (forall q, q <> [] ->
     file_at (fs unzipped_world)
             (Path.components ("store/data.zip" +++ ".unzip") ++ q) <> None ->
     exists p,
       In p ["store/data.zip.unzip/a.txt"; "store/data.zip.unzip/b.txt";
             "store/data.zip.unzip/sub/c.txt"] /\
       Path.components p = Path.components ("store/data.zip" +++ ".unzip") ++ q).
Proof.
  apply (returned_list_is_the_directory_content sample_lib
           (ExtractorProcessor.__init__ ExtractorProcessor.UnzipClass None)
           ".unzip" "store/data.zip" "download" sample_world unzipped_world).
  - reflexivity.
  - reflexivity.
  - vm_compute. reflexivity.
Defined.

(* ================================================================== *)
(** * A member of a tar archive that is no regular file *)
(* ================================================================== *)

(** [extractfile] gives [None] for a directory; the [finally] clause then
    fails on [None.close()], whatever the body did. *)
Lemma untar_member_directory ar fname extract_dir member (w : world) :
  Archive.getmember member ar = Some Directory ->
  exists w',
    untar_member ar fname extract_dir member w =
    (w', Raised (AttributeError "'NoneType' object has no attribute 'close'")) /\
    (fs w' = fs w \/ file_at (fs w') (target extract_dir member) = Some []).
Proof.
  intros G. unfold untar_member, warn. rewrite bind_emit.
  unfold Archive.extractfile. rewrite G, bind_ret.
  unfold try_finally at 1. unfold bind.
  destruct (OS.open_write (Path.join extract_dir member)
              (World (fs w) _ (faults w))) as [w1 [h|e]] eqn:O.
  - destruct (open_write_returned _ _ _ _ O) as (-> & F & _ & _).
    rewrite try_finally_close. unfold raise. simpl.
    eexists. split; [reflexivity|]. right. exact F.
  - apply open_write_raised in O. subst w1. unfold raise. simpl.
    eexists. split; [reflexivity|]. left. reflexivity.
Qed.

(** X9.  A named member of a tar archive that is a directory makes
    [Untar] fail with the [AttributeError] of [None.close()], after the
    members before it have been extracted; the members after it are
    not looked at.  The file of the member is left empty when it could
    be opened. *)
Theorem untar_directory_member_is_fatal lib (pre post : list string)
      (member fname extract_dir : string) (w w_pre : world)
      (data : bytes) (ar : archive) :
  is_file (fs w) fname = true ->
  file_at (fs w) (Path.components fname) = Some data ->
  tar_read lib data = Some ar ->
  Archive.getmember member ar = Some Directory ->
  Untar._extract_file lib (Some pre) fname extract_dir w = (w_pre, Returned tt) ->
  exists w',
    Untar._extract_file lib (Some (pre ++ member :: post)) fname extract_dir w =
    (w', Raised (AttributeError "'NoneType' object has no attribute 'close'")) /\
    same_except [target extract_dir member] (fs w_pre) (fs w') /\
    (fs w' = fs w_pre \/
     file_at (fs w') (target extract_dir member) = Some []).
Proof.
  intros Hfile Hdata Hread G Hpre.
  change (Untar._extract_file lib (Some pre) fname extract_dir)
    with (ExtractorProcessor.self_extract_file lib
            (ExtractorProcessor.__init__ ExtractorProcessor.UntarClass (Some pre))
            fname extract_dir) in Hpre.
  change (Untar._extract_file lib (Some (pre ++ member :: post)) fname extract_dir)
    with (ExtractorProcessor.self_extract_file lib
            (ExtractorProcessor.__init__ ExtractorProcessor.UntarClass
               (Some (pre ++ member :: post)))
            fname extract_dir).
  rewrite (self_extract_members lib ExtractorProcessor.UntarClass pre fname
             extract_dir w data ar Hfile Hdata Hread) in Hpre.
  rewrite (self_extract_members lib ExtractorProcessor.UntarClass
             (pre ++ member :: post) fname
             extract_dir w data ar Hfile Hdata Hread).
  rewrite try_finally_close in Hpre |- *.
  set (w0 := World (fs w) (log w ++ [Opened (HArchive fname)]) (faults w)) in *.
  rewrite for_each_app.
  destruct (for_each pre (member_step ExtractorProcessor.UntarClass ar fname
                            extract_dir) w0) as [w1 r] eqn:Epre.
  simpl in Hpre. inversion Hpre; subst w_pre r. clear Hpre.
  rewrite (bind_returned _ _ _ _ _ Epre). simpl for_each.
  pose proof (untar_member_touches ar fname extract_dir member w1) as T.
  destruct (untar_member_directory ar fname extract_dir member w1 G)
    as (w2 & E2 & F2).
  change (member_step ExtractorProcessor.UntarClass ar fname extract_dir member)
    with (untar_member ar fname extract_dir member).
  rewrite (bind_raised _ _ _ _ _ E2). rewrite E2 in T. simpl in T |- *.
  eexists. split; [reflexivity|]. simpl. split; [exact T | exact F2].
Qed.

Lemma untar_directory_member_is_fatal_witness :
  exists w',
    Untar._extract_file folder_lib (Some (["notes.txt"] ++ "docs" :: ["notes.txt"]))
      "store/data.tar" "store"  sample_world =
    (w', Raised (AttributeError "'NoneType' object has no attribute 'close'")) /\
    same_except [target "store" "docs"]
      (fs (fst (Untar._extract_file folder_lib (Some ["notes.txt"])
                  "store/data.tar" "store" sample_world)))
      (fs w') /\
    (fs w' = fs (fst (Untar._extract_file folder_lib (Some ["notes.txt"])
                        "store/data.tar" "store" sample_world)) \/
     file_at (fs w') (target "store" "docs") = Some []).
Proof.
  apply (untar_directory_member_is_fatal folder_lib ["notes.txt"] ["notes.txt"]
           "docs" "store/data.tar" "store" sample_world _
           ["T"%byte] folder_archive).
  - reflexivity.
  - reflexivity.
  - reflexivity.
  - reflexivity.
  - vm_compute. reflexivity.
Defined.

(* ================================================================== *)
(** * The warnings of a call *)
(* ================================================================== *)

Lemma warnings_app (a b : list event) :
  warnings (a ++ b) = warnings a ++ warnings b.
Proof.
  induction a as [|[msg|h|h|f d] a IH]; simpl; [reflexivity | | | |];
    try assumption.
  now rewrite IH.
Qed.

Lemma warned_nil : warned [] [].
Proof. reflexivity. Qed.

Lemma warned_app (a b : list event) : warned [] a -> warned [] b -> warned [] (a ++ b).
Proof. unfold warned. intros Ha Hb. now rewrite warnings_app, Ha, Hb. Qed.

Lemma quiet_refl (w : world) : adds (warned []) w w.
Proof. apply adds_refl, warned_nil. Qed.

Lemma quiet_trans (a b c : world) :
  adds (warned []) a b -> adds (warned []) b c -> adds (warned []) a c.
Proof. apply adds_trans, warned_app. Qed.

Lemma warned_then (L1 L2 : list string) (a b c : world) :
  adds (warned L1) a b -> adds (warned L2) b c -> adds (warned (L1 ++ L2)) a c.
Proof.
  intros (e1 & E1 & W1) (e2 & E2 & W2). exists (e1 ++ e2). split.
  - now rewrite E2, E1, app_assoc.
  - unfold warned in *. now rewrite warnings_app, W1, W2.
Qed.

Lemma quiet_then (L : list string) (a b c : world) :
  adds (warned []) a b -> adds (warned L) b c -> adds (warned L) a c.
Proof. intros H1 H2. exact (warned_then [] L a b c H1 H2). Qed.

Lemma then_quiet (L : list string) (a b c : world) :
  adds (warned L) a b -> adds (warned []) b c -> adds (warned L) a c.
Proof.
  intros H1 H2. pose proof (warned_then L [] a b c H1 H2) as H.
  now rewrite app_nil_r in H.
Qed.

Lemma quiet_close (h : handle) : keeps (adds (warned [])) (OS.close h).
Proof. apply keeps_adds_emit; reflexivity. Qed.

(** [with open(path, "wb") as output: body]. *)
Lemma save_quiet (path : string) (body : M unit) :
  keeps (adds (warned [])) body ->
  keeps (adds (warned []))
        (output <- OS.open_write path ;; try_finally body (OS.close output)).
Proof.
  intros Hb. apply keeps_bind; [exact quiet_trans | |].
  - apply keeps_adds_open_write; reflexivity.
  - intros output. apply keeps_try_finally; [exact quiet_trans | exact Hb |].
    apply quiet_close.
Qed.

Lemma extractall_quiet ar path :
  keeps (adds (warned [])) (Archive.extractall ar path).
Proof.
  unfold Archive.extractall.
  apply keeps_for_each; [exact quiet_refl | exact quiet_trans |].
  intros [name e] _. unfold Archive.extract_entry. simpl.
  destruct e as [data|].
  - apply keeps_bind; [exact quiet_trans | |].
    + apply keeps_adds_ensure_dir, warned_nil.
    + intros _. apply save_quiet. apply keeps_adds_write, warned_nil.
  - apply keeps_adds_ensure_dir, warned_nil.
Qed.

(** ** Statements that announce *)

Lemma announces_quiet {A} (m : M A) :
  keeps (adds (warned [])) m -> announces [] m.
Proof. intros H w. exists 0. split; [exact (H w) | reflexivity]. Qed.

Lemma announces_raise {A} (L : list string) (e : exn) : announces L (@raise A e).
Proof.
  intros w. exists 0. split; [apply quiet_refl | discriminate].
Qed.

Lemma announces_after {A B} (L : list string) (m : M A) (f : A -> M B) :
  keeps (adds (warned [])) m -> (forall v, announces L (f v)) ->
  announces L (bind m f).
Proof.
  intros Hm Hf w. pose proof (Hm w) as Q. unfold bind.
  destruct (m w) as [w1 [v|e]]; simpl in Q.
  - destruct (Hf v w1) as (k & Ad & R). exists k. split; [|exact R].
    eapply quiet_then; eassumption.
  - exists 0. split; [exact Q | discriminate].
Qed.

Lemma announces_before {A B} (L : list string) (m : M A) (f : A -> M B) :
  announces L m -> (forall v, keeps (adds (warned [])) (f v)) ->
  announces L (bind m f).
Proof.
  intros Hm Hf w. destruct (Hm w) as (k & Ad & R). unfold bind.
  destruct (m w) as [w1 [v|e]]; simpl in Ad.
  - exists k. split; [|intros _ _; exact (R v eq_refl)].
    eapply then_quiet; [exact Ad | apply Hf].
  - exists k. split; [exact Ad | discriminate].
Qed.

Lemma announces_finally {A} (L : list string) (body : M A) (cleanup : M unit) :
  announces L body -> keeps (adds (warned [])) cleanup ->
  announces L (try_finally body cleanup).
Proof.
  intros Hb Hc w. destruct (Hb w) as (k & Ad & R). exists k. split.
  - rewrite try_finally_world. eapply then_quiet; [exact Ad | apply Hc].
  - intros v E. unfold try_finally in E.
    destruct (body w) as [w1 r]. destruct (cleanup w1) as [w2 [u|e]];
      simpl in E; [|discriminate]. exact (R v E).
Qed.

Lemma announces_one (msg : string) (rest : M unit) :
  keeps (adds (warned [])) rest -> announces [msg] (warn msg ;;; rest).
Proof.
  intros Hr w. exists 1. split; [|reflexivity].
  unfold warn. rewrite bind_emit. simpl firstn.
  eapply then_quiet; [|apply Hr].
  exists [Warn msg]. split; reflexivity.
Qed.

Lemma announces_cons (msg : string) (L : list string) (first rest : M unit) :
  announces [msg] first -> announces L rest ->
  announces (msg :: L) (first ;;; rest).
Proof.
  intros H1 H2 w. destruct (H1 w) as (k & Ad & R). unfold bind.
  destruct (first w) as [w1 [[]|e]]; simpl in Ad.
  - specialize (R tt eq_refl). rewrite R in Ad.
    destruct (H2 w1) as (k2 & Ad2 & R2). exists (S k2). split.
    + simpl firstn. exact (warned_then [msg] _ _ _ _ Ad Ad2).
    + intros v E. simpl. f_equal. exact (R2 v E).
  - destruct k as [|k].
    + exists 0. split; [exact Ad | discriminate].
    + exists 1. split; [|discriminate].
      simpl in Ad. rewrite firstn_nil in Ad. exact Ad.
Qed.

Lemma announces_with_archive (L : list string) read fname
      (body : archive -> M unit) :
  (forall ar, announces L (body ar)) ->
  announces L (Archive.with_archive read fname body).
Proof.
  intros Hb. unfold Archive.with_archive.
  apply announces_after; [apply keeps_adds_read_file, warned_nil|].
  intros data. destruct (read data) as [ar|]; [|apply announces_raise].
  apply announces_after; [apply keeps_adds_emit; reflexivity|].
  intros _. apply announces_finally; [apply Hb | apply quiet_close].
Qed.

Lemma unzip_member_announces ar fname extract_dir member :
  announces [extracting fname extract_dir member]
            (unzip_member ar fname extract_dir member).
Proof.
  unfold unzip_member. apply announces_one.
  apply keeps_bind; [exact quiet_trans | |].
  - unfold Archive.zip_open. destruct (Archive.getmember member ar).
    + apply keeps_bind; [exact quiet_trans | |].
      * apply keeps_adds_emit; reflexivity.
      * intros _. apply keeps_ret. exact quiet_refl.
    + apply keeps_raise. exact quiet_refl.
  - intros data_file. apply keeps_try_finally; [exact quiet_trans | |].
    + apply save_quiet. apply keeps_adds_write, warned_nil.
    + apply quiet_close.
Qed.

Lemma untar_member_announces ar fname extract_dir member :
  announces [extracting fname extract_dir member]
            (untar_member ar fname extract_dir member).
Proof.
  unfold untar_member. apply announces_one.
  apply keeps_bind; [exact quiet_trans | |].
  - unfold Archive.extractfile.
    destruct (Archive.getmember member ar) as [[data|]|].
    + apply keeps_bind; [exact quiet_trans | |].
      * apply keeps_adds_emit; reflexivity.
      * intros _. apply keeps_ret. exact quiet_refl.
    + apply keeps_ret. exact quiet_refl.
    + apply keeps_raise. exact quiet_refl.
  - intros data_file. apply keeps_try_finally; [exact quiet_trans | |].
    + apply save_quiet. destruct data_file.
      * apply keeps_adds_write, warned_nil.
      * apply keeps_raise. exact quiet_refl.
    + destruct data_file; [apply quiet_close|].
      apply keeps_raise. exact quiet_refl.
Qed.

Lemma loop_announces (msg : string -> string) (step : string -> M unit)
      (members : list string) :
  (forall member, announces [msg member] (step member)) ->
  announces (map msg members) (for_each members step).
Proof.
  intros Hs. induction members as [|m ms IH]; simpl.
  - apply announces_quiet. apply keeps_ret. exact quiet_refl.
  - apply announces_cons; [apply Hs | exact IH].
Qed.

Lemma self_extract_file_announces lib self fname extract_dir :
  announces (announcement self fname extract_dir)
            (ExtractorProcessor.self_extract_file lib self fname extract_dir).
Proof.
  destruct self as [c ms].
  unfold ExtractorProcessor.self_extract_file, announcement. simpl.
  destruct c.
  - apply announces_raise.
  - unfold Unzip._extract_file. apply announces_with_archive. intros ar.
    destruct ms as [ms|].
    + apply (loop_announces (extracting fname extract_dir)
               (unzip_member ar fname extract_dir)).
      intros member. apply unzip_member_announces.
    + apply announces_one. apply extractall_quiet.
  - unfold Untar._extract_file. apply announces_with_archive. intros ar.
    destruct ms as [ms|].
    + apply (loop_announces (extracting fname extract_dir)
               (untar_member ar fname extract_dir)).
      intros member. apply untar_member_announces.
    + apply announces_one. apply extractall_quiet.
Qed.

Lemma announces_news {A} (L : list string) (m : M A) (w : world) :
  announces L m ->
  (exists k, warnings (news w (fst (m w))) = firstn k L) /\
  (forall w' v, m w = (w', Returned v) -> warnings (news w w') = L).
Proof.
  intros H. destruct (H w) as (k & (evs & E & W) & R).
  rewrite (news_app _ _ _ E). split.
  - exists k. exact W.
  - intros w' v Hm. rewrite Hm in E, R. simpl in E, R.
    rewrite (news_app _ _ _ E). rewrite <- (R v eq_refl). exact W.
Qed.

(** X10.  The warnings of an extractor call, in their order, are the first
    ones of: nothing when the call does not unpack; one warning for the
    whole archive when there is no member restriction; one warning for
    each named member, in the order of the names.  A call that returns
    has given all of them. *)
Theorem extractor_warnings lib self sfx fname action (w : world) :
  ExtractorProcessor.suffix self = Some sfx ->
  (exists k,
     warnings (news w (fst (ExtractorProcessor.__call__ lib self fname action w)))
     = firstn k (announcement self fname (fname +++ sfx))) /\
  (forall w' files,
     ExtractorProcessor.__call__ lib self fname action w = (w', Returned files) ->
     warnings (news w w') =
     if stale (fs w) action (fname +++ sfx)
     then announcement self fname (fname +++ sfx) else []).
Proof.
  intros Hs.
  destruct (stale (fs w) action (fname +++ sfx)) eqn:St.
  - rewrite (call_stale lib self sfx fname action w Hs St).
    apply announces_news.
    apply announces_before.
    + apply announces_after.
      * destruct (OS.exists_in (fs w) (fname +++ sfx)).
        -- apply keeps_ret. exact quiet_refl.
        -- apply keeps_adds_silent; [exact warned_nil | apply makedirs_log].
      * intros _. apply announces_after; [apply keeps_adds_emit; reflexivity|].
        intros _. apply self_extract_file_announces.
    + intros _. apply keeps_bind; [exact quiet_trans | |].
      * apply keeps_adds_silent; [exact warned_nil | reflexivity].
      * intros walked. apply keeps_ret. exact quiet_refl.
  - rewrite (call_hit lib self sfx fname action w Hs St). simpl. split.
    + exists 0. now rewrite news_same.
    + intros w' files E. inversion E; subst. now rewrite news_same.
Qed.

Lemma extractor_warnings_witness :
  (exists k,
     warnings (news sample_world
                 (fst (ExtractorProcessor.__call__ sample_lib
                         (ExtractorProcessor.__init__
                            ExtractorProcessor.UntarClass
                            (Some ["b.txt"; "missing.txt"; "a.txt"]))
                         "store/data.tar" "download" sample_world)))
     = firstn k (announcement
                   (ExtractorProcessor.__init__ ExtractorProcessor.UntarClass
                      (Some ["b.txt"; "missing.txt"; "a.txt"]))
                   "store/data.tar" ("store/data.tar" +++ ".untar"))) /\
  (forall w' files,
     ExtractorProcessor.__call__ sample_lib
       (ExtractorProcessor.__init__ ExtractorProcessor.UntarClass
          (Some ["b.txt"; "missing.txt"; "a.txt"]))
       "store/data.tar" "download" sample_world = (w', Returned files) ->
     warnings (news sample_world w') =
     if stale (fs sample_world) "download" ("store/data.tar" +++ ".untar")
     then announcement
            (ExtractorProcessor.__init__ ExtractorProcessor.UntarClass
               (Some ["b.txt"; "missing.txt"; "a.txt"]))
            "store/data.tar" ("store/data.tar" +++ ".untar")
     else []).
Proof.
  apply (extractor_warnings sample_lib
           (ExtractorProcessor.__init__ ExtractorProcessor.UntarClass
              (Some ["b.txt"; "missing.txt"; "a.txt"]))
           ".untar" "store/data.tar" "download" sample_world).
  reflexivity.
Defined.

(** X11.  A call of [Decompress] that does its work gives its one warning,
    whether it then returns or raises; a call that finds the output
    file gives none. *)
Theorem decompress_warns_once lib self fname action (w : world) :
  warnings (news w (fst (Decompress.__call__ lib self fname action w))) =
  if stale (fs w) action (fname +++ ".decomp")
  then ["Decompressing '" +++ fname +++ "' to '" +++ (fname +++ ".decomp")
        +++ "' using method '" +++ Decompress.method self +++ "'."]
  else [].
Proof.
  destruct (stale (fs w) action (fname +++ ".decomp")) eqn:St.
  2:{ rewrite (decompress_hit lib self fname action w St). simpl.
      now rewrite news_same. }
  assert (W : forall w', adds (warned []) (World (fs w)
                 (log w ++ [Warn ("Decompressing '" +++ fname +++ "' to '"
                                  +++ (fname +++ ".decomp") +++ "' using method '"
                                  +++ Decompress.method self +++ "'.")])
                 (faults w)) w' ->
              warnings (news w w') =
              ["Decompressing '" +++ fname +++ "' to '" +++ (fname +++ ".decomp")
               +++ "' using method '" +++ Decompress.method self +++ "'."]).
  { intros w' (evs & E & Q). simpl in E. rewrite <- app_assoc in E.
    rewrite (news_app _ _ _ E). simpl. now rewrite Q. }
  destruct (Decompress._compression_module self fname) as [module|e] eqn:Hm.
  - rewrite (decompress_resolved lib self fname action w module St Hm).
    apply W.
    assert (K : keeps (adds (warned []))
                  ((output <- OS.open_write (fname +++ ".decomp") ;;
                    try_finally
                      (compressed <- Decompress.module_open lib module fname ;;
                       try_finally
                         (copyfileobj compressed (fname +++ ".decomp"))
                         (OS.close (HCompressed fname)))
                      (OS.close output)) ;;;
                   ret (fname +++ ".decomp"))).
    { apply keeps_bind; [exact quiet_trans | |].
      - apply save_quiet. apply keeps_bind; [exact quiet_trans | |].
        + unfold Decompress.module_open.
          apply keeps_bind; [exact quiet_trans | |].
          * apply keeps_adds_read_file, warned_nil.
          * intros data. apply keeps_bind; [exact quiet_trans | |].
            -- apply keeps_adds_emit; reflexivity.
            -- intros _. apply keeps_ret. exact quiet_refl.
        + intros compressed.
          apply keeps_try_finally; [exact quiet_trans | | apply quiet_close].
          unfold copyfileobj. apply keeps_copy_loop.
          * exact quiet_refl.
          * exact quiet_trans.
          * intros data. apply keeps_adds_write, warned_nil.
      - intros _. apply keeps_ret. exact quiet_refl. }
    apply K.
  - rewrite (decompress_unresolved lib self fname action w e St Hm).
    apply W. apply quiet_refl.
Qed.

(* ================================================================== *)
(** * What the action is used for *)
(* ================================================================== *)

Lemma in_tuple_same (a b : string) :
  (a = "update" \/ a = "download" <-> b = "update" \/ b = "download") ->
  in_tuple a ["update"; "download"] = in_tuple b ["update"; "download"].
Proof.
  intros H.
  destruct (in_tuple a ["update"; "download"]) eqn:Ea;
    destruct (in_tuple b ["update"; "download"]) eqn:Eb; try reflexivity.
  - apply in_tuple_actions in Ea.
    assert (Hb : b = "download" \/ b = "update") by tauto.
    apply in_tuple_actions in Hb. congruence.
  - apply in_tuple_actions in Eb.
    assert (Ha : a = "download" \/ a = "update") by tauto.
    apply in_tuple_actions in Ha. congruence.
Qed.

(** X12.  The processors read the action only to see whether it is
    [update] or [download]: two actions that agree on this give the
    same run, so any other action, known or not, is treated as
    [fetch]. *)
Theorem action_only_selects_refresh lib (self : ExtractorProcessor.t)
      (dself : Decompress.t) (fname a b : string) (w : world) :
  (a = "update" \/ a = "download" <-> b = "update" \/ b = "download") ->
  ExtractorProcessor.__call__ lib self fname a w =
  ExtractorProcessor.__call__ lib self fname b w /\
  Decompress.__call__ lib dself fname a w =
  Decompress.__call__ lib dself fname b w.
Proof.
  intros H. apply in_tuple_same in H.
  unfold ExtractorProcessor.__call__, Decompress.__call__, must_refresh.
  rewrite H. split; reflexivity.
Qed.

Lemma action_only_selects_refresh_witness :
  ExtractorProcessor.__call__ sample_lib
    (ExtractorProcessor.__init__ ExtractorProcessor.UnzipClass None)
    "store/data.zip" "fetch" sample_world =
  ExtractorProcessor.__call__ sample_lib
    (ExtractorProcessor.__init__ ExtractorProcessor.UnzipClass None)
    "store/data.zip" "Download" sample_world /\
  Decompress.__call__ sample_lib (Decompress.__init__ "auto")
    "store/data.zip" "fetch" sample_world =
  Decompress.__call__ sample_lib (Decompress.__init__ "auto")
    "store/data.zip" "Download" sample_world.
Proof.
  apply (action_only_selects_refresh sample_lib
           (ExtractorProcessor.__init__ ExtractorProcessor.UnzipClass None)
           (Decompress.__init__ "auto") "store/data.zip" "fetch" "Download"
           sample_world).
  split; intros [E|E]; discriminate E.
Defined.

(* ================================================================== *)
(** * The extension that [auto] reads *)
(* ================================================================== *)

Lemma rfind_from_no_sep (s : string) :
  has_sep s = false -> forall j, Path.rfind_from Path.sep s j = (-1)%Z.
Proof.
  induction s as [|c s IH]; simpl; intros H j; [reflexivity|].
  apply orb_false_iff in H as [Hc Hs]. rewrite (IH Hs). simpl.
  now rewrite Hc.
Qed.

Lemma rfind_from_app_absent (c : ascii) (s t : string) :
  (forall j, Path.rfind_from c t j = (-1)%Z) ->
  forall i, Path.rfind_from c (s +++ t) i = Path.rfind_from c s i.
Proof.
  intros H. induction s as [|a s IH]; simpl; intros i.
  - apply H.
  - now rewrite IH.
Qed.

Lemma rfind_from_app_last (c : ascii) (s t : string) :
  (forall j, Path.rfind_from c t j = (-1)%Z) ->
  forall i, (0 <= i)%Z ->
    Path.rfind_from c (s +++ String c t) i = (i + Z.of_nat (String.length s))%Z.
Proof.
  intros H. induction s as [|a s IH]; intros i Hi.
  - simpl. rewrite H. simpl. rewrite Ascii.eqb_refl. lia.
  - change (Path.rfind_from c (String a s +++ String c t) i)
      with (let r := Path.rfind_from c (s +++ String c t) (i + 1)%Z in
            if (0 <=? r)%Z then r
            else if Ascii.eqb a c then i else (-1)%Z).
    rewrite IH by lia. cbv zeta.
    destruct (0 <=? i + 1 + Z.of_nat (String.length s))%Z eqn:E.
    + simpl String.length. lia.
    + apply Z.leb_gt in E. lia.
Qed.

Lemma endswith_sep_split (d : string) :
  Path.endswith_sep d = true -> exists d', d = d' +++ "/".
Proof.
  induction d as [|a d IH]; [discriminate|].
  destruct d as [|b d].
  - simpl. intros H. apply Ascii.eqb_eq in H. subst a. now exists "".
  - intros H. change (Path.endswith_sep (String b d) = true) in H.
    destruct (IH H) as (d' & E). exists (String a d'). simpl. now rewrite E.
Qed.

Lemma substring_prefix (a b : string) :
  String.substring 0 (String.length a) (a +++ b) = a.
Proof.
  induction a as [|c a IH]; simpl.
  - now destruct b.
  - now rewrite IH.
Qed.

Lemma substring_skip (a b : string) (n : nat) :
  String.substring (String.length a) n (a +++ b) = String.substring 0 n b.
Proof. induction a as [|c a IH]; simpl; [reflexivity | exact IH]. Qed.

Lemma substring_whole (b : string) :
  String.substring 0 (String.length b) b = b.
Proof. induction b as [|c b IH]; simpl; [reflexivity | now rewrite IH]. Qed.

(** The last separator of a path made of a directory part and a name:
    the name starts right after it. *)
Lemma rfind_sep_before_name (dir rest : string) :
  dir = "" \/ Path.endswith_sep dir = true -> has_sep rest = false ->
  (Path.rfind Path.sep (dir +++ rest) + 1)%Z = Z.of_nat (String.length dir).
Proof.
  intros [->|Hd] Hr; unfold Path.rfind.
  - simpl. now rewrite rfind_from_no_sep.
  - destruct (endswith_sep_split dir Hd) as (d' & ->).
    rewrite append_assoc. change ("/" +++ rest) with (String Path.sep rest).
    rewrite rfind_from_app_last; [|now apply rfind_from_no_sep | lia].
    rewrite string_length_append. simpl. lia.
Qed.

Lemma has_sep_app (a b : string) :
  has_sep (a +++ b) = has_sep a || has_sep b.
Proof.
  induction a as [|c a IH]; simpl; [reflexivity|].
  now rewrite IH, orb_assoc.
Qed.

Lemma splitext_of_name (dir name e : string) :
  dir = "" \/ Path.endswith_sep dir = true ->
  has_sep name = false -> has_sep e = false ->
  (forall j, Path.rfind_from Path.extsep e j = (-1)%Z) ->
  Path.splitext (dir +++ name +++ String Path.extsep e) =
  if Path.has_non_dot name
  then (dir +++ name, String Path.extsep e)
  else (dir +++ name +++ String Path.extsep e, "").
Proof.
  intros Hd Hn He Hdot. unfold Path.splitext.
  assert (Hrest : has_sep (name +++ String Path.extsep e) = false).
  { rewrite has_sep_app, Hn. simpl. exact He. }
  pose proof (rfind_sep_before_name dir _ Hd Hrest) as Hsep.
  assert (Hdi : Path.rfind Path.extsep (dir +++ name +++ String Path.extsep e) =
                Z.of_nat (String.length dir + String.length name)).
  { unfold Path.rfind. rewrite <- append_assoc.
    rewrite rfind_from_app_last; [|exact Hdot | lia].
    rewrite string_length_append. lia. }
  rewrite Hdi.
  replace (Path.rfind Path.sep (dir +++ name +++ String Path.extsep e))
    with (Z.of_nat (String.length dir) - 1)%Z by lia.
  replace (Z.of_nat (String.length dir) - 1 + 1)%Z
    with (Z.of_nat (String.length dir)) by lia.
  destruct (Z.of_nat (String.length dir) - 1 <?
            Z.of_nat (String.length dir + String.length name))%Z eqn:Lt;
    [|apply Z.ltb_ge in Lt; lia].
  rewrite Nat2Z.id.
  replace (Z.to_nat (Z.of_nat (String.length dir + String.length name) -
                     Z.of_nat (String.length dir)))
    with (String.length name) by lia.
  rewrite substring_skip, substring_prefix.
  destruct (Path.has_non_dot name); [|reflexivity].
  unfold Path.slice_to, Path.slice_from. rewrite Nat2Z.id. f_equal.
  - rewrite <- append_assoc, <- string_length_append. apply substring_prefix.
  - rewrite <- append_assoc, <- string_length_append, substring_skip.
    rewrite (string_length_append (dir +++ name)).
    replace (String.length (dir +++ name) + String.length (String Path.extsep e)
             - String.length (dir +++ name))
      with (String.length (String Path.extsep e)) by lia.
    apply substring_whole.
Qed.

(** X13.  Under [auto] the format is read from what follows the last dot of
    the file name proper: a name that ends in [.gz], [.xz] or [.bz2]
    selects gzip, lzma or bz2, but only when something other than dots
    comes before that dot; a file named [.gz] has no extension and is
    refused. *)
Theorem auto_reads_the_last_extension (dir name : string) :
  dir = "" \/ Path.endswith_sep dir = true ->
  has_sep name = false ->
  Decompress._compression_module (Decompress.__init__ "auto")
    (dir +++ name +++ ".gz") =
  (if Path.has_non_dot name then Returned gzip
   else Raised (ValueError
                  "Unrecognized extension ''. Must be one of '['.xz', '.gz', '.bz2']'.")) /\
  Decompress._compression_module (Decompress.__init__ "auto")
    (dir +++ name +++ ".xz") =
  (if Path.has_non_dot name then Returned lzma
   else Raised (ValueError
                  "Unrecognized extension ''. Must be one of '['.xz', '.gz', '.bz2']'.")) /\
  Decompress._compression_module (Decompress.__init__ "auto")
    (dir +++ name +++ ".bz2") =
  (if Path.has_non_dot name then Returned bz2
   else Raised (ValueError
                  "Unrecognized extension ''. Must be one of '['.xz', '.gz', '.bz2']'.")).
Proof.
  intros Hd Hn. unfold Decompress._compression_module. simpl.
  change ".gz" with (String Path.extsep "gz").
  change ".xz" with (String Path.extsep "xz").
  change ".bz2" with (String Path.extsep "bz2").
  rewrite !splitext_of_name by (try assumption; reflexivity).
  destruct (Path.has_non_dot name); repeat split; reflexivity.
Qed.

Lemma auto_reads_the_last_extension_witness :
  Decompress._compression_module (Decompress.__init__ "auto")
    ("store/" +++ "values.csv" +++ ".gz") =
  (if Path.has_non_dot "values.csv" then Returned gzip
   else Raised (ValueError
                  "Unrecognized extension ''. Must be one of '['.xz', '.gz', '.bz2']'.")) /\
  Decompress._compression_module (Decompress.__init__ "auto")
    ("store/" +++ "values.csv" +++ ".xz") =
  (if Path.has_non_dot "values.csv" then Returned lzma
   else Raised (ValueError
                  "Unrecognized extension ''. Must be one of '['.xz', '.gz', '.bz2']'.")) /\
  Decompress._compression_module (Decompress.__init__ "auto")
    ("store/" +++ "values.csv" +++ ".bz2") =
  (if Path.has_non_dot "values.csv" then Returned bz2
   else Raised (ValueError
                  "Unrecognized extension ''. Must be one of '['.xz', '.gz', '.bz2']'.")).
Proof.
  apply (auto_reads_the_last_extension "store/" "values.csv").
  - right. reflexivity.
  - reflexivity.
Defined.

(* ================================================================== *)
(** * A named member whose folder is not there *)
(* ================================================================== *)

Lemma store_needs_dir (p : list string) :
  forall (n n' x : node) (k : string),
    Tree.store n (p ++ [k]) x = Some n' -> dir_at n p = true.
Proof.
  induction p as [|c p IH]; intros n n' x k H.
  - destruct n as [d|es]; [discriminate|]. reflexivity.
  - destruct n as [d|es]; [discriminate|].
    simpl in H. unfold dir_at. simpl.
    destruct (p ++ [k]) as [|c' q] eqn:E; [now destruct p|].
    destruct (Tree.get c es) as [ch|]; [|discriminate].
    destruct (Tree.store ch (c' :: q) x) as [ch'|] eqn:S; [|discriminate].
    rewrite <- E in S. exact (IH _ _ _ _ S).
Qed.

Lemma lookup_needs_dir (p : list string) :
  forall (n m : node) (k : string),
    Tree.lookup n (p ++ [k]) = Some m -> dir_at n p = true.
Proof.
  intros n m k H. rewrite lookup_app in H. unfold dir_at.
  destruct (Tree.lookup n p) as [[d|es]|]; try discriminate. reflexivity.
Qed.

(** [open(path, "wb")] makes no directory: it fails when the directory
    of the file is not there. *)
Lemma open_write_needs_dir (path : string) (w : world) :
  dir_at (fs w) (removelast (Path.components path)) = false ->
  exists errno, OS.open_write path w = (w, Raised (OSError errno)).
Proof.
  intros H. unfold OS.open_write.
  destruct (path =? "")%string; [now eexists|].
  destruct (Path.wants_dir path) eqn:Wd; [now eexists|].
  assert (C : exists p k, Path.components path = p ++ [k]).
  { rewrite components_stem. unfold Path.wants_dir in Wd.
    apply negb_false_iff in Wd. unfold last_segment. rewrite Wd.
    now exists (stem path), (last (Path.segments path) ""). }
  destruct C as (p & k & C). rewrite C in H |- *.
  rewrite removelast_last in H.
  destruct (Tree.store (fs w) (p ++ [k]) (File [])) as [root|] eqn:S.
  { apply store_needs_dir in S. congruence. }
  destruct (Tree.lookup (fs w) (p ++ [k])) as [[d|es]|] eqn:L;
    try (apply lookup_needs_dir in L; congruence).
  destruct (Tree.blocked (fs w) (p ++ [k])); now eexists.
Qed.

Lemma member_step_needs_dir c ar fname extract_dir member (content : bytes)
      (w : world) :
  c <> ExtractorProcessor.BaseClass ->
  Archive.getmember member ar = Some (Regular content) ->
  dir_at (fs w) (removelast (target extract_dir member)) = false ->
  exists w' errno,
    member_step c ar fname extract_dir member w = (w', Raised (OSError errno)) /\
    fs w' = fs w.
Proof.
  intros Hc G D.
  destruct c; [contradiction | |]; simpl member_step.
  - unfold unzip_member, warn. rewrite bind_emit.
    unfold Archive.zip_open. rewrite G, bind_assoc, bind_emit, bind_ret.
    rewrite try_finally_close.
    match goal with
    | |- context [bind (OS.open_write ?path) ?k ?w0] =>
        destruct (open_write_needs_dir path w0 D) as (errno & O);
        rewrite (bind_raised _ k _ _ _ O)
    end.
    simpl. eexists. exists errno. split; reflexivity.
  - unfold untar_member, warn. rewrite bind_emit.
    unfold Archive.extractfile. rewrite G, bind_assoc, bind_emit, bind_ret.
    rewrite try_finally_close.
    match goal with
    | |- context [bind (OS.open_write ?path) ?k ?w0] =>
        destruct (open_write_needs_dir path w0 D) as (errno & O);
        rewrite (bind_raised _ k _ _ _ O)
    end.
    simpl. eexists. exists errno. split; reflexivity.
Qed.

(** X14.  The extraction of a named member makes no directory.  When the
    directory of [os.path.join(extract_dir, member)] is not there (a
    member in a folder of the archive, for one), the open of the output
    file fails with an [OSError], nothing is written and the members
    that follow are not extracted. *)
Theorem named_member_needs_its_directory lib c (member : string)
      (post : list string) (fname extract_dir : string) (w : world)
      (data content : bytes) (ar : archive) :
  c <> ExtractorProcessor.BaseClass ->
  is_file (fs w) fname = true ->
  file_at (fs w) (Path.components fname) = Some data ->
  reader lib c data = Some ar ->
  Archive.getmember member ar = Some (Regular content) ->
  dir_at (fs w) (removelast (target extract_dir member)) = false ->
  exists w' errno,
    ExtractorProcessor.self_extract_file lib
      (ExtractorProcessor.__init__ c (Some (member :: post)))
      fname extract_dir w = (w', Raised (OSError errno)) /\
    fs w' = fs w.
Proof.
  intros Hc Hfile Hdata Hread G D.
  rewrite (self_extract_members lib c (member :: post) fname extract_dir w
             data ar Hfile Hdata Hread).
  rewrite try_finally_close. simpl for_each.
  destruct (member_step_needs_dir c ar fname extract_dir member content
              (World (fs w) (log w ++ [Opened (HArchive fname)]) (faults w))
              Hc G D) as (w1 & errno & E & F).
  rewrite (bind_raised _ _ _ _ _ E). simpl.
  eexists. exists errno. split; [reflexivity | exact F].
Qed.

Lemma named_member_needs_its_directory_witness :
  exists w' errno,
    ExtractorProcessor.self_extract_file sample_lib
      (ExtractorProcessor.__init__ ExtractorProcessor.UnzipClass
         (Some ("sub/c.txt" :: ["a.txt"])))
      "store/data.zip" "store/data.zip.unzip" prepared_world =
    (w', Raised (OSError errno)) /\
    fs w' = fs prepared_world.
Proof.
  apply (named_member_needs_its_directory sample_lib
           ExtractorProcessor.UnzipClass "sub/c.txt" ["a.txt"]
           "store/data.zip" "store/data.zip.unzip" prepared_world
           ["Z"%byte] ["c"%byte; "3"%byte] sample_archive).
  - discriminate.
  - reflexivity.
  - reflexivity.
  - reflexivity.
  - reflexivity.
  - reflexivity.
Defined.

(* ================================================================== *)
(** * Two corners of the refresh policy *)
(* ================================================================== *)

(** X15.  The format is resolved before the output file is opened: a call
    of [Decompress] whose format cannot be resolved leaves the file
    system as it was, so an output file of an earlier call keeps its
    content; when the call has work to do it raises the error of the
    resolution. *)
Theorem unresolved_format_writes_nothing lib self fname action (w : world)
      (e : exn) :
  Decompress._compression_module self fname = Raised e ->
  fs (fst (Decompress.__call__ lib self fname action w)) = fs w /\
  snd (Decompress.__call__ lib self fname action w) =
  (if stale (fs w) action (fname +++ ".decomp")
   then Raised e else Returned (fname +++ ".decomp")).
Proof.
  intros Hm. destruct (stale (fs w) action (fname +++ ".decomp")) eqn:St.
  - rewrite (decompress_unresolved lib self fname action w e St Hm).
    split; reflexivity.
  - rewrite (decompress_hit lib self fname action w St). split; reflexivity.
Qed.

Lemma unresolved_format_writes_nothing_witness :
  fs (fst (Decompress.__call__ sample_lib (Decompress.__init__ "auto")
             "store/data.zip" "download" decompressed_world)) =
  fs decompressed_world /\
  snd (Decompress.__call__ sample_lib (Decompress.__init__ "auto")
         "store/data.zip" "download" decompressed_world) =
  (if stale (fs decompressed_world) "download" ("store/data.zip" +++ ".decomp")
   then Raised (ValueError
                  "Unrecognized extension '.zip'. Must be one of '['.xz', '.gz', '.bz2']'.")
   else Returned ("store/data.zip" +++ ".decomp")).
Proof.
  apply (unresolved_format_writes_nothing sample_lib (Decompress.__init__ "auto")
           "store/data.zip" "download" decompressed_world).
  reflexivity.
Defined.

(** X16.  A regular file at the place of the output directory counts as
    the extracted archive: a call with the action [fetch] unpacks
    nothing and returns the empty list, without an error. *)
Theorem file_in_place_of_the_directory lib self sfx fname (w : world)
      (content : bytes) :
  ExtractorProcessor.suffix self = Some sfx ->
  file_at (fs w) (Path.components (fname +++ sfx)) = Some content ->
  ExtractorProcessor.__call__ lib self fname "fetch" w = (w, Returned []).
Proof.
  intros Hs Hf.
  destruct (suffix_shape self sfx Hs) as [Hsep Hlen].
  destruct (components_append_suffix fname sfx Hsep Hlen) as (_ & Hw & Hne).
  assert (L : Tree.lookup (fs w) (Path.components (fname +++ sfx)) =
              Some (File content)).
  { unfold file_at in Hf.
    destruct (Tree.lookup (fs w) (Path.components (fname +++ sfx)))
      as [[d|es]|]; try discriminate. now inversion Hf. }
  rewrite (call_hit lib self sfx fname "fetch" w Hs).
  - unfold enumerate, OS.walked. now rewrite Hne, L.
  - rewrite stale_fetch. unfold OS.exists_in. now rewrite Hne, L, Hw.
Qed.

Lemma file_in_place_of_the_directory_witness :
  ExtractorProcessor.__call__ sample_lib
    (ExtractorProcessor.__init__ ExtractorProcessor.UnzipClass None)
    "store/data.zip" "fetch" shadowed_world = (shadowed_world, Returned []).
Proof.
  apply (file_in_place_of_the_directory sample_lib
           (ExtractorProcessor.__init__ ExtractorProcessor.UnzipClass None)
           ".unzip" "store/data.zip" shadowed_world ["x"%byte]).
  - reflexivity.
  - reflexivity.
Defined.
